(** * Tic-tac-toe backend: game engine, AI opponent, progression,
      achievements, recommendation cache and the socket pipelines.

    A shallow embedding of the TypeScript services and the properties the
    specification states about them.  The definitions come first, one module
    per source file; the properties follow, one section per subject.

    Conventions of the embedding:
    - a JavaScript [number] that holds a count, an index, a point total or a
      time in milliseconds is an integer [Z]; a [number] that need not be an
      integer, that is clock time in seconds and the quotient of
      [getProgressPercent], is an IEEE 754 binary64 number, with the
      operations of the Standard Library's [SpecFloat] (round to nearest,
      ties to even);
    - [null] and [undefined] are [None];
    - a collection of the document store is a finite map or a list, and an
      [await]ed storage call is a total function on it;
    - [Date.now()] and [new Date()] are an explicit argument [now], in
      milliseconds;
    - a socket handler runs from its first line to its last without another
      handler in between; what the source defers ([setImmediate], the AI's
      delay, [setTimeout]) is a step of its own, and the document a deferred
      step still holds is carried with it. *)

From Stdlib Require Import ZArith QArith Qround List Bool Lia Sorted SpecFloat.
From stdpp Require Import base option list gmap strings pretty.

Local Open Scope Z_scope.

(** ** services/gameEngine.ts *)
Module GameEngine.

Inductive player := X | O.

#[global] Instance player_eq_dec : EqDecision player.
Proof. solve_decision. Defined.

Definition other (p : player) : player :=
  match p with X => O | O => X end.

(** A cell is the empty string, ["X"] or ["O"]; [None] is the empty string. *)
Abbreviation cell := (option player).

(** [string[]]: reading past the end gives [undefined], i.e. [b !! i = None]. *)
Abbreviation board := (list cell).

Definition winningLines : list (list nat) :=
  [ [0; 1; 2]; [3; 4; 5]; [6; 7; 8]     (* rows *)
  ; [0; 3; 6]; [1; 4; 7]; [2; 5; 8]     (* columns *)
  ; [0; 4; 8]; [2; 4; 6] ]%nat.         (* diagonals *)

(** The fields of a move the engine reads. *)
Record MoveView := mkMoveView {
  moveNumber : Z;
  position : Z;
  player_of : player;
  expiredOnMove : option Z
}.

Definition emptyBoard : board := replicate 9 None.

Definition getBoardFromMoves (moves : list MoveView) : board :=
  fold_left
    (fun (board : board) (move : MoveView) =>
       if (0 <=? position move) && (position move <? 9)
       then <[Z.to_nat (position move) := Some (player_of move)]> board
       else board)
    moves emptyBoard.

(** The cell differs from the empty string: true for a mark and for
    [undefined]. *)
Definition occupied (b : board) (i : nat) : bool :=
  match b !! i with
  | Some None => false
  | _ => true
  end.

Definition applyMove (b : board) (pos : Z) (p : player) : option board :=
  if (pos <? 0) || (pos >? 8) then None
  else if occupied b (Z.to_nat pos) then None
  else Some (<[Z.to_nat pos := Some p]> b).

(** The test of one line:
    [board[a] && board[a] === board[b] && board[a] === board[c]]. *)
Definition lineOwner (b : board) (line : list nat) : option player :=
  match line with
  | a :: b' :: c :: _ =>
      match b !! a with
      | Some (Some p) =>
          if bool_decide (b !! b' = Some (Some p))
             && bool_decide (b !! c = Some (Some p))
          then Some p else None
      | _ => None
      end
  | _ => None
  end.

(** The loop [for (const line of this.winningLines)] of [checkWinner]. *)
Fixpoint checkWinnerIn (lines : list (list nat)) (b : board) : option player :=
  match lines with
  | [] => None
  | line :: rest =>
      match lineOwner b line with
      | Some p => Some p
      | None => checkWinnerIn rest b
      end
  end.

Definition checkWinner (b : board) : option player :=
  checkWinnerIn winningLines b.

Fixpoint getWinningLineIn (lines : list (list nat)) (b : board)
  : option (list nat) :=
  match lines with
  | [] => None
  | line :: rest =>
      match lineOwner b line with
      | Some _ => Some line
      | None => getWinningLineIn rest b
      end
  end.

Definition getWinningLine (b : board) : option (list nat) :=
  getWinningLineIn winningLines b.

Definition isDraw (b : board) : bool :=
  forallb (fun c : cell => bool_decide (c <> None)) b
  && negb (bool_decide (is_Some (checkWinner b))).

Definition getAvailableMoves (b : board) : list Z :=
  List.filter (fun index => negb (index =? -1))
    (imap (fun index (c : cell) =>
             match c with None => Z.of_nat index | Some _ => -1 end) b).

(** [m.expiredOnMove == null || m.expiredOnMove > currentMoveNumber] *)
Definition isActive (currentMoveNumber : Z) (m : MoveView) : bool :=
  match expiredOnMove m with
  | None => true
  | Some e => e >? currentMoveNumber
  end.

Definition getActiveBoardFromMoves (moves : list MoveView)
    (currentMoveNumber : Z) : board :=
  let activeMoves := List.filter (isActive currentMoveNumber) moves in
  getBoardFromMoves activeMoves.

Record AgingCell := mkAgingCell {
  ac_position : Z;
  ac_player : player;
  ac_age : Z;
  ac_expiresIn : Z
}.

Definition getAgingState (moves : list MoveView) (currentMoveNumber maxAge : Z)
  : list AgingCell :=
  let active := List.filter (isActive currentMoveNumber) moves in
  map (fun m =>
         let age := Z.max 1 (currentMoveNumber - moveNumber m + 1) in
         let expiresOnMove := moveNumber m + maxAge in
         let expiresIn := Z.max 0 (expiresOnMove - currentMoveNumber) in
         mkAgingCell (position m) (player_of m) age expiresIn)
      active.

(** *** The specification's vocabulary *)

(** Every cell of the line holds the symbol [p]: the three cells are
    non-empty and identical. *)
Definition lineFilledBy (b : board) (line : list nat) (p : player) : Prop :=
  forall i, In i line -> b !! i = Some (Some p).

Definition fullBoard (b : board) : Prop :=
  forall i c, b !! i = Some c -> c <> None.

(** A move the specification calls expired at [currentMoveNumber]: its
    [expiredOnMove] is set and at most [currentMoveNumber]. *)
Definition expiredBy (currentMoveNumber : Z) (m : MoveView) : bool :=
  match expiredOnMove m with
  | Some e => e <=? currentMoveNumber
  | None => false
  end.

(** The mark the replay leaves in cell [i]: the symbol of the last move of the
    list played at [i], or the empty string when there is none. *)
Definition lastMarkAt (moves : list MoveView) (i : nat) : cell :=
  match find (fun m => position m =? Z.of_nat i) (rev moves) with
  | Some m => Some (player_of m)
  | None => None
  end.

(** Boards and move lists used as concrete inputs. *)
Definition boardTwoLines : board :=
  [ Some X; Some X; Some X
  ; Some O; Some O; Some O
  ; None;   None;   None ].

Definition boardColumn : board :=
  [ Some O; Some X; Some X
  ; Some O; Some X; None
  ; Some O; None;   None ].

Definition boardDrawn : board :=
  [ Some X; Some O; Some X
  ; Some X; Some O; Some O
  ; Some O; Some X; Some X ].

Definition agingMoves : list MoveView :=
  [ mkMoveView 1 0 X (Some 3); mkMoveView 2 4 O None ].

End GameEngine.

(** ** services/aiService.ts *)
Module AIService.
Import GameEngine.

Inductive difficulty := easy | medium | hard.

#[global] Instance difficulty_eq_dec : EqDecision difficulty.
Proof. solve_decision. Defined.

Definition difficultyDepths (d : difficulty) : nat :=
  match d with
  | easy => 1
  | medium => 3
  | hard => 5
  end.

(** Scores are [-Infinity], a finite number or [Infinity]. *)
Inductive score := NegInfinity | Fin (z : Z) | Infinity.

#[global] Instance score_eq_dec : EqDecision score.
Proof. solve_decision. Defined.

Definition score_ltb (a b : score) : bool :=
  match a, b with
  | NegInfinity, NegInfinity => false
  | NegInfinity, _ => true
  | Fin x, Fin y => x <? y
  | Fin _, Infinity => true
  | _, _ => false
  end.

Definition score_gtb (a b : score) : bool := score_ltb b a.

Record scored := mkScored { score_of : score; index : Z }.

(** [newBoard[move] = isMaximizing ? "O" : "X"] on a copy of the board. *)
Definition place (b : board) (move : Z) (p : player) : board :=
  <[Z.to_nat move := Some p]> b.

(** One round of the loop over [availableMoves], given the score found for
    the move. *)
Definition consider (isMaximizing : bool) (best : scored) (move : Z)
    (s : score) : scored :=
  if isMaximizing && score_gtb s (score_of best) then mkScored s move
  else if negb isMaximizing && score_ltb s (score_of best) then mkScored s move
  else best.

Fixpoint minimax (depth : nat) (b : board) (isMaximizing : bool) : scored :=
  match checkWinner b with
  | Some O => mkScored (Fin 10) (-1)
  | Some X => mkScored (Fin (-10)) (-1)
  | None =>
      if isDraw b then mkScored (Fin 0) (-1)
      else
        match depth with
        | 0%nat => mkScored (Fin 0) (-1)
        | S depth' =>
            let availableMoves := getAvailableMoves b in
            fold_left
              (fun best move =>
                 let newBoard := place b move (if isMaximizing then O else X) in
                 consider isMaximizing best move
                   (score_of (minimax depth' newBoard (negb isMaximizing))))
              availableMoves
              (mkScored (if isMaximizing then NegInfinity else Infinity) (-1))
        end
  end.

Definition getBestMove (b : board) (d : difficulty) : Z :=
  let depth := difficultyDepths d in
  let bestMove := minimax depth b true in
  index bestMove.

(** *** The specification's vocabulary *)

(** Playing [c] wins at once for [O]: the cell is free and with [O] placed
    there some line is filled by [O]. *)
Definition winsAtOnce (b : board) (c : Z) : Prop :=
  In c (getAvailableMoves b) /\
  exists line, In line winningLines /\ lineFilledBy (place b c O) line O.

(** The loop of [minimax] over the available moves, for an arbitrary
    scoring [f] of the moves. *)
Definition loop (f : Z -> score) (isMaximizing : bool) (moves : list Z)
    (best : scored) : scored :=
  fold_left (fun best move => consider isMaximizing best move (f move))
    moves best.

(** The scores the search hands out: a win for either side or a draw. *)
Definition terminalScore (s : score) : Prop :=
  s = Fin (-10) \/ s = Fin 0 \/ s = Fin 10.

(** [X] holds two cells of a line whose third cell [c] is empty. *)
Definition blocksX (b : board) (c : Z) : Prop :=
  In c (getAvailableMoves b) /\
  exists line,
    In line winningLines /\ In (Z.to_nat c) line /\
    (forall i, In i line -> i <> Z.to_nat c -> b !! i = Some (Some X)).

(** [O] threatens cell 8 and can also fork through cell 0. *)
Definition boardFork : board :=
  [ None;   Some X; Some X
  ; None;   Some X; None
  ; Some O; Some O; None ].

(** [X] has already completed the top row. *)
Definition boardDecided : board :=
  [ Some X; Some X; Some X
  ; Some O; Some O; None
  ; None;   None;   None ].

(** [O] wins at 0 and at 8; 8 also blocks [X] on the right column. *)
Definition boardTwoWins : board :=
  [ None;   None;   Some X
  ; Some O; Some X; Some X
  ; Some O; Some O; None ].

(** Cell 2 is the only cell that wins for [O], and it blocks the top row. *)
Definition boardBlock : board :=
  [ Some X; Some X; None
  ; None;   Some X; Some O
  ; None;   None;   Some O ].

(** **** Hints: [getSuggestions] and [classifyMove] *)

Record MoveScore := mkMoveScore { ms_move : Z; ms_score : score }.

(** One insertion of a stable sort by [(a, b) => b.score - a.score]: the
    new entry goes before the first entry of strictly lower score. *)
Fixpoint insertByScore (x : MoveScore) (sorted : list MoveScore)
  : list MoveScore :=
  match sorted with
  | [] => [x]
  | y :: rest =>
      if score_ltb (ms_score y) (ms_score x) then x :: sorted
      else y :: insertByScore x rest
  end.

(** [moveScores.sort((a, b) => b.score - a.score)]; the sort is stable. *)
Definition sortByScore (l : list MoveScore) : list MoveScore :=
  fold_left (fun sorted x => insertByScore x sorted) l [].

(** [a - b >= k] on scores; a difference that is [NaN] or [-Infinity] is not
    at least [k]. *)
Definition differenceAtLeast (a b : score) (k : Z) : bool :=
  match a, b with
  | Fin x, Fin y => x - y >=? k
  | Infinity, Infinity => false
  | Infinity, _ => true
  | Fin _, NegInfinity => true
  | _, _ => false
  end.

Definition classifyMove (b : board) (position : Z) : string * string :=
  let boardAfterMove := place b position O in
  if bool_decide (checkWinner boardAfterMove = Some O) then
    ("Winning Move",
     "This move will give you the victory! Take it immediately.")
  else
    let boardAfterHumanMove := place b position X in
    if bool_decide (checkWinner boardAfterHumanMove = Some X) then
      ("Defensive Block",
       "Opponent can win on next turn if you don't take this cell. Block them now.")
    else if position =? 4 then
      ("Center Control",
       "The center is the most strategically powerful position. It opens multiple winning paths.")
    else if bool_decide (position ∈ [0; 2; 6; 8]) then
      ("Corner Strategy",
       "Corner positions are strong. This move gives you presence in key strategic areas.")
    else
      ("Positional Play",
       "This move builds board presence and prepares for future winning combinations.").

Record Suggestion := mkSuggestion {
  sg_position : Z;
  sg_confidence : Z;
  sg_strategy : string;
  sg_moveType : string
}.

(** The scores [getSuggestions] gives the available moves, before sorting. *)
Definition moveScoresOf (b : board) : list MoveScore :=
  map (fun move => mkMoveScore move (score_of (minimax 4 (place b move O) false)))
    (getAvailableMoves b).

(** [None] stands for the error "No available moves" thrown. *)
Definition getSuggestions (b : board) : option Suggestion :=
  match sortByScore (moveScoresOf b) with
  | [] => None
  | bestMove :: others =>
      let secondBestScore :=
        match others with
        | second :: _ => ms_score second
        | [] => ms_score bestMove
        end in
      let '(moveType, strategy) := classifyMove b (ms_move bestMove) in
      let confidence :=
        if bool_decide (ms_score bestMove = Fin 10) then 100
        else if bool_decide (ms_score bestMove = Fin (-10)) then 95
        else if differenceAtLeast (ms_score bestMove) secondBestScore 5 then 85
        else if differenceAtLeast (ms_score bestMove) secondBestScore 2 then 75
        else 65 in
      Some (mkSuggestion (ms_move bestMove)
              (Z.min 100 (Z.max 60 confidence)) strategy moveType)
  end.

(** Playing [c] wins at once for [X]: the cell is free and with [X] placed
    there some line is filled by [X]. *)
Definition threatens (b : board) (c : Z) : Prop :=
  In c (getAvailableMoves b) /\
  exists line, In line winningLines /\ lineFilledBy (place b c X) line X.

(** [X] threatens the top row at cell 2; [O] has no win at hand. *)
Definition boardThreat : board :=
  [ Some X; Some X; None
  ; None;   Some O; None
  ; None;   None;   None ].

End AIService.

(** ** JavaScript numbers that are not integers *)
Module Double.

(** An IEEE 754 binary64 number: 53 bits of precision, exponents up to
    1024. *)
Abbreviation float64 := spec_float.

(** The number an integer literal or an integer-valued expression denotes;
    exact below 2^53. *)
Definition ofZ (z : Z) : float64 := binary_normalize 53 1024 z 0 false.

Definition zero : float64 := S754_zero false.

(** [x - y], [x * y], [x / y], [x < y] and [x <= y]. *)
Definition fsub (x y : float64) : float64 := SFsub 53 1024 x y.
Definition fmul (x y : float64) : float64 := SFmul 53 1024 x y.
Definition fdiv (x y : float64) : float64 := SFdiv 53 1024 x y.
Definition fltb (x y : float64) : bool := SFltb x y.
Definition fleb (x y : float64) : bool := SFleb x y.

(** The rational a finite number is; 0 for the others. *)
Definition toQ (x : float64) : Q :=
  match x with
  | S754_finite s m e =>
      let v := if s then Zneg m else Zpos m in
      match e with
      | Zneg p => v # (2 ^ p)%positive
      | _ => inject_Z (v * 2 ^ e)
      end
  | _ => 0%Q
  end.

(** [Math.max(0, x)]: [NaN] for [NaN], [+0] for both zeros. *)
Definition Math_max0 (x : float64) : float64 :=
  match x with
  | S754_nan => S754_nan
  | _ => if fltb zero x then x else zero
  end.

End Double.

(** ** config/progression.ts *)
Module Progression.
Import Double.

Inductive RankKey := beginner | intermediate | advanced | master.

#[global] Instance RankKey_eq_dec : EqDecision RankKey.
Proof. solve_decision. Defined.

Record StageDef := mkStage {
  rank : RankKey;
  stage : Z;                 (* 1, 2 or 3 *)
  label : string;
  min : Z;                   (* inclusive *)
  max : option Z             (* exclusive; [None] means top cap *)
}.

Inductive Outcome := win | lose | draw.

#[global] Instance Outcome_eq_dec : EqDecision Outcome.
Proof. solve_decision. Defined.

Definition POINT_REWARDS (o : Outcome) : Z :=
  match o with
  | win => 25
  | lose => 10
  | draw => 10
  end.

Definition STAGES : list StageDef :=
  [ mkStage beginner 1 "Beginner 1" 0 (Some 100)
  ; mkStage beginner 2 "Beginner 2" 100 (Some 300)
  ; mkStage beginner 3 "Beginner 3" 300 (Some 600)
  ; mkStage intermediate 1 "Intermediate 1" 600 (Some 1000)
  ; mkStage intermediate 2 "Intermediate 2" 1000 (Some 1500)
  ; mkStage intermediate 3 "Intermediate 3" 1500 (Some 2500)
  ; mkStage advanced 1 "Advanced 1" 2500 (Some 4000)
  ; mkStage advanced 2 "Advanced 2" 4000 (Some 6000)
  ; mkStage advanced 3 "Advanced 3" 6000 (Some 9000)
  ; mkStage master 1 "Master 1" 9000 (Some 13000)
  ; mkStage master 2 "Master 2" 13000 (Some 18000)
  ; mkStage master 3 "Master 3" 18000 None ].

(** [points >= s.min && (s.max == null || points < s.max)] *)
Definition stageHolds (points : Z) (s : StageDef) : bool :=
  (min s <=? points)
  && match max s with
     | None => true
     | Some m => points <? m
     end.

(** [STAGES[STAGES.length - 1]]; the table is not empty. *)
Definition lastStage : StageDef :=
  List.last STAGES (mkStage beginner 1 "Beginner 1" 0 (Some 100)).

Definition findStageForPoints (points : Z) : StageDef :=
  match find (stageHolds points) STAGES with
  | Some stage => stage
  | None => lastStage
  end.

(** [Array.prototype.findIndex], with [None] for -1. *)
Fixpoint findIndex {A} (f : A -> bool) (l : list A) : option nat :=
  match l with
  | [] => None
  | x :: l' => if f x then Some 0%nat else S <$> findIndex f l'
  end.

Definition getNextStage (current : option StageDef) : option StageDef :=
  match current with
  | None => STAGES !! 0%nat
  | Some cur =>
      match findIndex (fun s => bool_decide (rank s = rank cur)
                                && (stage s =? stage cur)) STAGES with
      | None => STAGES !! 0%nat
      | Some idx => STAGES !! (idx + 1)%nat
      end
  end.

(** [Math.round] of a rational: the nearest integer, ties towards plus
    infinity. *)
Definition Math_round (x : Q) : Z := Qfloor (x + (1 # 2))%Q.

(** [Math.max(0, Math.min(100, Math.round(x)))] of a binary64 number.  The
    rounding of a finite number is exact, [Infinity] is capped at 100 and
    [-Infinity] raised to 0.  For [NaN], which the source passes through,
    the result here is 0; it arises only for a stage whose cap equals its
    minimum, which the table does not have. *)
Definition clampPercent (x : float64) : Z :=
  match x with
  | S754_nan => 0
  | S754_infinity s => if s then 0 else 100
  | _ => Z.max 0 (Z.min 100 (Math_round (toQ x)))
  end.

(** The quotient and the product are binary64 operations, each rounded to
    the nearest number. *)
Definition getProgressPercent (points : Z) (current : StageDef) : Z :=
  match max current with
  | None => 100
  | Some mx =>
      let span := mx - min current in
      let progressed := Z.max 0 (points - min current) in
      clampPercent (fmul (fdiv (ofZ progressed) (ofZ span)) (ofZ 100))
  end.

(** *** The specification's vocabulary *)

(** [round(100 * (points - min) / (max - min))], clamped to [0, 100], in
    exact arithmetic. *)
Definition percentOfSpan (points mn mx : Z) : Z :=
  Z.max 0 (Z.min 100
             (Math_round (100 * inject_Z (points - mn) / inject_Z (mx - mn))%Q)).

(** The exact percentage is 14.5, 28.5, 56.5 or 57.5: the four halves at
    which the binary64 product falls just below the half. *)
Definition halfBelow (points mn mx : Z) : bool :=
  existsb (fun k => 200 * (points - mn) =? k * (mx - mn)) [29; 57; 113; 115].

(** The widths of the capped stages of the table. *)
Definition spans : list Z :=
  omap (fun s => (fun mx => mx - min s) <$> max s) STAGES.

(** What holds of the percentage along a stage of width [span]: at every
    number of points into the stage it is the exact percentage, less one at
    the four halves. *)
Definition percentAlong (span : Z) : bool :=
  forallb
    (fun n : nat =>
       let progressed := Z.of_nat n in
       clampPercent (fmul (fdiv (ofZ progressed) (ofZ span)) (ofZ 100))
       =? percentOfSpan progressed 0 span
          - (if halfBelow progressed 0 span then 1 else 0))
    (seq 0 (S (Z.to_nat span))).

Definition master3 : StageDef := mkStage master 3 "Master 3" 18000 None.
Definition beginner1 : StageDef := mkStage beginner 1 "Beginner 1" 0 (Some 100).
Definition beginner2 : StageDef := mkStage beginner 2 "Beginner 2" 100 (Some 300).

End Progression.

(** ** models/User.ts *)
Module UserModel.
Import Progression.

Record IUserStats := mkStats {
  gamesPlayed : Z;
  totalWins : Z;
  totalLoses : Z;
  totalDraws : Z;
  currentWinStreak : Z;
  currentLossStreak : Z;
  longestWinStreak : Z;
  expertAiWins : Z;
  fastestWin : option Z;
  perfectWins : Z
}.

(** The denormalised skill snapshot; the schema requires none of its paths. *)
Record Skill := mkSkill {
  sk_rank : option RankKey;
  sk_stage : option Z;
  sk_label : option string
}.

Record IUser := mkUser {
  email : string;
  skillPoints : option Z;
  currentSkill : option Skill;
  currentSkillAchievedAt : option Z;
  lastSeenLevelUpAt : option Z;
  nextSkill : option Skill;
  pointsToNextLevel : Z;
  stats : IUserStats
}.

(** A document as the schema defaults leave it. *)
Definition newUser (mail : string) : IUser :=
  mkUser mail (Some 0) None None None None 0
    (mkStats 0 0 0 0 0 0 0 0 None 0).

(** The [users] collection, by id. *)
Abbreviation Users := (gmap string IUser).

End UserModel.

(** ** services/progressionService.ts *)
Module ProgressionService.
Import Progression UserModel.

Record Snapshot := mkSnapshot {
  current : StageDef;
  next : option StageDef;
  progressPercent : Z;
  pointsToNextLevel : Z
}.

Definition getProgressForPoints (points : Z) : Snapshot :=
  let current := findStageForPoints points in
  let next := getNextStage (Some current) in
  let progressPercent := getProgressPercent points current in
  let pointsToNextLevel :=
    match max current with
    | None => 0
    | Some mx => Z.max 0 (mx - points)
    end in
  mkSnapshot current next progressPercent pointsToNextLevel.

(** The object [applyGameResult] resolves to; the fields after [leveledUp]
    are absent when the user was not found. *)
Record GameResult := mkGameResult {
  updated : bool;
  leveledUp : bool;
  reward : option Z;
  snapshot : option Snapshot;
  newSkillPoints : option Z;
  previousSkill : option string
}.

Definition skillOf (s : StageDef) : Skill :=
  mkSkill (Some (rank s)) (Some (stage s)) (Some (label s)).

Definition applyGameResult (users : Users) (userId : string)
    (outcome : Outcome) (now : Z) : Users * GameResult :=
  let reward := POINT_REWARDS outcome in
  match users !! userId with
  | None => (users, mkGameResult false false None None None None)
  | Some user =>
      let prevPoints := default 0 (skillPoints user) in
      let newPoints := prevPoints + reward in
      let prevLabel := currentSkill user ≫= sk_label in
      let snap := getProgressForPoints newPoints in
      let leveledUp := bool_decide (prevLabel <> Some (label (current snap))) in
      let user' :=
        mkUser (email user) (Some newPoints)
          (Some (skillOf (current snap)))
          (if leveledUp then Some now else currentSkillAchievedAt user)
          (lastSeenLevelUpAt user)
          (skillOf <$> next snap)
          (pointsToNextLevel snap)
          (stats user) in
      (<[userId := user']> users,
       mkGameResult true leveledUp (Some reward) (Some snap) (Some newPoints)
         prevLabel)
  end.

End ProgressionService.

(** ** config/achievements.ts *)
Module Achievements.
Import UserModel.

Record AchievementDef := mkAchievement {
  id : string;
  title : string;
  description : string;
  icon : string;
  target : Z;
  progress : IUser -> Z;
  condition : IUser -> bool
}.

Definition ACHIEVEMENTS : list AchievementDef :=
  [ mkAchievement "FIRST_WIN" "First Victory" "Win your first game" "Trophy" 1
      (fun user => if totalWins (stats user) >? 0 then 1 else 0)
      (fun user => totalWins (stats user) >=? 1)
  ; mkAchievement "WIN_STREAK_5" "On Fire" "Win 5 games in a row" "Flame" 5
      (fun user => Z.min (currentWinStreak (stats user)) 5)
      (fun user => currentWinStreak (stats user) >=? 5)
  ; mkAchievement "GAMES_50" "Dedicated Player" "Complete 50 games" "Zap" 50
      (fun user => Z.min (gamesPlayed (stats user)) 50)
      (fun user => gamesPlayed (stats user) >=? 50)
  ; mkAchievement "HARD_AI_10" "AI Master" "Win 10 games against hard AI"
      "Cpu" 10
      (fun user => Z.min (expertAiWins (stats user)) 10)
      (fun user => expertAiWins (stats user) >=? 10)
  ; mkAchievement "WIN_STREAK_10" "Unstoppable" "Win 10 games in a row" "Zap" 10
      (fun user => Z.min (currentWinStreak (stats user)) 10)
      (fun user => currentWinStreak (stats user) >=? 10)
  ; mkAchievement "GAMES_100" "Legend" "Complete 100 games" "Star" 100
      (fun user => Z.min (gamesPlayed (stats user)) 100)
      (fun user => gamesPlayed (stats user) >=? 100) ].

End Achievements.

(** ** models/UserAchievement.ts and services/achievementService.ts *)
Module AchievementService.
Import UserModel Achievements.

Record IUserAchievement := mkUserAchievement {
  ua_userId : string;
  achievementId : string;
  unlockedAt : Z;
  seenByUser : bool;
  seenAt : option Z
}.

(** The [userachievements] collection, in insertion order. *)
Abbreviation UserAchievements := (list IUserAchievement).

(** The filter [{ userId, achievementId }]. *)
Definition matches (userId achId : string) (a : IUserAchievement) : bool :=
  bool_decide (ua_userId a = userId) && bool_decide (achievementId a = achId).

Definition findOne (store : UserAchievements) (userId achId : string)
  : option IUserAchievement :=
  find (matches userId achId) store.

Record Unlocked := mkUnlocked {
  un_achievementId : string;
  un_unlockedAt : Z
}.

(** The body of the loop over the catalogue: the collection and the list of
    new achievements before and after one definition. *)
Definition unlockStep (user : IUser) (userId : string) (now : Z)
    (st : UserAchievements * list Unlocked) (achievementDef : AchievementDef)
  : UserAchievements * list Unlocked :=
  let '(store, newAchievements) := st in
  match findOne store userId (id achievementDef) with
  | Some _ => st                                   (* already unlocked *)
  | None =>
      if condition achievementDef user then
        let userAchievement :=
          mkUserAchievement userId (id achievementDef) now false None in
        (store ++ [userAchievement],
         newAchievements
           ++ [mkUnlocked (id achievementDef) (unlockedAt userAchievement)])
      else st
  end.

Definition checkAndUnlockIn (catalogue : list AchievementDef)
    (users : Users) (store : UserAchievements) (userId : string) (now : Z)
  : UserAchievements * list Unlocked :=
  match users !! userId with
  | None => (store, [])
  | Some user => fold_left (unlockStep user userId now) catalogue (store, [])
  end.

Definition checkAndUnlockAchievements :=
  checkAndUnlockIn ACHIEVEMENTS.

(** *** The specification's vocabulary *)

(** The pair the unique index is on. *)
Definition keyOf (a : IUserAchievement) : string * string :=
  (ua_userId a, achievementId a).

(** The number of records of the pair [(userId, achId)]. *)
Definition recordsOf (store : UserAchievements) (userId achId : string) : nat :=
  length (List.filter (matches userId achId) store).

(** What one run adds to the collection: records of this user, for
    achievements that had no record, reported one for one in the list that is
    returned. *)
Definition addedBy (userId : string) (store store' : UserAchievements)
    (new : list Unlocked) : Prop :=
  exists created,
    store' = store ++ created
    /\ new = map (fun a => mkUnlocked (achievementId a) (unlockedAt a)) created
    /\ (forall a, In a created ->
          ua_userId a = userId /\ findOne store userId (achievementId a) = None).

(** How often the list returned names the achievement [achId]. *)
Definition reportsOf (new : list Unlocked) (achId : string) : nat :=
  length (List.filter (fun n => bool_decide (un_achievementId n = achId)) new).

Definition firstWin : AchievementDef :=
  mkAchievement "FIRST_WIN" "First Victory" "Win your first game" "Trophy" 1
    (fun user => if totalWins (stats user) >? 0 then 1 else 0)
    (fun user => totalWins (stats user) >=? 1).

Definition winner1 : IUser :=
  mkUser "ann@example.org" (Some 25) None None None None 0
    (mkStats 1 1 0 0 1 0 1 0 None 0).

(** **** [getUserAchievements] and [markAchievementAsSeen] *)

(** One entry of the list [getUserAchievements] returns. *)
Record AchievementView := mkAchievementView {
  av_id : string;
  av_title : string;
  av_description : string;
  av_icon : string;
  av_target : Z;
  av_progress : Z;
  isUnlocked : bool;
  av_unlockedAt : option Z;
  av_seenByUser : bool;
  av_seenAt : option Z
}.

(** [UserAchievement.find({ userId })] *)
Definition findByUser (store : UserAchievements) (userId : string)
  : UserAchievements :=
  List.filter (fun a => bool_decide (ua_userId a = userId)) store.

(** [new Map(completedAchievements.map((a) => [a.achievementId, a]))]: a
    later record of an achievement replaces an earlier one. *)
Definition completedMap (completedAchievements : UserAchievements)
  : gmap string IUserAchievement :=
  fold_left (fun m a => <[achievementId a := a]> m) completedAchievements ∅.

(** The user document is passed with its id.  A [Date] is truthy, so
    [completed?.unlockedAt || null] is the date of the record when there is
    one. *)
Definition getUserAchievements (store : UserAchievements) (userId : string)
    (user : IUser) : list AchievementView :=
  let completedAchievements := findByUser store userId in
  let completedMap := completedMap completedAchievements in
  map (fun achievementDef =>
         let completed := completedMap !! id achievementDef in
         mkAchievementView (id achievementDef) (title achievementDef)
           (description achievementDef) (icon achievementDef)
           (target achievementDef) (progress achievementDef user)
           (bool_decide (is_Some completed))
           (unlockedAt <$> completed)
           (from_option seenByUser false completed)
           (completed ≫= seenAt))
    ACHIEVEMENTS.

(** [findOneAndUpdate(filter, update, { new: true })]: the first document
    the filter matches is updated and returned as updated; [None] is [null]. *)
Fixpoint findOneAndUpdate (filter : IUserAchievement -> bool)
    (update : IUserAchievement -> IUserAchievement) (store : UserAchievements)
  : UserAchievements * option IUserAchievement :=
  match store with
  | [] => ([], None)
  | a :: rest =>
      if filter a then (update a :: rest, Some (update a))
      else
        let '(rest', found) := findOneAndUpdate filter update rest in
        (a :: rest', found)
  end.

Definition markAchievementAsSeen (store : UserAchievements)
    (userId achId : string) (now : Z)
  : UserAchievements * option IUserAchievement :=
  findOneAndUpdate (matches userId achId)
    (fun a => mkUserAchievement (ua_userId a) (achievementId a)
                (unlockedAt a) true (Some now))
    store.

(** The entry of [getUserAchievements] for the achievement [achId]. *)
Definition viewOf (views : list AchievementView) (achId : string)
  : option AchievementView :=
  find (fun v => bool_decide (av_id v = achId)) views.

End AchievementService.

(** ** models/RecommendationCache.ts and services/recommendationService.ts *)
Module RecommendationService.

Inductive CacheStatus := processing | completed | failed.

#[global] Instance CacheStatus_eq_dec : EqDecision CacheStatus.
Proof. solve_decision. Defined.

Record IRecommendation := mkRecommendation {
  rec_id : string;
  rec_title : string;
  rec_description : string;
  rec_priority : string;
  rec_icon : string;
  rec_category : string;
  rec_actionType : string;
  rec_actionLabel : string;
  rec_actionDifficulty : option string
}.

Record IRecommendationCache := mkCache {
  recommendations : list IRecommendation;
  status : CacheStatus;
  errorMessage : option string;
  expiresAt : Z
}.

(** What the service asks of its surroundings, in the order it asks. *)
Inductive Effect :=
| Sleep (ms : Z)                       (* [setTimeout(resolve, ms)] awaited *)
| FindCache                            (* [RecommendationCache.findOne] *)
| UpsertProcessing (expires : Z)       (* upsert to [processing] *)
| FindGames                            (* the last 10 completed games *)
| CallGemini                           (* enrich and ask for recommendations *)
| UpdateCache (recs : list IRecommendation) (st : CacheStatus) (expires : Z)
| MarkFailed (msg : string).

(** What the surroundings answer.  Other requests write the cache row while
    this one waits, so each poll has an answer of its own. *)
Record Surroundings := mkSurroundings {
  existingCache : option IRecommendationCache; (* the row at the first lookup *)
  now : Z;                                     (* [new Date()] at that time *)
  polled : nat -> option IRecommendationCache; (* the row at poll 0, 1, ... *)
  clock : nat -> Z;                            (* [new Date()] at that poll *)
  later : Z;                                   (* [Date.now()] once generating *)
  games : nat;                                 (* completed games found *)
  gemini : string + list IRecommendation       (* [inl]: the call throws *)
}.

(** A run of a loop under a bound on its rounds. *)
Inductive run (A : Type) := Done (a : A) | OutOfFuel.
Arguments Done {A} a.
Arguments OutOfFuel {A}.

Definition maxWaitTime : Z := 30000.
Definition pollInterval : Z := 1000.
Definition day : Z := 24 * 60 * 60 * 1000.

(** [cache.status === "completed" && cache.expiresAt > new Date()] *)
Definition fresh (cache : IRecommendationCache) (date : Z) : bool :=
  bool_decide (status cache = completed) && (expiresAt cache >? date).

(** The [while (elapsed < maxWaitTime)] loop; [k] counts the polls made. *)
Fixpoint waitLoop (w : Surroundings) (fuel : nat) (elapsed : Z) (k : nat)
  : run (option (list IRecommendation)) * list Effect :=
  if elapsed <? maxWaitTime then
    match fuel with
    | 0%nat => (OutOfFuel, [])
    | S fuel' =>
        let elapsed' := elapsed + pollInterval in
        match polled w k with
        | None => (Done None, [Sleep pollInterval; FindCache])
        | Some cache =>
            if fresh cache (clock w k) then
              (Done (Some (recommendations cache)),
               [Sleep pollInterval; FindCache])
            else if bool_decide (status cache = failed) then
              (Done None, [Sleep pollInterval; FindCache])
            else
              let '(r, effects) := waitLoop w fuel' elapsed' (S k) in
              (r, Sleep pollInterval :: FindCache :: effects)
        end
    end
  else (Done None, []).

Definition waitForProcessing (w : Surroundings)
  : run (option (list IRecommendation)) * list Effect :=
  waitLoop w 31 0 0.

Definition getDefaultRecommendations (date : Z) : list IRecommendation :=
  [ mkRecommendation ("rec-" +:+ pretty date +:+ "-1")
      "Start Your Journey!"
      "Play your first game to unlock personalized AI recommendations."
      "high" "trending-up" "difficulty" "play-game" "Play Now"
      (Some "medium") ].

(** From "Start new recommendation generation" to the end of the function,
    the [catch] included. *)
Definition generate (w : Surroundings) : list IRecommendation * list Effect :=
  let upsert := UpsertProcessing (later w + day) in
  match games w with
  | 0%nat =>
      let defaultRecs := getDefaultRecommendations (later w) in
      (defaultRecs,
       [upsert; FindGames; UpdateCache defaultRecs completed (later w + day)])
  | S _ =>
      match gemini w with
      | inr recs =>
          (recs,
           [upsert; FindGames; CallGemini;
            UpdateCache recs completed (later w + day)])
      | inl msg =>
          (getDefaultRecommendations (later w),
           [upsert; FindGames; CallGemini; MarkFailed msg])
      end
  end.

Definition generateRecommendations (w : Surroundings)
  : run (list IRecommendation) * list Effect :=
  let regenerate (before : list Effect) :=
    let '(recs, effects) := generate w in (Done recs, before ++ effects) in
  match existingCache w with
  | Some cache =>
      if fresh cache (now w) then (Done (recommendations cache), [FindCache])
      else if bool_decide (status cache = processing) then
        match waitForProcessing w with
        | (Done (Some result), effects) => (Done result, FindCache :: effects)
        | (Done None, effects) => regenerate (FindCache :: effects)
        | (OutOfFuel, effects) => (OutOfFuel, FindCache :: effects)
        end
      else regenerate [FindCache]
  | None => regenerate [FindCache]
  end.

(** *** The specification's vocabulary *)

(** [k] polls, one second apart. *)
Fixpoint polls (k : nat) : list Effect :=
  match k with
  | 0%nat => []
  | S k' => Sleep 1000 :: FindCache :: polls k'
  end.

(** The sleeping time of a trace, in milliseconds. *)
Fixpoint slept (effects : list Effect) : Z :=
  match effects with
  | [] => 0
  | Sleep ms :: rest => ms + slept rest
  | _ :: rest => slept rest
  end.

(** The request starts a generation of its own. *)
Definition regenerates (effects : list Effect) : Prop :=
  exists expires, In (UpsertProcessing expires) effects.

(** A row that keeps the poller waiting: present, neither completed and
    unexpired nor failed. *)
Definition keepsWaiting (w : Surroundings) (j : nat) : Prop :=
  exists cache, polled w j = Some cache
                /\ fresh cache (clock w j) = false
                /\ status cache <> failed.

Definition stalledRow : IRecommendationCache :=
  mkCache [] processing None 90000000.

(** Another request left the row in [processing] and never finishes; the user
    has no completed game. *)
Definition stalled : Surroundings :=
  mkSurroundings (Some stalledRow) 0 (fun _ => Some stalledRow)
    (fun k => 1000 * (Z.of_nat k + 1)) 30000 0 (inr []).

Definition doneRow : IRecommendationCache :=
  mkCache (getDefaultRecommendations 5) completed None 90000000.

(** The other request completes the row between the second and the third
    poll. *)
Definition finishing : Surroundings :=
  mkSurroundings (Some stalledRow) 0
    (fun k => if (k <? 2)%nat then Some stalledRow else Some doneRow)
    (fun k => 1000 * (Z.of_nat k + 1)) 30000 0 (inr []).

End RecommendationService.

(** ** models/Game.ts and models/Move.ts *)
Module GameModel.
Import GameEngine.

Inductive Vs := AI | Human.
Inductive Status := in_progress | completed | abandoned | paused.

#[global] Instance Vs_eq_dec : EqDecision Vs.
Proof. solve_decision. Defined.
#[global] Instance Status_eq_dec : EqDecision Status.
Proof. solve_decision. Defined.

(** Remaining clock time is kept in seconds, fractions included. *)
Record IGame := mkGame {
  user : string;
  vs : Vs;
  difficulty : option AIService.difficulty;
  agingEnabled : bool;
  maxAge : option Z;
  status : Status;
  outcome : option Progression.Outcome;
  duration : Z;
  opponentId : option string;
  winningLine : option (list nat);
  timerEnabled : bool;
  turnDuration : Z;
  playerXTimeRemaining : Double.float64;
  playerOTimeRemaining : Double.float64;
  timerLastStartedAt : option Z;
  timeoutLoser : option player;
  createdAt : Z
}.

(** Assignments to the paths of a game document. *)
Definition set_status (v : Status) (g : IGame) : IGame :=
  mkGame (user g) (vs g) (difficulty g) (agingEnabled g) (maxAge g) v
    (outcome g) (duration g) (opponentId g) (winningLine g) (timerEnabled g)
    (turnDuration g) (playerXTimeRemaining g) (playerOTimeRemaining g)
    (timerLastStartedAt g) (timeoutLoser g) (createdAt g).

Definition set_outcome (v : option Progression.Outcome) (g : IGame) : IGame :=
  mkGame (user g) (vs g) (difficulty g) (agingEnabled g) (maxAge g) (status g)
    v (duration g) (opponentId g) (winningLine g) (timerEnabled g)
    (turnDuration g) (playerXTimeRemaining g) (playerOTimeRemaining g)
    (timerLastStartedAt g) (timeoutLoser g) (createdAt g).

Definition set_duration (v : Z) (g : IGame) : IGame :=
  mkGame (user g) (vs g) (difficulty g) (agingEnabled g) (maxAge g) (status g)
    (outcome g) v (opponentId g) (winningLine g) (timerEnabled g)
    (turnDuration g) (playerXTimeRemaining g) (playerOTimeRemaining g)
    (timerLastStartedAt g) (timeoutLoser g) (createdAt g).

Definition set_winningLine (v : option (list nat)) (g : IGame) : IGame :=
  mkGame (user g) (vs g) (difficulty g) (agingEnabled g) (maxAge g) (status g)
    (outcome g) (duration g) (opponentId g) v (timerEnabled g)
    (turnDuration g) (playerXTimeRemaining g) (playerOTimeRemaining g)
    (timerLastStartedAt g) (timeoutLoser g) (createdAt g).

Definition set_playerXTimeRemaining (v : Double.float64) (g : IGame) : IGame :=
  mkGame (user g) (vs g) (difficulty g) (agingEnabled g) (maxAge g) (status g)
    (outcome g) (duration g) (opponentId g) (winningLine g) (timerEnabled g)
    (turnDuration g) v (playerOTimeRemaining g)
    (timerLastStartedAt g) (timeoutLoser g) (createdAt g).

Definition set_playerOTimeRemaining (v : Double.float64) (g : IGame) : IGame :=
  mkGame (user g) (vs g) (difficulty g) (agingEnabled g) (maxAge g) (status g)
    (outcome g) (duration g) (opponentId g) (winningLine g) (timerEnabled g)
    (turnDuration g) (playerXTimeRemaining g) v
    (timerLastStartedAt g) (timeoutLoser g) (createdAt g).

Definition set_timerLastStartedAt (v : option Z) (g : IGame) : IGame :=
  mkGame (user g) (vs g) (difficulty g) (agingEnabled g) (maxAge g) (status g)
    (outcome g) (duration g) (opponentId g) (winningLine g) (timerEnabled g)
    (turnDuration g) (playerXTimeRemaining g) (playerOTimeRemaining g)
    v (timeoutLoser g) (createdAt g).

Definition set_timeoutLoser (v : option player) (g : IGame) : IGame :=
  mkGame (user g) (vs g) (difficulty g) (agingEnabled g) (maxAge g) (status g)
    (outcome g) (duration g) (opponentId g) (winningLine g) (timerEnabled g)
    (turnDuration g) (playerXTimeRemaining g) (playerOTimeRemaining g)
    (timerLastStartedAt g) v (createdAt g).

Record IMove := mkMove {
  _id : nat;
  gameId : string;
  m_moveNumber : Z;
  m_position : Z;
  isAiMove : bool;
  m_player : player;
  boardStateBeforeMove : board;
  boardStateAfterMove : board;
  expiresOnMove : option Z;
  m_expiredOnMove : option Z;
  expiredAt : option Z;
  expiredReason : option string
}.

(** [$set: { expiredOnMove, expiredAt, expiredReason: "aging" }] *)
Definition expire (moveNumber' now : Z) (m : IMove) : IMove :=
  mkMove (_id m) (gameId m) (m_moveNumber m) (m_position m) (isAiMove m) (m_player m)
    (boardStateBeforeMove m) (boardStateAfterMove m) (expiresOnMove m)
    (Some moveNumber') (Some now) (Some "aging").

(** [insert] of an insertion sort on [moveNumber], after equal numbers. *)
Fixpoint insertByNumber (m : IMove) (sorted : list IMove) : list IMove :=
  match sorted with
  | [] => [m]
  | m' :: rest =>
      if m_moveNumber m <? m_moveNumber m' then m :: sorted
      else m' :: insertByNumber m rest
  end.

(** [Move.find({ gameId }).sort({ moveNumber: 1 })] *)
Definition findMoves (collection : list IMove) (gid : string) : list IMove :=
  fold_left (fun sorted m => insertByNumber m sorted)
    (List.filter (fun m => bool_decide (gameId m = gid)) collection) [].

(** [Move.updateMany({ _id: { $in: ids } }, ...)] *)
Definition updateMany (collection : list IMove) (ids : list nat)
    (moveNumber' now : Z) : list IMove :=
  map (fun m => if bool_decide (_id m ∈ ids)
                then expire moveNumber' now m else m) collection.

End GameModel.

(** ** services/socketService.ts *)
Module SocketService.
Import Double GameEngine GameModel UserModel AchievementService.
Export Progression(Outcome, win, lose, draw).

Record GameEndPayload := mkPayload {
  pl_gameId : string;
  pl_result : option Outcome;
  pl_winningLine : option (list nat);
  pl_moves : Z;
  pl_duration : Z;
  pl_leveledUp : bool;
  pl_newSkill : option string;
  pl_skillPoints : Z;
  pl_previousSkill : option string;
  pl_newAchievements : list Unlocked
}.

(** What is emitted, to a room or to the calling socket. *)
Inductive Event :=
| EmitError (message : string)
| CellExpired (gid : string) (expired : list (Z * player))
| AgingState (gid : string) (cells : list AgingCell)
| GameUpdate (gid : string) (b : board) (currentPlayer : player)
    (result : option Outcome) (duration : Z)
| TimerUpdate (gid : string) (x o : float64) (activePlayer : option player)
| GameTimeout (gid : string) (winner loser : player)
| AiMove (gid : string) (pos : Z)
| GameEnd (room : string) (payload : GameEndPayload).

(** A pending [setTimeout] of [scheduleTimer]. *)
Record Timer := mkTimer { remainingMs : float64; activePlayer : player }.

(** The AI turn deferred by [setImmediate]: the closure holds the game
    document of the handler, the assignments to it not yet saved, the board
    after the player's move and the move number.  Other handlers may run
    before the turn starts and while it waits out its delay, so the document
    held can be older than the stored one. *)
Record AiTask := mkAiTask {
  ai_gameId : string;
  ai_game : IGame;
  ai_unsaved : IGame -> IGame;
  ai_playerBoard : board;
  ai_moveNumber : Z;
  ai_thinking : bool           (* the delay has been drawn and charged *)
}.

Record World := mkWorld {
  games : gmap string IGame;
  moves : list IMove;
  users : Users;
  achievements : UserAchievements;
  gameTimers : gmap string Timer;
  aiTasks : list AiTask
}.

Definition with_games (gs : gmap string IGame) (w : World) : World :=
  mkWorld gs (moves w) (users w) (achievements w) (gameTimers w) (aiTasks w).
Definition with_moves (ms : list IMove) (w : World) : World :=
  mkWorld (games w) ms (users w) (achievements w) (gameTimers w) (aiTasks w).
Definition with_timers (ts : gmap string Timer) (w : World) : World :=
  mkWorld (games w) (moves w) (users w) (achievements w) ts (aiTasks w).
Definition with_tasks (ts : list AiTask) (w : World) : World :=
  mkWorld (games w) (moves w) (users w) (achievements w) (gameTimers w) ts.
Definition with_users (us : Users) (as' : UserAchievements) (w : World)
  : World :=
  mkWorld (games w) (moves w) us as' (gameTimers w) (aiTasks w).

(** [game.save()] writes the paths assigned since the document was loaded
    (or last saved) and leaves the other paths of the stored document as
    they are. *)
Definition save (gid : string) (assigned : IGame -> IGame) (w : World) : World :=
  with_games (alter assigned gid (games w)) w.

Definition clearGameTimer (gid : string) (w : World) : World :=
  with_timers (delete gid (gameTimers w)) w.

Definition scheduleTimer (gid : string) (ms : float64) (p : player) (w : World)
  : World :=
  with_timers (<[gid := mkTimer ms p]> (gameTimers (clearGameTimer gid w))) w.

Definition updateUserStats (us : Users) (userId : string) (o : Outcome)
    (difficulty : option AIService.difficulty) : Users * option IUser :=
  match us !! userId with
  | None => (us, None)
  | Some u =>
      let s := stats u in
      let played := gamesPlayed s + 1 in
      let s' :=
        match o with
        | win =>
            let streak := currentWinStreak s + 1 in
            mkStats played (totalWins s + 1) (totalLoses s) (totalDraws s)
              streak 0
              (if streak >? longestWinStreak s then streak
               else longestWinStreak s)
              (if bool_decide (difficulty = Some AIService.hard)
               then expertAiWins s + 1 else expertAiWins s)
              (fastestWin s) (perfectWins s)
        | lose =>
            mkStats played (totalWins s) (totalLoses s + 1) (totalDraws s)
              0 (currentLossStreak s + 1) (longestWinStreak s)
              (expertAiWins s) (fastestWin s) (perfectWins s)
        | draw =>
            mkStats played (totalWins s) (totalLoses s) (totalDraws s + 1)
              0 0 (longestWinStreak s)
              (expertAiWins s) (fastestWin s) (perfectWins s)
        end in
      let u' := mkUser (email u) (skillPoints u) (currentSkill u)
                  (currentSkillAchievedAt u) (lastSeenLevelUpAt u)
                  (nextSkill u) (UserModel.pointsToNextLevel u) s' in
      (<[userId := u']> us, Some u')
  end.

(** The stats, achievement and progression updates of a completed game and
    the [game-end] payload they feed, shared by the three completion paths. *)
Definition rollup (w : World) (gid : string) (game : IGame)
    (line : option (list nat)) (moveCount now : Z) : World * GameEndPayload :=
  match outcome game with
  | None =>
      (w, mkPayload gid None line moveCount (duration game) false None 0 None [])
  | Some o =>
      let '(us1, updatedUser) :=
        updateUserStats (users w) (user game) o (difficulty game) in
      let '(store1, newAchievements) :=
        match updatedUser with
        | Some _ =>
            checkAndUnlockAchievements us1 (achievements w) (user game) now
        | None => (achievements w, [])
        end in
      let '(us2, progressResult) :=
        ProgressionService.applyGameResult us1 (user game) o now in
      (with_users us2 store1 w,
       mkPayload gid (Some o) line moveCount (duration game)
         (ProgressionService.leveledUp progressResult)
         (Progression.label
            <$> (ProgressionService.current
                   <$> ProgressionService.snapshot progressResult))
         (default 0 (ProgressionService.newSkillPoints progressResult))
         (ProgressionService.previousSkill progressResult)
         newAchievements)
  end.

Definition gameEndEvents (gid : string) (game : IGame)
    (payload : GameEndPayload) : list Event :=
  [GameEnd gid payload; GameEnd ("user_" +:+ user game) payload].

(** [Math.floor((Date.now() - game.createdAt.getTime()) / 1000)], kept when
    it exceeds the stored duration. *)
Definition rollDuration (now : Z) (game : IGame) : IGame -> IGame :=
  let elapsedSeconds := (now - createdAt game) / 1000 in
  if elapsedSeconds >? duration game then set_duration elapsedSeconds
  else fun g => g.

(** The assignments of [handleTimeout] to the game it has loaded. *)
Definition forfeit (timedOutPlayer : player) (now : Z) (game : IGame)
  : IGame -> IGame :=
  fun g =>
    rollDuration now game
      (set_timerLastStartedAt None
         ((match timedOutPlayer with
           | X => set_playerXTimeRemaining zero
           | O => set_playerOTimeRemaining zero
           end)
            (set_timeoutLoser (Some timedOutPlayer)
               (set_status completed
                  (set_outcome
                     (Some (match timedOutPlayer with X => lose | O => win end))
                     g))))).

Definition handleTimeout (w : World) (gid : string) (timedOutPlayer : player)
    (now : Z) : World * list Event :=
  let w := clearGameTimer gid w in
  match games w !! gid with
  | None => (w, [])
  | Some game0 =>
      if negb (bool_decide (status game0 = in_progress)) then (w, [])
      else
        let game := forfeit timedOutPlayer now game0 game0 in
        let w := save gid (forfeit timedOutPlayer now game0) w in
        let timerUpdate :=
          TimerUpdate gid (playerXTimeRemaining game)
            (playerOTimeRemaining game) (Some timedOutPlayer) in
        let gameTimeout :=
          GameTimeout gid (other timedOutPlayer) timedOutPlayer in
        let found := findMoves (moves w) gid in
        let '(w, payload) :=
          rollup w gid game None (Z.of_nat (length found)) now in
        (w, timerUpdate :: gameTimeout :: gameEndEvents gid game payload)
  end.

(** The move a stored move is due to expire at: its own stamp, or
    [moveNumber + maxAge] when aging is on. *)
Definition dueOn (game : IGame) (maxAge' : Z) (m : IMove) : option Z :=
  match expiresOnMove m with
  | Some e => Some e
  | None => if agingEnabled game then Some (m_moveNumber m + maxAge') else None
  end.

Definition view (m : IMove) (expired : option Z) : MoveView :=
  mkMoveView (m_moveNumber m) (m_position m) (m_player m) expired.

(** The assignments of [deductTimerOnMove] and the times it returns. *)
Definition deductTimerOnMove (game : IGame) (currentPlayer : player) (now : Z)
  : (IGame -> IGame) * option (float64 * float64) :=
  if negb (timerEnabled game) then (fun g => g, None)
  else
    let elapsed :=
      match timerLastStartedAt game with
      | Some started => fdiv (ofZ (now - started)) (ofZ 1000)
      | None => zero
      end in
    let charge :=
      match currentPlayer with
      | X => set_playerXTimeRemaining
               (Math_max0 (fsub (playerXTimeRemaining game) elapsed))
      | O => set_playerOTimeRemaining
               (Math_max0 (fsub (playerOTimeRemaining game) elapsed))
      end in
    let nextPlayer := other currentPlayer in
    let arm :=
      if bool_decide (vs game = AI) && bool_decide (nextPlayer = O)
      then set_timerLastStartedAt None
      else set_timerLastStartedAt (Some now) in
    let assigned := fun g => arm (charge g) in
    (assigned,
     Some (playerXTimeRemaining (assigned game),
           playerOTimeRemaining (assigned game))).

(** The owner plays [X]. *)
Definition ownerOutcome (winner : player) : Outcome :=
  match winner with X => win | O => lose end.

(** The assignments of the completion branch, when the board ends the game. *)
Definition conclude (b : board) : option (IGame -> IGame) :=
  match checkWinner b with
  | Some winner =>
      Some (fun g =>
              let g := set_timerLastStartedAt None
                         (set_status completed
                            (set_outcome (Some (ownerOutcome winner)) g)) in
              match getWinningLine b with
              | Some line => set_winningLine (Some line) g
              | None => g
              end)
  | None =>
      if isDraw b
      then Some (fun g => set_timerLastStartedAt None
                            (set_status completed
                               (set_outcome (Some draw) g)))
      else None
  end.

Definition turnOf (moveCount : Z) : player :=
  if moveCount mod 2 =? 0 then X else O.

Definition expiredEvents (gid : string) (simple : list (Z * player))
  : list Event :=
  match simple with
  | [] => []
  | _ => [CellExpired gid simple]
  end.

(** The handler of [make-move]. *)
Definition makeMove (w : World) (gid : string) (position : Z)
    (userId : string) (now : Z) : World * list Event :=
  match games w !! gid with
  | None => (w, [EmitError "Game not found"])
  | Some game0 =>
    let rolled := rollDuration now game0 in
    let game := rolled game0 in
    let isOwner := bool_decide (user game = userId) in
    let isOpponent :=
      match opponentId game with
      | Some o => bool_decide (o = userId)
      | None => false
      end in
    let isLocalHuman :=
      bool_decide (vs game = Human)
      && negb (bool_decide (is_Some (opponentId game))) && isOwner in
    if negb isOwner && negb isOpponent && negb isLocalHuman
    then (w, [EmitError "Not authorized for this game"])
    else if bool_decide (status game = completed)
            || bool_decide (status game = abandoned)
    then (w, [EmitError "Game is not active"])
    else if bool_decide (vs game = AI)
            && negb (bool_decide (is_Some (difficulty game)))
    then (w, [EmitError "AI difficulty not set"])
    else
    let found := findMoves (moves w) gid in
    let currentMoveNumber := Z.of_nat (length found) in
    let board0 :=
      if currentMoveNumber >? 0
      then getActiveBoardFromMoves
             (map (fun m => view m (m_expiredOnMove m)) found) currentMoveNumber
      else emptyBoard in
    let currentPlayer := turnOf currentMoveNumber in
    let playerSymbol :=
      if isLocalHuman then currentPlayer else if isOwner then X else O in
    if negb (bool_decide (currentPlayer = playerSymbol))
    then (w, [EmitError "It is not your turn"])
    else
    match applyMove board0 position playerSymbol with
    | None => (w, [EmitError "Invalid move"])
    | Some _ =>
      let moveNumber := currentMoveNumber + 1 in
      let maxAge' := default 5 (maxAge game) in
      let toExpire :=
        List.filter
          (fun m => match dueOn game maxAge' m with
                    | Some e => (e <=? moveNumber)
                                && bool_decide (m_expiredOnMove m = None)
                    | None => false
                    end) found in
      let toExpireIds := map _id toExpire in
      let toExpireSimple := map (fun m => (m_position m, m_player m)) toExpire in
      let moves1 := updateMany (moves w) toExpireIds moveNumber now in
      let movesForBoard :=
        map (fun m =>
               view m (match m_expiredOnMove m with
                       | Some e => Some e
                       | None => if bool_decide (_id m ∈ toExpireIds)
                                 then Some moveNumber else None
                       end)) found in
      let mine := mkMoveView moveNumber position playerSymbol None in
      let playerBoard :=
        getActiveBoardFromMoves (movesForBoard ++ [mine]) moveNumber in
      let newMoveExpiresOn :=
        if agingEnabled game then Some (moveNumber + maxAge') else None in
      let newMove :=
        mkMove (length moves1) gid moveNumber position false playerSymbol
          board0 playerBoard newMoveExpiresOn None None None in
      let '(clocked, timerState) := deductTimerOnMove game currentPlayer now in
      let finish := conclude playerBoard in
      let assigned := fun g => default (fun g => g) finish (clocked (rolled g)) in
      let game' := assigned game0 in
      let w := with_moves (moves1 ++ [newMove]) w in
      let w := if bool_decide (is_Some finish) then clearGameTimer gid w else w in
      let w := save gid assigned w in
      let nextPlayer := other currentPlayer in
      let events :=
        expiredEvents gid toExpireSimple
        ++ [AgingState gid
              (getAgingState (movesForBoard ++ [mine]) moveNumber maxAge');
            GameUpdate gid playerBoard nextPlayer (outcome game')
              (duration game')]
        ++ match timerState with
           | Some (x, o) =>
               [TimerUpdate gid x o
                  (if bool_decide (status game' = completed) then None
                   else Some nextPlayer)]
           | None => []
           end in
      if bool_decide (status game' = completed) then
        let '(w, payload) :=
          rollup w gid game' (winningLine game') moveNumber now in
        (w, events ++ gameEndEvents gid game' payload)
      else
        let nextRemaining :=
          match nextPlayer with
          | X => playerXTimeRemaining game'
          | O => playerOTimeRemaining game'
          end in
        let w :=
          if timerEnabled game' && bool_decide (status game' = in_progress)
             && negb (bool_decide (vs game' = AI) && bool_decide (nextPlayer = O))
          then scheduleTimer gid (fmul nextRemaining (ofZ 1000)) nextPlayer w
          else w in
        let w :=
          if bool_decide (vs game' = AI)
          then with_tasks
                 (aiTasks w
                  ++ [mkAiTask gid game' (fun g => g) playerBoard moveNumber
                        false]) w
          else w in
        (w, events)
    end
  end.

Definition aiMaxDelaySeconds (d : option AIService.difficulty) : Z :=
  match d with
  | Some AIService.hard => 5
  | Some AIService.medium => 10
  | _ => 30
  end.

(** The deferred AI turn up to its delay: the delay drawn is charged to
    [O]'s clock, and an exhausted clock forfeits at once. *)
Definition aiStart (w : World) (i : nat) (aiDelaySeconds now : Z)
  : World * list Event :=
  match aiTasks w !! i with
  | None => (w, [])
  | Some task =>
    if ai_thinking task then (w, [])
    else
      let game := ai_game task in
      let gid := ai_gameId task in
      let w := with_tasks (delete i (aiTasks w)) w in
      if timerEnabled game then
        let charge :=
          set_playerOTimeRemaining
            (Math_max0 (fsub (playerOTimeRemaining game) (ofZ aiDelaySeconds))) in
        if fleb (playerOTimeRemaining (charge game)) zero then
          handleTimeout (save gid (fun g => charge (ai_unsaved task g)) w)
            gid O now
        else
          (with_tasks
             (aiTasks w
              ++ [mkAiTask gid (charge game)
                    (fun g => charge (ai_unsaved task g))
                    (ai_playerBoard task) (ai_moveNumber task) true]) w,
           [])
      else
        (with_tasks
           (aiTasks w
            ++ [mkAiTask gid game (ai_unsaved task) (ai_playerBoard task)
                  (ai_moveNumber task) true]) w,
         [])
  end.

(** The deferred AI turn after its delay. *)
Definition aiFinish (w : World) (i : nat) (now : Z) : World * list Event :=
  match aiTasks w !! i with
  | None => (w, [])
  | Some task =>
    if negb (ai_thinking task) then (w, [])
    else
      let game := ai_game task in
      let gid := ai_gameId task in
      let playerBoard := ai_playerBoard task in
      let w := with_tasks (delete i (aiTasks w)) w in
      let aiMove :=
        AIService.getBestMove playerBoard
          (default AIService.easy (difficulty game)) in
      match applyMove playerBoard aiMove O with
      | None => (w, [EmitError "AI move failed"])
      | Some _ =>
        let aiMoveNumber := ai_moveNumber task + 1 in
        let maxAge' := default 5 (maxAge game) in
        let allMovesAfterPlayer := findMoves (moves w) gid in
        let aiToExpire :=
          List.filter
            (fun m => match dueOn game maxAge' m with
                      | Some e => (e =? aiMoveNumber)
                                  && bool_decide (m_expiredOnMove m = None)
                      | None => false
                      end) allMovesAfterPlayer in
        let aiToExpireIds := map _id aiToExpire in
        let aiToExpireSimple :=
          map (fun m => (m_position m, m_player m)) aiToExpire in
        let moves1 := updateMany (moves w) aiToExpireIds aiMoveNumber now in
        let movesForBoardAI :=
          map (fun m => view m (m_expiredOnMove m)) (findMoves moves1 gid) in
        let its := mkMoveView aiMoveNumber aiMove O None in
        let aiBoardFinal :=
          getActiveBoardFromMoves (movesForBoardAI ++ [its]) aiMoveNumber in
        let aiMoveExpiresOn :=
          if agingEnabled game then Some (aiMoveNumber + maxAge') else None in
        let newMove :=
          mkMove (length moves1) gid aiMoveNumber aiMove true O
            playerBoard aiBoardFinal aiMoveExpiresOn None None None in
        let finish := conclude aiBoardFinal in
        let ended :=
          match finish with
          | Some f => f
          | None => if timerEnabled game
                    then set_timerLastStartedAt (Some now) else fun g => g
          end in
        let assigned := fun g => rollDuration now game (ended g) in
        let game' := assigned game in
        let w := with_moves (moves1 ++ [newMove]) w in
        let w :=
          if bool_decide (is_Some finish) then clearGameTimer gid w else w in
        let w := save gid (fun g => assigned (ai_unsaved task g)) w in
        let events :=
          [AiMove gid aiMove]
          ++ expiredEvents gid aiToExpireSimple
          ++ [AgingState gid
                (getAgingState (movesForBoardAI ++ [its]) aiMoveNumber maxAge');
              GameUpdate gid aiBoardFinal X (outcome game') (duration game')]
          ++ (if timerEnabled game'
              then [TimerUpdate gid (playerXTimeRemaining game')
                      (playerOTimeRemaining game')
                      (if bool_decide (status game' = completed) then None
                       else Some X)]
              else []) in
        let w :=
          if timerEnabled game' && bool_decide (status game' = in_progress)
          then scheduleTimer gid (fmul (playerXTimeRemaining game') (ofZ 1000)) X w
          else w in
        if bool_decide (status game' = completed) then
          let '(w, payload) :=
            rollup w gid game' (winningLine game') aiMoveNumber now in
          (w, events ++ gameEndEvents gid game' payload)
        else (w, events)
      end
  end.

(** The handler of [join-game]. *)
Definition joinGame (w : World) (gid : string) (now : Z) : World * list Event :=
  match games w !! gid with
  | None => (w, [])
  | Some game =>
      match timerLastStartedAt game with
      | Some started =>
          if timerEnabled game && bool_decide (status game = in_progress) then
            let found := findMoves (moves w) gid in
            let currentPlayer := turnOf (Z.of_nat (length found)) in
            let elapsed := fdiv (ofZ (now - started)) (ofZ 1000) in
            let remaining :=
              match currentPlayer with
              | X => Math_max0 (fsub (playerXTimeRemaining game) elapsed)
              | O => Math_max0 (fsub (playerOTimeRemaining game) elapsed)
              end in
            let w :=
              match gameTimers w !! gid with
              | None => scheduleTimer gid (fmul remaining (ofZ 1000)) currentPlayer w
              | Some _ => w
              end in
            (w,
             [TimerUpdate gid
                (match currentPlayer with
                 | X => remaining | O => playerXTimeRemaining game end)
                (match currentPlayer with
                 | O => remaining | X => playerOTimeRemaining game end)
                (Some currentPlayer)])
          else (w, [])
      | None => (w, [])
      end
  end.

(** A game as it is created: in progress, with no outcome, winning line or
    timeout loser yet. *)
Definition created (g : IGame) : Prop :=
  status g = in_progress /\ outcome g = None /\ winningLine g = None
  /\ timeoutLoser g = None.

Definition emptyWorld : World := mkWorld ∅ [] ∅ [] ∅ [].

(** A timed local game on one device, owned by "u1", and a world holding it
    as game "g1". *)
Definition timedGame : IGame :=
  mkGame "u1" Human None true (Some 5) in_progress None 0 None None
    true 60 (ofZ 60) (ofZ 60) (Some 0) None 0.

Definition timedWorld : World :=
  mkWorld {[ "g1" := timedGame ]} [] {[ "u1" := newUser "ann@example.org" ]}
    [] {[ "g1" := mkTimer (ofZ 60000) X ]} [].

(** One step of the service: a game or a user is created, or one of the
    handlers runs. *)
Inductive step : World -> World -> Prop :=
| step_createGame w gid g :
    games w !! gid = None -> created g ->
    step w (with_games (<[gid := g]> (games w)) w)
| step_createUser w uid u :
    users w !! uid = None ->
    step w (with_users (<[uid := u]> (users w)) (achievements w) w)
| step_joinGame w gid now :
    step w (fst (joinGame w gid now))
| step_makeMove w gid position userId now :
    step w (fst (makeMove w gid position userId now))
| step_aiStart w i task delay now :
    aiTasks w !! i = Some task ->
    0 <= delay <= aiMaxDelaySeconds (difficulty (ai_game task)) ->
    step w (fst (aiStart w i delay now))
| step_aiFinish w i now :
    step w (fst (aiFinish w i now))
| step_timeout w gid timer now :
    gameTimers w !! gid = Some timer ->
    step w (fst (handleTimeout w gid (activePlayer timer) now)).

Inductive reachable : World -> Prop :=
| reachable_empty : reachable emptyWorld
| reachable_step w w' : reachable w -> step w w' -> reachable w'.

(** The timed game created, joined at one second, and timed out for [X]. *)
Definition joinedWorld : World :=
  fst (joinGame (with_games (<["g1" := timedGame]> (games emptyWorld))
                   emptyWorld) "g1" 1000).

Definition forfeitedWorld : World :=
  fst (handleTimeout joinedWorld "g1" X 61000).

Definition forfeitedGame : IGame :=
  mkGame "u1" Human None true (Some 5) completed (Some lose) 61 None None
    true 60 zero (ofZ 60) None (Some X) 0.

(** *** The specification's vocabulary *)

(** [outcome] is set iff [status] is [completed]; [winningLine], when
    present, is one of the eight lines. *)
Definition gameInvariant (g : IGame) : Prop :=
  (is_Some (outcome g) <-> status g = completed)
  /\ (forall line, winningLine g = Some line -> In line winningLines).

(** Assignments that keep the invariant of the document they are saved to. *)
Definition keepsInvariant (f : IGame -> IGame) : Prop :=
  forall g, gameInvariant g -> gameInvariant (f g).

(** The invariant holds of every stored game, and the assignments a deferred
    AI turn has yet to save keep it. *)
Definition worldInvariant (w : World) : Prop :=
  (forall gid g, games w !! gid = Some g -> gameInvariant g)
  /\ Forall (fun task => keepsInvariant (ai_unsaved task)) (aiTasks w).

(** The counters of a user agree with one another: the games played are the
    wins, losses and draws; the running streaks are bounded by the totals,
    the longest win streak by the wins; at most one streak is running. *)
Definition statsConsistent (s : IUserStats) : Prop :=
  gamesPlayed s = totalWins s + totalLoses s + totalDraws s
  /\ 0 <= currentWinStreak s <= longestWinStreak s
  /\ longestWinStreak s <= totalWins s
  /\ 0 <= currentLossStreak s <= totalLoses s
  /\ (currentWinStreak s = 0 \/ currentLossStreak s = 0)
  /\ 0 <= expertAiWins s <= totalWins s
  /\ 0 <= totalDraws s.

(** A handler turned the request down: one [error] event to the caller and
    nothing written. *)
Definition rejected (w : World) (out : World * list Event) : Prop :=
  fst out = w /\ exists message, snd out = [EmitError message].

Definition isError (e : Event) : bool :=
  match e with
  | EmitError _ => true
  | _ => false
  end.

(** Assignments that leave a completed document completed. *)
Definition keepsCompleted (f : IGame -> IGame) : Prop :=
  forall g, status g = completed -> status (f g) = completed.

(** From [w] to [w'] no game is removed and no completed game is reopened. *)
Definition staysCompleted (w w' : World) : Prop :=
  forall gid g, games w !! gid = Some g ->
    exists g', games w' !! gid = Some g'
               /\ (status g = completed -> status g' = completed).

(** The board a deferred AI turn is to answer is a full-size board still
    open: no winner, and a free cell left. *)
Definition taskBoardOpen (task : AiTask) : Prop :=
  length (ai_playerBoard task) = 9%nat
  /\ checkWinner (ai_playerBoard task) = None
  /\ isDraw (ai_playerBoard task) = false.

Definition tasksOpen (w : World) : Prop :=
  Forall taskBoardOpen (aiTasks w).

(** A game against the hard AI without timer, owned by "u1"; the world after
    the owner has taken the centre; and that world once the AI has drawn its
    delay. *)
Definition aiGame : IGame :=
  mkGame "u1" AI (Some AIService.hard) false None in_progress None 0 None None
    false 0 zero zero None None 0.

Definition aiWorld : World :=
  with_games (<["g1" := aiGame]> (games emptyWorld)) emptyWorld.

Definition aiWorldMoved : World := fst (makeMove aiWorld "g1" 4 "u1" 1000).

Definition timedWorldMoved : World :=
  fst (makeMove timedWorld "g1" 4 "u1" 1000).

Definition aiWorldThinking : World := fst (aiStart aiWorldMoved 0 1 1000).

(** The assignments the deferred AI turns have yet to save leave a completed
    document completed. *)
Definition tasksKeepCompleted (w : World) : Prop :=
  Forall (fun task => keepsCompleted (ai_unsaved task)) (aiTasks w).

End SocketService.

(** ** controllers/gameController.ts: the name of the winning pattern *)
Module GameController.
Import GameEngine.

(** [winningLine] is [None] when it is undefined; [has] is [lineSet.has]. *)
Definition getWinningPatternName (winningLine : option (list nat))
    (outcome : option Progression.Outcome) : string :=
  match winningLine with
  | None | Some [] =>
      if bool_decide (outcome = Some Progression.draw)
      then "Draw" else "Undecided"
  | Some line =>
      let has := fun k : nat => bool_decide (k ∈ line) in
      if has 0%nat && has 1%nat && has 2%nat then "Top Row"
      else if has 3%nat && has 4%nat && has 5%nat then "Middle Row"
      else if has 6%nat && has 7%nat && has 8%nat then "Bottom Row"
      else if has 0%nat && has 3%nat && has 6%nat then "Left Column"
      else if has 1%nat && has 4%nat && has 7%nat then "Middle Column"
      else if has 2%nat && has 5%nat && has 8%nat then "Right Column"
      else if has 0%nat && has 4%nat && has 8%nat then "Diagonal"
      else if has 2%nat && has 4%nat && has 6%nat then "Anti-Diagonal"
      else "Win"
  end.

(** The names of the eight lines, in the order of [winningLines]. *)
Definition patternNames : list string :=
  [ "Top Row"; "Middle Row"; "Bottom Row"
  ; "Left Column"; "Middle Column"; "Right Column"
  ; "Diagonal"; "Anti-Diagonal" ].

End GameController.

(** * Properties *)

(** ** Game engine: win detection *)
Section WinDetection.
Import GameEngine.

Lemma lineOwner_filled (b : board) (line : list nat) (p : player) :
  length line = 3%nat ->
  lineOwner b line = Some p <-> lineFilledBy b line p.
Proof.
  intros Hlen.
  destruct line as [|i [|j [|k [|? ?]]]]; simpl in Hlen; try lia.
  unfold lineOwner, lineFilledBy. split.
  - destruct (b !! i) as [[q|]|] eqn:Hi; try discriminate.
    destruct (bool_decide _) eqn:Hj; simpl; try discriminate.
    destruct (bool_decide (b !! k = _)) eqn:Hk; simpl; try discriminate.
    intros [= ->].
    apply bool_decide_eq_true in Hj, Hk.
    intros n [<-|[<-|[<-|[]]]]; assumption.
  - intros H.
    rewrite (H i), (H j), (H k) by (simpl; tauto).
    rewrite !bool_decide_eq_true_2 by reflexivity. reflexivity.
Qed.

Lemma lineOwner_none (b : board) (line : list nat) :
  length line = 3%nat ->
  lineOwner b line = None <-> forall q, ~ lineFilledBy b line q.
Proof.
  intros Hlen. split.
  - intros Hn q Hq. apply (lineOwner_filled b line q Hlen) in Hq. congruence.
  - intros H. destruct (lineOwner b line) as [q|] eqn:E; [|reflexivity].
    apply (lineOwner_filled b line q Hlen) in E. destruct (H q E).
Qed.

Lemma checkWinnerIn_some (lines : list (list nat)) (b : board) (p : player) :
  Forall (fun l => length l = 3%nat) lines ->
  checkWinnerIn lines b = Some p <->
  exists pre line post,
    lines = pre ++ line :: post /\ lineFilledBy b line p /\
    forall l, In l pre -> forall q, ~ lineFilledBy b l q.
Proof.
  induction 1 as [|l lines Hl Hall IH]; simpl.
  - split; [discriminate|]. intros (pre & line & post & E & _).
    destruct pre; discriminate.
  - destruct (lineOwner b l) as [q|] eqn:E.
    + apply (lineOwner_filled b l q Hl) in E. split.
      * intros [= ->]. exists [], l, lines. repeat split; auto.
      * intros (pre & line & post & Eq & Hf & Hpre).
        destruct pre as [|l0 pre]; simpl in Eq; injection Eq as -> ->.
        -- f_equal. specialize (E (hd 0%nat line)). specialize (Hf (hd 0%nat line)).
           destruct line as [|i ?]; [discriminate Hl|]. simpl in *.
           rewrite E in Hf by tauto. specialize (Hf (or_introl eq_refl)).
           congruence.
        -- destruct (Hpre l0 (or_introl eq_refl) q E).
    + rewrite IH. pose proof (proj1 (lineOwner_none b l Hl) E) as En. split.
      * intros (pre & line & post & -> & Hf & Hpre).
        exists (l :: pre), line, post. repeat split; auto.
        intros l' [<-|Hin]; auto.
      * intros (pre & line & post & Eq & Hf & Hpre).
        destruct pre as [|l0 pre]; simpl in Eq; injection Eq as -> ->.
        -- destruct (En p Hf).
        -- exists pre, line, post. repeat split; auto.
           intros l' Hin. apply Hpre. right. exact Hin.
Qed.

Lemma checkWinnerIn_none (lines : list (list nat)) (b : board) :
  Forall (fun l => length l = 3%nat) lines ->
  checkWinnerIn lines b = None <->
  forall l, In l lines -> forall q, ~ lineFilledBy b l q.
Proof.
  induction 1 as [|l lines Hl Hall IH]; simpl.
  - split; [intros _ ? []|reflexivity].
  - destruct (lineOwner b l) as [q|] eqn:E.
    + apply (lineOwner_filled b l q Hl) in E. split; [discriminate|].
      intros H. destruct (H l (or_introl eq_refl) q E).
    + pose proof (proj1 (lineOwner_none b l Hl) E) as En. rewrite IH. split.
      * intros H l' [<-|Hin]; auto.
      * intros H l' Hin. apply H. right. exact Hin.
Qed.

Lemma winningLines_len3 : Forall (fun l => length l = 3%nat) winningLines.
Proof. repeat constructor. Qed.

Lemma fullBoard_forallb (b : board) :
  fullBoard b -> forallb (fun c : cell => bool_decide (c <> None)) b = true.
Proof.
  intros Hfull. apply forallb_forall. intros c Hin.
  apply bool_decide_eq_true.
  apply list_elem_of_In, list_elem_of_lookup in Hin as [i Hi].
  exact (Hfull i c Hi).
Qed.

End WinDetection.

Section WinDetectionClaims.
Import GameEngine.

Lemma checkWinnerIn_filled (b : board) (p : player) (line : list nat)
    (post pre : list (list nat)) :
  Forall (fun l => length l = 3%nat) (pre ++ line :: post) ->
  lineFilledBy b line p ->
  (forall l, In l pre -> ~ lineFilledBy b l (other p)) ->
  checkWinnerIn (pre ++ line :: post) b = Some p.
Proof.
  induction pre as [|l0 pre IH]; simpl; intros Hall Hf Hpre.
  - apply Forall_cons_1 in Hall as [Hl _].
    apply (lineOwner_filled b line p Hl) in Hf. rewrite Hf. reflexivity.
  - apply Forall_cons_1 in Hall as [Hl0 Hall].
    destruct (lineOwner b l0) as [q|] eqn:E.
    + apply (lineOwner_filled b l0 q Hl0) in E.
      destruct p, q; try reflexivity;
        destruct (Hpre l0 (or_introl eq_refl) E).
    + apply IH; auto.
Qed.

(** C1 (as amended). [checkWinner] returns the symbol of the first line, in
    the order rows, columns, diagonals, whose three cells hold the same
    symbol, and nothing when no line is so filled.  A board with a line
    filled by [p] yields [p] provided no earlier line of the enumeration is
    filled by the other symbol.  A full board without a filled line has no
    winner and is a draw. *)
Theorem checkWinner_first_filled_line :
  (forall (b : board) (p : player), length b = 9%nat ->
     checkWinner b = Some p <->
     exists pre line post,
       winningLines = pre ++ line :: post /\ lineFilledBy b line p /\
       forall l, In l pre -> forall q, ~ lineFilledBy b l q)
  /\ (forall b : board, length b = 9%nat ->
        checkWinner b = None <->
        forall l, In l winningLines -> forall q, ~ lineFilledBy b l q)
  /\ (forall (b : board) pre line post (p : player), length b = 9%nat ->
        winningLines = pre ++ line :: post ->
        lineFilledBy b line p ->
        (forall l, In l pre -> ~ lineFilledBy b l (other p)) ->
        checkWinner b = Some p)
  /\ (forall b : board, length b = 9%nat ->
        fullBoard b ->
        (forall l, In l winningLines -> forall q, ~ lineFilledBy b l q) ->
        checkWinner b = None /\ isDraw b = true).
Proof.
  split; [|split; [|split]].
  - intros b p _. apply checkWinnerIn_some, winningLines_len3.
  - intros b _. apply checkWinnerIn_none, winningLines_len3.
  - intros b pre line post p _ E Hf Hpre. unfold checkWinner. rewrite E.
    apply checkWinnerIn_filled; auto. rewrite <- E. apply winningLines_len3.
  - intros b _ Hfull Hnone.
    assert (Hw : checkWinner b = None)
      by (apply checkWinnerIn_none; [apply winningLines_len3|exact Hnone]).
    split; [exact Hw|]. unfold isDraw.
    rewrite fullBoard_forallb by exact Hfull. rewrite Hw. reflexivity.
Qed.

Lemma checkWinner_first_filled_line_witness :
  (checkWinner boardColumn = Some O <->
   exists pre line post,
     winningLines = pre ++ line :: post /\ lineFilledBy boardColumn line O /\
     forall l, In l pre -> forall q, ~ lineFilledBy boardColumn l q)
  /\ (checkWinner boardDrawn = None <->
      forall l, In l winningLines -> forall q, ~ lineFilledBy boardDrawn l q)
  /\ checkWinner boardColumn = Some O
  /\ (checkWinner boardDrawn = None /\ isDraw boardDrawn = true).
Proof.
  split; [|split; [|split]].
  - exact (proj1 checkWinner_first_filled_line boardColumn O eq_refl).
  - exact (proj1 (proj2 checkWinner_first_filled_line) boardDrawn eq_refl).
  - apply (proj1 (proj2 (proj2 checkWinner_first_filled_line)) boardColumn
             [[0; 1; 2]; [3; 4; 5]; [6; 7; 8]]%nat [0; 3; 6]%nat
             [[1; 4; 7]; [2; 5; 8]; [0; 4; 8]; [2; 4; 6]]%nat O).
    + reflexivity.
    + reflexivity.
    + intros i [<-|[<-|[<-|[]]]]; reflexivity.
    + intros l [<-|[<-|[<-|[]]]] H.
      * specialize (H 0%nat (or_introl eq_refl)). discriminate H.
      * specialize (H 5%nat (or_intror (or_intror (or_introl eq_refl)))).
        discriminate H.
      * specialize (H 7%nat (or_intror (or_introl eq_refl))).
        discriminate H.
  - apply (proj2 (proj2 (proj2 checkWinner_first_filled_line)) boardDrawn).
    + reflexivity.
    + intros i c Hi.
      do 9 (destruct i as [|i]; [injection Hi as <-; discriminate|]).
      discriminate Hi.
    + apply checkWinnerIn_none; [apply winningLines_len3|reflexivity].
Defined.

(** C1, the claim as stated fails: the middle row is filled by [O], yet
    the winner reported is [X], whose row comes first. *)
Lemma checkWinner_filled_line_counterexample :
  length boardTwoLines = 9%nat
  /\ In [3; 4; 5]%nat winningLines
  /\ lineFilledBy boardTwoLines [3; 4; 5]%nat O
  /\ checkWinner boardTwoLines = Some X
  /\ checkWinner boardTwoLines <> Some O.
Proof.
  repeat split.
  - simpl. tauto.
  - intros i [<-|[<-|[<-|[]]]]; reflexivity.
  - discriminate.
Qed.

End WinDetectionClaims.

(** ** Game engine: aging-aware reconstruction *)
Section ActiveBoard.
Import GameEngine.

Lemma getBoardFromMoves_snoc (moves : list MoveView) (m : MoveView) :
  getBoardFromMoves (moves ++ [m]) =
  if (0 <=? position m) && (position m <? 9)
  then <[Z.to_nat (position m) := Some (player_of m)]> (getBoardFromMoves moves)
  else getBoardFromMoves moves.
Proof. unfold getBoardFromMoves. rewrite fold_left_app. reflexivity. Qed.

Lemma getBoardFromMoves_length (moves : list MoveView) :
  length (getBoardFromMoves moves) = 9%nat.
Proof.
  induction moves as [|m moves IH] using rev_ind; [reflexivity|].
  rewrite getBoardFromMoves_snoc.
  destruct (_ && _); [rewrite length_insert|]; exact IH.
Qed.

Lemma getBoardFromMoves_lookup (moves : list MoveView) (i : nat) :
  (i < 9)%nat ->
  getBoardFromMoves moves !! i = Some (lastMarkAt moves i).
Proof.
  intros Hi. induction moves as [|m moves IH] using rev_ind.
  - do 9 (destruct i as [|i]; [reflexivity|]). lia.
  - rewrite getBoardFromMoves_snoc. unfold lastMarkAt in *.
    rewrite rev_app_distr. simpl.
    destruct (position m =? Z.of_nat i) eqn:E.
    + apply Z.eqb_eq in E. rewrite E.
      replace (0 <=? Z.of_nat i) with true by (symmetry; apply Z.leb_le; lia).
      replace (Z.of_nat i <? 9) with true by (symmetry; apply Z.ltb_lt; lia).
      simpl. rewrite Nat2Z.id. apply list_lookup_insert_eq.
      rewrite getBoardFromMoves_length. exact Hi.
    + apply Z.eqb_neq in E.
      destruct (_ && _) eqn:G; [|exact IH].
      apply andb_true_iff in G as [G1 G2]. apply Z.leb_le in G1.
      rewrite list_lookup_insert_ne by lia. exact IH.
Qed.

Lemma isActive_not_expired (cur : Z) (m : MoveView) :
  isActive cur m = negb (expiredBy cur m).
Proof.
  unfold isActive, expiredBy. destruct (expiredOnMove m) as [e|]; [|reflexivity].
  rewrite Z.gtb_ltb, Z.ltb_antisym. reflexivity.
Qed.

(** C2. [getActiveBoardFromMoves] drops exactly the moves whose
    [expiredOnMove] is set and at most [currentMoveNumber], and replays the
    others in list order onto a blank board: each of the nine cells holds the
    symbol of the last remaining move played there.  On the two-move example
    the board at move 3 holds only [O] in cell 4, and at move 2 the first
    move is still on the board. *)
Theorem getActiveBoardFromMoves_drops_expired :
  (forall (moves : list MoveView) (cur : Z),
      let remaining := List.filter (fun m => negb (expiredBy cur m)) moves in
      getActiveBoardFromMoves moves cur = getBoardFromMoves remaining
      /\ length (getActiveBoardFromMoves moves cur) = 9%nat
      /\ (forall m, In m remaining <->
                    In m moves /\
                    ~ (exists e, expiredOnMove m = Some e /\ e <= cur))
      /\ (forall i, (i < 9)%nat ->
            getActiveBoardFromMoves moves cur !! i
            = Some (lastMarkAt remaining i)))
  /\ getActiveBoardFromMoves agingMoves 3
     = [None; None; None; None; Some O; None; None; None; None]
  /\ getActiveBoardFromMoves agingMoves 2
     = [Some X; None; None; None; Some O; None; None; None; None].
Proof.
  split; [|split; reflexivity].
  intros moves cur remaining.
  assert (E : List.filter (isActive cur) moves = remaining).
  { unfold remaining. apply filter_ext. intros m. apply isActive_not_expired. }
  unfold getActiveBoardFromMoves. rewrite E.
  split; [reflexivity|]. split; [apply getBoardFromMoves_length|]. split.
  - intros m. unfold remaining. rewrite filter_In. unfold expiredBy.
    destruct (expiredOnMove m) as [e|]; simpl.
    + rewrite negb_true_iff, Z.leb_gt. split.
      * intros [Hin Hlt]. split; [exact Hin|].
        intros (e' & [= <-] & Hle). lia.
      * intros [Hin Hn]. split; [exact Hin|].
        destruct (Z.lt_ge_cases cur e) as [|Hle]; [assumption|].
        destruct Hn. exists e. split; [reflexivity|exact Hle].
    + split; intros [Hin _]; (split; [exact Hin|]); [|reflexivity].
      intros (e & Habs & _). discriminate Habs.
  - intros i Hi. apply getBoardFromMoves_lookup. exact Hi.
Qed.

Lemma getActiveBoardFromMoves_drops_expired_witness :
  getActiveBoardFromMoves agingMoves 3 !! 4%nat
  = Some (lastMarkAt (List.filter (fun m => negb (expiredBy 3 m)) agingMoves) 4).
Proof.
  apply (proj1 getActiveBoardFromMoves_drops_expired agingMoves 3). lia.
Defined.

End ActiveBoard.

(** ** AI opponent *)
Section Minimax.
Import GameEngine AIService.

Lemma getAvailableMoves_In (b : board) (c : Z) :
  In c (getAvailableMoves b) <-> exists i, c = Z.of_nat i /\ b !! i = Some None.
Proof.
  unfold getAvailableMoves. rewrite filter_In, <- list_elem_of_In.
  rewrite elem_of_lookup_imap. split.
  - intros [(i & x & -> & Hi) Hnz]. destruct x as [p|]; [discriminate Hnz|].
    exists i. auto.
  - intros (i & -> & Hi). split.
    + exists i, None. auto.
    + apply negb_true_iff, Z.eqb_neq. lia.
Qed.

Lemma availableFrom_sorted (b : board) (k : nat) :
  let l := List.filter (fun index => negb (index =? -1))
             (imap (fun i (c : cell) =>
                      match c with None => Z.of_nat (k + i) | Some _ => -1 end) b)
  in StronglySorted Z.lt l /\ Forall (fun x => Z.of_nat k <= x) l.
Proof.
  revert k. induction b as [|c b IH]; intros k; simpl.
  - split; constructor.
  - specialize (IH (S k)). simpl in IH.
    rewrite (imap_ext _ (fun i (c : cell) =>
               match c with None => Z.of_nat (S (k + i)) | Some _ => -1 end))
      by (intros i [p|] _; simpl; [reflexivity|f_equal; lia]).
    destruct IH as [Hs Hb].
    assert (Hb' : Forall (fun x => Z.of_nat k <= x)
                    (List.filter (fun index => negb (index =? -1))
                       (imap (fun i (c : cell) =>
                          match c with
                          | None => Z.of_nat (S (k + i)) | Some _ => -1 end) b))).
    { eapply List.Forall_impl; [|exact Hb]. simpl. intros; lia. }
    destruct c as [p|]; simpl.
    + split; assumption.
    + replace (Z.of_nat (k + 0) =? -1) with false
        by (symmetry; apply Z.eqb_neq; lia).
      simpl. split.
      * constructor; [exact Hs|].
        eapply List.Forall_impl; [|exact Hb]. simpl. intros; lia.
      * constructor; [lia|exact Hb'].
Qed.

Lemma getAvailableMoves_sorted (b : board) :
  StronglySorted Z.lt (getAvailableMoves b).
Proof. exact (proj1 (availableFrom_sorted b 0)). Qed.

Lemma isDraw_available (b : board) (c : Z) :
  In c (getAvailableMoves b) -> isDraw b = false.
Proof.
  intros (i & _ & Hi)%getAvailableMoves_In. unfold isDraw.
  apply andb_false_iff. left.
  destruct (forallb _ b) eqn:E; [|reflexivity].
  rewrite forallb_forall in E.
  specialize (E None). rewrite bool_decide_eq_true in E.
  destruct E; [|reflexivity].
  apply list_elem_of_In, list_elem_of_lookup. exists i. exact Hi.
Qed.

Lemma not_draw_available (b : board) :
  checkWinner b = None -> isDraw b = false -> getAvailableMoves b <> [].
Proof.
  unfold isDraw. intros -> H. rewrite andb_false_iff in H.
  destruct H as [H|H]; [|discriminate H].
  assert (Hex : exists i, b !! i = Some None).
  { clear -H. induction b as [|c b IH]; simpl in H; [discriminate|].
    destruct c as [p|].
    - simpl in H. destruct (IH H) as [i Hi]. exists (S i). exact Hi.
    - exists 0%nat. reflexivity. }
  destruct Hex as [i Hi]. intros E.
  assert (Hin : In (Z.of_nat i) (getAvailableMoves b))
    by (apply getAvailableMoves_In; eauto).
  rewrite E in Hin. destruct Hin.
Qed.

Lemma minimax_eq (depth : nat) (b : board) (isMaximizing : bool) :
  minimax depth b isMaximizing =
  match checkWinner b with
  | Some O => mkScored (Fin 10) (-1)
  | Some X => mkScored (Fin (-10)) (-1)
  | None =>
      if isDraw b then mkScored (Fin 0) (-1)
      else
        match depth with
        | 0%nat => mkScored (Fin 0) (-1)
        | S depth' =>
            fold_left
              (fun best move =>
                 consider isMaximizing best move
                   (score_of (minimax depth'
                                (place b move (if isMaximizing then O else X))
                                (negb isMaximizing))))
              (getAvailableMoves b)
              (mkScored (if isMaximizing then NegInfinity else Infinity) (-1))
        end
  end.
Proof. destruct depth; reflexivity. Qed.

(** The loop of [minimax] over an arbitrary scoring of the moves. *)
Section Loop.
Variable f : Z -> score.
Hypothesis f_terminal : forall m, terminalScore (f m).

Lemma consider_terminal (isMaximizing : bool) (best : scored) (m : Z) :
  terminalScore (score_of best)
  \/ score_of best = (if isMaximizing then NegInfinity else Infinity) ->
  terminalScore (score_of (consider isMaximizing best m (f m))).
Proof.
  intros Hb. unfold consider.
  destruct (f_terminal m) as [E|[E|E]], isMaximizing, Hb as [[B|[B|B]]|B];
    rewrite E, B; simpl; unfold terminalScore; auto.
Qed.

Lemma loop_terminal (isMaximizing : bool) (moves : list Z) (best : scored) :
  terminalScore (score_of best)
  \/ (moves <> [] /\
      score_of best = (if isMaximizing then NegInfinity else Infinity)) ->
  terminalScore (score_of (loop f isMaximizing moves best)).
Proof.
  revert best. induction moves as [|m moves IH]; intros best Hb; simpl.
  - destruct Hb as [Hb|[Hb _]]; [exact Hb|destruct Hb; reflexivity].
  - apply IH. left. apply consider_terminal. tauto.
Qed.

Lemma loop_max_stable (moves : list Z) (best : scored) :
  score_of best = Fin 10 -> loop f true moves best = best.
Proof.
  intros Hb. induction moves as [|m moves IH]; simpl; [reflexivity|].
  replace (consider true best m (f m)) with best; [exact IH|].
  unfold consider. rewrite Hb.
  destruct (f_terminal m) as [E|[E|E]]; rewrite E; reflexivity.
Qed.

Lemma loop_max_first (pre post : list Z) (m0 : Z) (best : scored) :
  f m0 = Fin 10 ->
  (forall m, In m pre -> f m <> Fin 10) ->
  score_of best <> Fin 10 ->
  terminalScore (score_of best) \/ score_of best = NegInfinity ->
  loop f true (pre ++ m0 :: post) best = mkScored (Fin 10) m0.
Proof.
  intros Hm0. revert best.
  induction pre as [|m pre IH]; intros best Hpre Hne Hb; simpl.
  - replace (consider true best m0 (f m0)) with (mkScored (Fin 10) m0).
    + apply loop_max_stable. reflexivity.
    + unfold consider. rewrite Hm0.
      destruct Hb as [[B|[B|B]]|B]; rewrite B; try reflexivity.
      destruct (Hne B).
  - apply IH.
    + intros m' Hin. apply Hpre. right. exact Hin.
    + unfold consider.
      destruct (true && score_gtb (f m) (score_of best)); simpl;
        [apply Hpre; left; reflexivity|exact Hne].
    + left. apply (consider_terminal true). exact Hb.
Qed.

End Loop.

Lemma minimax_terminal (depth : nat) (b : board) (isMaximizing : bool) :
  terminalScore (score_of (minimax depth b isMaximizing)).
Proof.
  revert b isMaximizing. induction depth as [|depth IH]; intros b isMaximizing;
    rewrite minimax_eq; unfold terminalScore.
  - destruct (checkWinner b) as [[|]|]; simpl; auto.
    destruct (isDraw b); simpl; auto.
  - destruct (checkWinner b) as [[|]|] eqn:Hw; simpl; auto.
    destruct (isDraw b) eqn:Hd; simpl; auto.
    apply (loop_terminal
             (fun move => score_of (minimax depth
                                      (place b move (if isMaximizing then O else X))
                                      (negb isMaximizing)))).
    + intros m. apply IH.
    + right. split; [|reflexivity]. apply not_draw_available; assumption.
Qed.

Lemma first_with {A} (P : A -> Prop) (dec : forall a, {P a} + {~ P a})
    (l : list A) (a : A) :
  In a l -> P a ->
  exists pre a0 post, l = pre ++ a0 :: post /\ P a0 /\
                      forall x, In x pre -> ~ P x.
Proof.
  induction l as [|x l IH]; intros Hin Ha; [destruct Hin|].
  destruct (dec x) as [Hx|Hx].
  - exists [], x, l. repeat split; auto.
  - destruct Hin as [->|Hin]; [contradiction|].
    destruct (IH Hin Ha) as (pre & a0 & post & -> & Ha0 & Hpre).
    exists (x :: pre), a0, post. repeat split; auto.
    intros y [<-|Hy]; auto.
Qed.

Lemma place_wins (b : board) (c : Z) :
  checkWinner b = None -> winsAtOnce b c ->
  checkWinner (place b c O) = Some O.
Proof.
  intros Hw [Hav (line & Hin & Hf)].
  apply getAvailableMoves_In in Hav as (i & -> & Hi).
  destruct (in_split _ _ Hin) as (pre & post & E).
  unfold checkWinner. rewrite E. apply checkWinnerIn_filled.
  - rewrite <- E. apply winningLines_len3.
  - exact Hf.
  - intros l Hl Hx. simpl in Hx.
    pose proof (proj1 (checkWinnerIn_none winningLines b winningLines_len3) Hw)
      as Hnone.
    assert (Hl' : In l winningLines)
      by (rewrite E; apply in_or_app; left; exact Hl).
    apply (Hnone l Hl' X). intros j Hj. specialize (Hx j Hj).
    unfold place in Hx. rewrite Nat2Z.id in Hx.
    destruct (decide (i = j)) as [<-|Hne].
    + rewrite list_lookup_insert_eq in Hx by (eapply lookup_lt_Some; exact Hi).
      discriminate Hx.
    + rewrite list_lookup_insert_ne in Hx by exact Hne. exact Hx.
Qed.

Lemma minimax_won (depth : nat) (b : board) (isMaximizing : bool) :
  checkWinner b = Some O ->
  score_of (minimax depth b isMaximizing) = Fin 10.
Proof. intros H. rewrite minimax_eq, H. reflexivity. Qed.

Lemma minimax_zero_won (b : board) (isMaximizing : bool) :
  score_of (minimax 0 b isMaximizing) = Fin 10 -> checkWinner b = Some O.
Proof.
  rewrite minimax_eq. destruct (checkWinner b) as [[|]|]; simpl;
    [discriminate|reflexivity|].
  destruct (isDraw b); discriminate.
Qed.

Lemma minimax_max_first (b : board) (c : Z) (n : nat) :
  checkWinner b = None -> winsAtOnce b c ->
  exists pre m0 post,
    getAvailableMoves b = pre ++ m0 :: post
    /\ score_of (minimax n (place b m0 O) false) = Fin 10
    /\ (forall m, In m pre ->
          score_of (minimax n (place b m O) false) <> Fin 10)
    /\ minimax (S n) b true = mkScored (Fin 10) m0.
Proof.
  intros Hw Hc.
  pose (f := fun m => score_of (minimax n (place b m O) false)).
  assert (Hfc : f c = Fin 10) by (apply minimax_won, place_wins; assumption).
  destruct (first_with (fun m => f m = Fin 10) (fun m => decide (f m = Fin 10))
              (getAvailableMoves b) c (proj1 Hc) Hfc)
    as (pre & m0 & post & E & Hm0 & Hpre).
  exists pre, m0, post. repeat split; try assumption.
  rewrite minimax_eq, Hw, (isDraw_available b c (proj1 Hc)), E.
  apply (loop_max_first f); try assumption.
  - intros m. apply minimax_terminal.
  - discriminate.
  - right. reflexivity.
Qed.

End Minimax.

(** ** Progression ladder *)
Section ProgressionLadder.
Import Double Progression.

Lemma inject_Z_nonzero (z : Z) : z <> 0 -> ~ (inject_Z z == 0)%Q.
Proof.
  intros Hz H. apply Hz. unfold Qeq, inject_Z in H. simpl in H. lia.
Qed.

Lemma Math_round_ratio (n span : Z) :
  0 < span ->
  Math_round (100 * inject_Z n / inject_Z span)%Q
  = (200 * n + span) / (2 * span).
Proof.
  intros Hs. unfold Math_round. rewrite Zdiv_Qdiv. apply Qfloor_comp.
  rewrite inject_Z_plus, !inject_Z_mult.
  change (inject_Z 200) with 200%Q. change (inject_Z 2) with 2%Q.
  field. apply inject_Z_nonzero. lia.
Qed.

Lemma stageHolds_negative (points : Z) (s : StageDef) :
  points < 0 -> In s STAGES -> stageHolds points s = false.
Proof.
  intros Hp Hin. unfold stageHolds.
  assert (Hmin : 0 <= min s).
  { simpl in Hin.
    repeat (destruct Hin as [<-|Hin]; [simpl; lia|]). destruct Hin. }
  apply andb_false_iff. left. apply Z.leb_gt. lia.
Qed.

Lemma clampPercent_range (x : float64) : 0 <= clampPercent x <= 100.
Proof.
  destruct x as [s|s| |s m e]; cbn [clampPercent]; try lia.
  destruct s; lia.
Qed.

(** The percentage along every capped stage of the table, by evaluation of
    the binary64 operations at each number of points into the stage. *)
Lemma percentAlong_spans : forallb percentAlong spans = true.
Proof. vm_compute. reflexivity. Qed.

Lemma STAGES_span (s : StageDef) (mx : Z) :
  In s STAGES -> max s = Some mx -> In (mx - min s) spans /\ 0 < mx - min s.
Proof.
  intros Hin Hmx. cbn [In STAGES] in Hin.
  repeat (destruct Hin as [<-|Hin];
          [first [discriminate Hmx
                 |injection Hmx as <-; split; [vm_compute; tauto|cbn; lia]]|]).
  destruct Hin.
Qed.

Lemma percentOfSpan_integer (points mn mx : Z) :
  mn < mx ->
  percentOfSpan points mn mx
  = Z.max 0 (Z.min 100 ((200 * (points - mn) + (mx - mn)) / (2 * (mx - mn)))).
Proof.
  intros Hlt. unfold percentOfSpan. rewrite Math_round_ratio by lia.
  reflexivity.
Qed.

Lemma percentOfSpan_within (points mn mx : Z) :
  mn < mx -> mn <= points <= mx ->
  percentOfSpan points mn mx
  = (200 * (points - mn) + (mx - mn)) / (2 * (mx - mn))
  /\ 0 <= percentOfSpan points mn mx <= 100.
Proof.
  intros Hlt Hrange. rewrite percentOfSpan_integer by exact Hlt.
  set (n := points - mn). set (span := mx - mn).
  assert (0 <= n <= span) by (unfold n, span; lia).
  assert (0 < span) by (unfold span; lia).
  assert (0 <= (200 * n + span) / (2 * span)) by (apply Z.div_pos; lia).
  assert ((200 * n + span) / (2 * span) <= 100).
  { assert ((200 * n + span) / (2 * span) < 101); [|lia].
    apply Z.div_lt_upper_bound; lia. }
  lia.
Qed.

(** The exact percentage less one at the four halves does not decrease from
    one number of points to the next. *)
Lemma percentOfSpan_step (points mn mx : Z) :
  mn <= points -> points < mx ->
  percentOfSpan points mn mx - (if halfBelow points mn mx then 1 else 0)
  <= percentOfSpan (points + 1) mn mx
     - (if halfBelow (points + 1) mn mx then 1 else 0).
Proof.
  intros Hmn Hmx.
  destruct (percentOfSpan_within points mn mx ltac:(lia) ltac:(lia))
    as [-> _].
  destruct (percentOfSpan_within (points + 1) mn mx ltac:(lia) ltac:(lia))
    as [-> _].
  replace (points + 1 - mn) with (points - mn + 1) by lia.
  set (n := points - mn). set (span := mx - mn).
  assert (Hn : 0 <= n < span) by (unfold n, span; lia).
  assert (Hmono : (200 * n + span) / (2 * span)
                  <= (200 * (n + 1) + span) / (2 * span))
    by (apply Z.div_le_mono; lia).
  assert (Hhalf : forall k h,
             200 * (n + 1) = (2 * h - 1) * span -> k = 2 * h - 1 ->
             (200 * n + span) / (2 * span) <= h - 1
             /\ (200 * (n + 1) + span) / (2 * span) = h).
  { intros k h E _. split.
    - assert ((200 * n + span) / (2 * span) < h); [|lia].
      apply Z.div_lt_upper_bound; lia.
    - replace (200 * (n + 1) + span) with (h * (2 * span)) by lia.
      apply Z.div_mul. lia. }
  destruct (halfBelow (points + 1) mn mx) eqn:Hnext.
  - unfold halfBelow in Hnext. cbn [existsb] in Hnext.
    replace (points + 1 - mn) with (n + 1) in Hnext by (unfold n; lia).
    fold span in Hnext.
    rewrite !orb_true_iff, !Z.eqb_eq in Hnext.
    destruct Hnext as [E|[E|[E|[E|Hf]]]].
    + destruct (Hhalf 29 15 ltac:(lia) eq_refl) as [H1 ->].
      destruct (halfBelow points mn mx); lia.
    + destruct (Hhalf 57 29 ltac:(lia) eq_refl) as [H1 ->].
      destruct (halfBelow points mn mx); lia.
    + destruct (Hhalf 113 57 ltac:(lia) eq_refl) as [H1 ->].
      destruct (halfBelow points mn mx); lia.
    + destruct (Hhalf 115 58 ltac:(lia) eq_refl) as [H1 ->].
      destruct (halfBelow points mn mx); lia.
    + discriminate Hf.
  - destruct (halfBelow points mn mx); lia.
Qed.

Lemma stage_percent_at (s : StageDef) (mx points : Z) :
  In s STAGES -> max s = Some mx -> min s <= points <= mx ->
  getProgressPercent points s
  = percentOfSpan points (min s) mx
    - (if halfBelow points (min s) mx then 1 else 0).
Proof.
  intros Hin Hmx Hrange.
  destruct (STAGES_span s mx Hin Hmx) as [Hspan Hpos].
  pose proof percentAlong_spans as Hall.
  rewrite forallb_forall in Hall. specialize (Hall _ Hspan).
  unfold percentAlong in Hall. rewrite forallb_forall in Hall.
  specialize (Hall (Z.to_nat (points - min s))).
  rewrite Z2Nat.id in Hall by lia.
  assert (Hseq : In (Z.to_nat (points - min s))
                   (seq 0 (S (Z.to_nat (mx - min s)))))
    by (apply in_seq; lia).
  apply Hall in Hseq. clear Hall.
  apply Z.eqb_eq in Hseq.
  unfold getProgressPercent. rewrite Hmx.
  replace (Z.max 0 (points - min s)) with (points - min s) by lia.
  rewrite Hseq. unfold percentOfSpan, halfBelow.
  rewrite !Z.sub_0_r. reflexivity.
Qed.

Lemma stage_percent (s : StageDef) (mx points : Z) :
  In s STAGES -> max s = Some mx -> min s <= points <= mx ->
  getProgressPercent points s
  = percentOfSpan points (min s) mx
    - (if halfBelow points (min s) mx then 1 else 0)
  /\ (points < mx ->
      getProgressPercent points s <= getProgressPercent (points + 1) s).
Proof.
  intros Hin Hmx Hrange. split.
  - apply stage_percent_at; assumption.
  - intros Hlt.
    rewrite (stage_percent_at s mx points Hin Hmx Hrange).
    rewrite (stage_percent_at s mx (points + 1) Hin Hmx ltac:(lia)).
    apply percentOfSpan_step; lia.
Qed.

Lemma stage_percent_start (s : StageDef) (mx points : Z) :
  In s STAGES -> max s = Some mx -> points <= min s ->
  getProgressPercent points s = 0.
Proof.
  intros Hin Hmx Hle.
  destruct (STAGES_span s mx Hin Hmx) as [_ Hpos].
  assert (E : getProgressPercent points s = getProgressPercent (min s) s).
  { unfold getProgressPercent. rewrite Hmx.
    replace (Z.max 0 (points - min s)) with 0 by lia.
    replace (Z.max 0 (min s - min s)) with 0 by lia. reflexivity. }
  rewrite E.
  rewrite (proj1 (stage_percent s mx (min s) Hin Hmx ltac:(lia))).
  rewrite percentOfSpan_integer by lia. unfold halfBelow.
  rewrite Z.sub_diag. cbn [existsb Z.mul].
  assert (Hk : forall k, 0 < k -> (0 =? k * (mx - min s)) = false)
    by (intros k Hk; apply Z.eqb_neq; nia).
  rewrite !Hk by lia. cbn [orb].
  rewrite Z.mul_0_r, Z.add_0_l, Z.div_small by lia. reflexivity.
Qed.




(** C9. For every negative point total [findStageForPoints] returns the
    final stage, Master 3 with minimum 18000: no stage of the table holds a
    negative value, and the fallback takes the last entry.  Zero points are
    Beginner 1. *)
Theorem findStageForPoints_negative (points : Z) (Hneg : points < 0) :
  findStageForPoints points = master3
  /\ label (findStageForPoints points) = "Master 3"
  /\ min (findStageForPoints points) = 18000
  /\ (forall s, In s STAGES -> stageHolds points s = false)
  /\ findStageForPoints 0 = beginner1.
Proof.
  assert (Hnone : forall s, In s STAGES -> stageHolds points s = false)
    by (intros s; apply stageHolds_negative; exact Hneg).
  assert (E : findStageForPoints points = master3).
  { unfold findStageForPoints.
    destruct (find (stageHolds points) STAGES) as [s|] eqn:F; [|reflexivity].
    apply find_some in F as [Hin Hs]. rewrite (Hnone s Hin) in Hs.
    discriminate Hs. }
  rewrite E. repeat split; auto.
Qed.

Lemma findStageForPoints_negative_witness :
  findStageForPoints (-1) = master3.
Proof. apply (findStageForPoints_negative (-1)). lia. Defined.

End ProgressionLadder.

(** ** Progression service *)
Section ApplyGameResult.
Import Progression UserModel ProgressionService.

(** C10. When the stored [currentSkill] label of an existing user is absent,
    [applyGameResult] reports [leveledUp = true], whatever the outcome: the
    previous label is [null], the new stage has a label, and the two differ.
    The level-up time is stamped and the new label stored. *)
Theorem applyGameResult_unlabelled_levels_up
    (users : Users) (userId : string) (user : IUser) (outcome : Outcome)
    (now : Z)
    (Huser : users !! userId = Some user)
    (Hlabel : currentSkill user ≫= sk_label = None) :
  let out := applyGameResult users userId outcome now in
  let newPoints := default 0 (skillPoints user) + POINT_REWARDS outcome in
  updated (snd out) = true
  /\ leveledUp (snd out) = true
  /\ previousSkill (snd out) = None
  /\ newSkillPoints (snd out) = Some newPoints
  /\ exists user',
       fst out !! userId = Some user'
       /\ currentSkillAchievedAt user' = Some now
       /\ currentSkill user' ≫= sk_label
          = Some (label (findStageForPoints newPoints)).
Proof.
  unfold applyGameResult. rewrite Huser, Hlabel. simpl.
  repeat split. eexists. split; [apply lookup_insert_eq|].
  simpl. split; reflexivity.
Qed.

Lemma applyGameResult_unlabelled_levels_up_witness :
  leveledUp (snd (applyGameResult {[ "u1" := newUser "ann@example.org" ]}
                    "u1" lose 1000)) = true.
Proof.
  apply (applyGameResult_unlabelled_levels_up
           {[ "u1" := newUser "ann@example.org" ]} "u1"
           (newUser "ann@example.org") lose 1000).
  - reflexivity.
  - reflexivity.
Defined.

End ApplyGameResult.

(** ** Achievement service *)
Section Unlocking.
Import UserModel Achievements AchievementService.

Variables (user : IUser) (userId : string).

Lemma find_append {A} (f : A -> bool) (l l' : list A) :
  find f (l ++ l') = match find f l with Some x => Some x | None => find f l' end.
Proof.
  induction l as [|y l IH]; simpl; [reflexivity|].
  destruct (f y); auto.
Qed.

Lemma find_app_l {A} (f : A -> bool) (l l' : list A) (x : A) :
  find f l = Some x -> find f (l ++ l') = Some x.
Proof. intros H. rewrite find_append, H. reflexivity. Qed.

Lemma findOne_None (store : UserAchievements) (achId : string) :
  findOne store userId achId = None <->
  ~ In (userId, achId) (map keyOf store).
Proof.
  unfold findOne. induction store as [|a store IH]; simpl; [tauto|].
  unfold matches at 1, keyOf at 1.
  destruct (bool_decide (ua_userId a = userId)) eqn:E1;
    destruct (bool_decide (achievementId a = achId)) eqn:E2; simpl;
    try apply bool_decide_eq_true in E1; try apply bool_decide_eq_true in E2;
    try apply bool_decide_eq_false in E1; try apply bool_decide_eq_false in E2.
  - subst. split; [discriminate|]. intros H. destruct H. left. reflexivity.
  - rewrite IH. split; [|tauto]. intros H [[= ? ?]|Hin]; tauto.
  - rewrite IH. split; [|tauto]. intros H [[= ? ?]|Hin]; tauto.
  - rewrite IH. split; [|tauto]. intros H [[= ? ?]|Hin]; tauto.
Qed.

Lemma unlockStep_grows (now : Z) (st : UserAchievements * list Unlocked)
    (d : AchievementDef) (achId : string) :
  is_Some (findOne (fst st) userId achId) ->
  is_Some (findOne (fst (unlockStep user userId now st d)) userId achId).
Proof.
  destruct st as [store new]. unfold unlockStep. simpl.
  destruct (findOne store userId (id d)); [tauto|].
  destruct (condition d user); [|tauto]. simpl.
  intros [x Hx]. exists x. apply find_app_l. exact Hx.
Qed.

Lemma unlock_grows (now : Z) (defs : list AchievementDef)
    (st : UserAchievements * list Unlocked) (achId : string) :
  is_Some (findOne (fst st) userId achId) ->
  is_Some (findOne (fst (fold_left (unlockStep user userId now) defs st))
             userId achId).
Proof.
  revert st. induction defs as [|d defs IH]; intros st H; simpl; [exact H|].
  apply IH, unlockStep_grows, H.
Qed.

Lemma unlockStep_settles (now : Z) (st : UserAchievements * list Unlocked)
    (d : AchievementDef) :
  is_Some (findOne (fst (unlockStep user userId now st d)) userId (id d))
  \/ condition d user = false.
Proof.
  destruct st as [store new]. unfold unlockStep. simpl.
  destruct (findOne store userId (id d)) as [x|] eqn:F.
  - left. simpl. rewrite F. eauto.
  - destruct (condition d user); [|right; reflexivity].
    left. simpl. unfold findOne. rewrite find_append.
    fold (findOne store userId (id d)). rewrite F. simpl.
    unfold matches. simpl. rewrite !bool_decide_eq_true_2 by reflexivity.
    simpl. eauto.
Qed.

Lemma unlock_settles (now : Z) (defs : list AchievementDef)
    (st : UserAchievements * list Unlocked) (d : AchievementDef) :
  In d defs ->
  is_Some (findOne (fst (fold_left (unlockStep user userId now) defs st))
             userId (id d))
  \/ condition d user = false.
Proof.
  revert st. induction defs as [|d0 defs IH]; intros st Hin; [destruct Hin|].
  simpl. destruct Hin as [->|Hin]; [|apply IH, Hin].
  destruct (unlockStep_settles now st d) as [H|H]; [|right; exact H].
  left. apply unlock_grows, H.
Qed.

Lemma unlock_idle (now : Z) (defs : list AchievementDef)
    (st : UserAchievements * list Unlocked) :
  (forall d, In d defs ->
     is_Some (findOne (fst st) userId (id d)) \/ condition d user = false) ->
  fold_left (unlockStep user userId now) defs st = st.
Proof.
  induction defs as [|d defs IH]; intros H; simpl; [reflexivity|].
  assert (E : unlockStep user userId now st d = st).
  { destruct st as [store new]. unfold unlockStep.
    destruct (H d (or_introl eq_refl)) as [[x Hx]|Hc]; simpl in *.
    - rewrite Hx. reflexivity.
    - rewrite Hc. destruct (findOne store userId (id d)); reflexivity. }
  rewrite E. apply IH. intros d' Hd'. apply H. right. exact Hd'.
Qed.

Lemma unlockStep_added (now : Z) (store : UserAchievements)
    (st : UserAchievements * list Unlocked) (d : AchievementDef) :
  addedBy userId store (fst st) (snd st) ->
  addedBy userId store (fst (unlockStep user userId now st d))
    (snd (unlockStep user userId now st d)).
Proof.
  destruct st as [cur new]. unfold unlockStep. simpl.
  destruct (findOne cur userId (id d)) eqn:F; [tauto|].
  destruct (condition d user); [|tauto]. simpl.
  intros (created & -> & -> & Hc).
  exists (created ++ [mkUserAchievement userId (id d) now false None]).
  rewrite app_assoc, map_app. repeat split; try reflexivity.
  - apply in_app_or in H as [H|[<-|[]]]; [apply (Hc a H)|reflexivity].
  - apply in_app_or in H as [H|[<-|[]]]; [apply (Hc a H)|]. simpl.
    unfold findOne in *. rewrite find_append in F.
    destruct (find (matches userId (id d)) store); [discriminate F|reflexivity].
Qed.

Lemma unlock_added (now : Z) (store : UserAchievements)
    (defs : list AchievementDef) (st : UserAchievements * list Unlocked) :
  addedBy userId store (fst st) (snd st) ->
  addedBy userId store (fst (fold_left (unlockStep user userId now) defs st))
    (snd (fold_left (unlockStep user userId now) defs st)).
Proof.
  revert st. induction defs as [|d defs IH]; intros st H; simpl; [exact H|].
  apply IH, unlockStep_added, H.
Qed.

Lemma unlockStep_NoDup (now : Z) (st : UserAchievements * list Unlocked)
    (d : AchievementDef) :
  NoDup (map keyOf (fst st)) ->
  NoDup (map keyOf (fst (unlockStep user userId now st d))).
Proof.
  destruct st as [cur new]. unfold unlockStep. simpl.
  destruct (findOne cur userId (id d)) eqn:F; [tauto|].
  destruct (condition d user); [|tauto]. simpl.
  intros Hnd. rewrite map_app. apply NoDup_app. split; [exact Hnd|].
  split; [|apply NoDup_singleton].
  intros k Hk Hk'. apply list_elem_of_In in Hk, Hk'.
  destruct Hk' as [<-|[]]. apply findOne_None in F. exact (F Hk).
Qed.

Lemma unlock_NoDup (now : Z) (defs : list AchievementDef)
    (st : UserAchievements * list Unlocked) :
  NoDup (map keyOf (fst st)) ->
  NoDup (map keyOf (fst (fold_left (unlockStep user userId now) defs st))).
Proof.
  revert st. induction defs as [|d defs IH]; intros st H; simpl; [exact H|].
  apply IH, unlockStep_NoDup, H.
Qed.

End Unlocking.

Section RecordCounts.
Import AchievementService.

Lemma recordsOf_app (l l' : UserAchievements) (userId achId : string) :
  recordsOf (l ++ l') userId achId
  = (recordsOf l userId achId + recordsOf l' userId achId)%nat.
Proof. unfold recordsOf. rewrite List.filter_app, length_app. reflexivity. Qed.

Lemma recordsOf_none (l : UserAchievements) (userId achId : string) :
  findOne l userId achId = None -> recordsOf l userId achId = 0%nat.
Proof.
  unfold findOne, recordsOf. induction l as [|a l IH]; simpl; [reflexivity|].
  destruct (matches userId achId a); [discriminate|exact IH].
Qed.

Lemma recordsOf_some (l : UserAchievements) (userId achId : string) :
  is_Some (findOne l userId achId) -> (1 <= recordsOf l userId achId)%nat.
Proof.
  unfold findOne, recordsOf. induction l as [|a l IH]; simpl.
  - intros [x Hx]. discriminate Hx.
  - destruct (matches userId achId a); simpl; [lia|exact IH].
Qed.

Lemma recordsOf_NoDup (l : UserAchievements) (userId achId : string) :
  NoDup (map keyOf l) -> (recordsOf l userId achId <= 1)%nat.
Proof.
  unfold recordsOf. induction l as [|a l IH]; simpl; [lia|].
  intros Hnd. apply NoDup_cons in Hnd as [Hnot Hnd].
  destruct (matches userId achId a) eqn:M; [|exact (IH Hnd)].
  simpl. apply andb_true_iff in M as [M1 M2].
  apply bool_decide_eq_true in M1, M2.
  assert (E : findOne l userId achId = None).
  { apply findOne_None. intros Hin. apply Hnot, list_elem_of_In.
    unfold keyOf at 1. rewrite M1, M2. exact Hin. }
  apply recordsOf_none in E. unfold recordsOf in E. rewrite E. lia.
Qed.

Lemma reportsOf_created (created : UserAchievements) (userId achId : string) :
  (forall a, In a created -> ua_userId a = userId) ->
  reportsOf (map (fun a => mkUnlocked (achievementId a) (unlockedAt a)) created)
    achId
  = recordsOf created userId achId.
Proof.
  unfold reportsOf, recordsOf. induction created as [|a l IH]; intros H; simpl;
    [reflexivity|].
  unfold matches at 1. rewrite (bool_decide_eq_true_2 (ua_userId a = userId))
    by (apply H; left; reflexivity).
  simpl. destruct (bool_decide (achievementId a = achId)); simpl;
    rewrite IH; auto; intros; apply H; right; assumption.
Qed.

End RecordCounts.

Section Idempotence.
Import UserModel Achievements AchievementService.

(** C6. [checkAndUnlockAchievements] keeps at most one record per
    (user, achievement) pair; what it adds are records of that user for
    achievements that had none, reported one for one, so an achievement
    already unlocked is neither re-created nor reported; a second call in
    succession returns the empty list and leaves the collection as it is;
    and an achievement whose condition the user's stats satisfy has exactly
    one record after the first call and after the second, reported once by
    the first call when it was not unlocked before. *)
Theorem checkAndUnlockAchievements_idempotent
    (users : Users) (store : UserAchievements) (userId : string)
    (now now' : Z) :
  let first := checkAndUnlockAchievements users store userId now in
  let second := checkAndUnlockAchievements users (fst first) userId now' in
  (NoDup (map keyOf store) -> NoDup (map keyOf (fst first)))
  /\ addedBy userId store (fst first) (snd first)
  /\ second = (fst first, [])
  /\ (forall user d,
        users !! userId = Some user -> In d ACHIEVEMENTS ->
        condition d user = true -> NoDup (map keyOf store) ->
        recordsOf (fst first) userId (id d) = 1%nat
        /\ recordsOf (fst second) userId (id d) = 1%nat
        /\ (findOne store userId (id d) = None ->
            reportsOf (snd first) (id d) = 1%nat
            /\ reportsOf (snd second) (id d) = 0%nat)).
Proof.
  intros first second.
  assert (Hadd : addedBy userId store (fst first) (snd first)).
  { unfold first, checkAndUnlockAchievements, checkAndUnlockIn.
    destruct (users !! userId) as [user|].
    - apply unlock_added. exists []. simpl. rewrite app_nil_r. tauto.
    - exists []. simpl. rewrite app_nil_r. tauto. }
  assert (Hnd : NoDup (map keyOf store) -> NoDup (map keyOf (fst first))).
  { unfold first, checkAndUnlockAchievements, checkAndUnlockIn.
    destruct (users !! userId) as [user|]; [|tauto].
    intros H. apply unlock_NoDup. exact H. }
  assert (Hsettled : forall user d, users !! userId = Some user ->
            In d ACHIEVEMENTS ->
            is_Some (findOne (fst first) userId (id d))
            \/ condition d user = false).
  { intros user d Hu Hd.
    unfold first, checkAndUnlockAchievements, checkAndUnlockIn. rewrite Hu.
    apply unlock_settles, Hd. }
  assert (Hsecond : second = (fst first, [])).
  { unfold second, checkAndUnlockAchievements, checkAndUnlockIn.
    destruct (users !! userId) as [user|] eqn:Hu; [|reflexivity].
    apply unlock_idle. intros d Hd. exact (Hsettled user d eq_refl Hd). }
  split; [exact Hnd|]. split; [exact Hadd|]. split; [exact Hsecond|].
  intros user d Hu Hd Hcond Hstore.
  pose proof (recordsOf_NoDup _ userId (id d) (Hnd Hstore)) as Hle.
  destruct (Hsettled user d Hu Hd) as [Hs|Hc]; [|congruence].
  apply recordsOf_some in Hs.
  split; [lia|]. split; [rewrite Hsecond; simpl; lia|].
  intros Hfresh. split; [|rewrite Hsecond; reflexivity].
  destruct Hadd as (created & E & -> & Hc').
  rewrite (reportsOf_created created userId) by (intros a Ha; apply Hc', Ha).
  rewrite E, recordsOf_app in Hs, Hle.
  rewrite (recordsOf_none store) in Hs, Hle by assumption. lia.
Qed.

Lemma checkAndUnlockAchievements_idempotent_witness :
  NoDup (map keyOf
           (fst (checkAndUnlockAchievements {[ "u1" := winner1 ]} [] "u1" 1000)))
  /\ recordsOf
       (fst (checkAndUnlockAchievements {[ "u1" := winner1 ]} [] "u1" 1000))
       "u1" "FIRST_WIN" = 1%nat
  /\ reportsOf
       (snd (checkAndUnlockAchievements {[ "u1" := winner1 ]} [] "u1" 1000))
       "FIRST_WIN" = 1%nat.
Proof.
  pose proof (checkAndUnlockAchievements_idempotent
                {[ "u1" := winner1 ]} [] "u1" 1000 2000) as (Hnd & _ & _ & H).
  split; [exact (Hnd NoDup_nil_2)|].
  specialize (H winner1 firstWin). simpl in H.
  specialize (H eq_refl (or_introl eq_refl) eq_refl NoDup_nil_2).
  destruct H as (H1 & _ & H3). split; [exact H1|].
  exact (proj1 (H3 eq_refl)).
Defined.

End Idempotence.

(** ** Recommendation cache *)
Section Polling.
Import RecommendationService.

Variable w : Surroundings.

Lemma polls_slept (k : nat) : slept (polls k) = 1000 * Z.of_nat k.
Proof. induction k as [|k IH]; [reflexivity|]. simpl slept. lia. Qed.

Lemma polls_no_upsert (k : nat) (expires : Z) :
  ~ In (UpsertProcessing expires) (polls k).
Proof.
  induction k as [|k IH]; simpl; [tauto|].
  intros [H|[H|H]]; [discriminate H|discriminate H|exact (IH H)].
Qed.

Lemma waitLoop_total (n k fuel : nat) :
  (k + n = 30)%nat -> (n < fuel)%nat ->
  exists r m, waitLoop w fuel (1000 * Z.of_nat k) k = (Done r, polls m)
              /\ (m <= n)%nat.
Proof.
  revert k fuel. induction n as [|n IH]; intros k fuel Hk Hfuel.
  - exists None, 0%nat. split; [|lia].
    destruct fuel; simpl;
      (replace (1000 * Z.of_nat k <? maxWaitTime) with false;
       [reflexivity|symmetry; apply Z.ltb_ge; unfold maxWaitTime; lia]).
  - destruct fuel as [|fuel]; [lia|]. simpl.
    replace (1000 * Z.of_nat k <? maxWaitTime) with true
      by (symmetry; apply Z.ltb_lt; unfold maxWaitTime; lia).
    destruct (polled w k) as [cache|]; [|exists None, 1%nat; split; [reflexivity|lia]].
    destruct (fresh cache (clock w k));
      [eexists _, 1%nat; split; [reflexivity|lia]|].
    destruct (bool_decide (status cache = failed));
      [exists None, 1%nat; split; [reflexivity|lia]|].
    destruct (IH (S k) fuel ltac:(lia) ltac:(lia)) as (r & m & E & Hm).
    replace (1000 * Z.of_nat k + pollInterval) with (1000 * Z.of_nat (S k))
      by (unfold pollInterval; lia).
    rewrite E. exists r, (S m). split; [reflexivity|lia].
Qed.

Lemma waitLoop_stalls (n k fuel : nat) :
  (k + n = 30)%nat -> (n < fuel)%nat ->
  (forall j, (k <= j < 30)%nat -> keepsWaiting w j) ->
  waitLoop w fuel (1000 * Z.of_nat k) k = (Done None, polls n).
Proof.
  revert k fuel. induction n as [|n IH]; intros k fuel Hk Hfuel Hwait.
  - destruct fuel; simpl;
      (replace (1000 * Z.of_nat k <? maxWaitTime) with false;
       [reflexivity|symmetry; apply Z.ltb_ge; unfold maxWaitTime; lia]).
  - destruct fuel as [|fuel]; [lia|]. simpl.
    replace (1000 * Z.of_nat k <? maxWaitTime) with true
      by (symmetry; apply Z.ltb_lt; unfold maxWaitTime; lia).
    destruct (Hwait k ltac:(lia)) as (cache & -> & -> & Hnf).
    rewrite bool_decide_eq_false_2 by exact Hnf.
    replace (1000 * Z.of_nat k + pollInterval) with (1000 * Z.of_nat (S k))
      by (unfold pollInterval; lia).
    rewrite (IH (S k) fuel) by (try lia; intros j Hj; apply Hwait; lia).
    reflexivity.
Qed.

Lemma waitLoop_completes (n k fuel : nat) (row : IRecommendationCache) :
  (k + n < 30)%nat -> (30 - k < fuel)%nat ->
  (forall j, (k <= j < k + n)%nat -> keepsWaiting w j) ->
  polled w (k + n) = Some row ->
  fresh row (clock w (k + n)) = true ->
  waitLoop w fuel (1000 * Z.of_nat k) k
  = (Done (Some (recommendations row)), polls (S n)).
Proof.
  revert k fuel. induction n as [|n IH]; intros k fuel Hk Hfuel Hwait Hrow Hfresh;
    (destruct fuel as [|fuel]; [lia|]); simpl;
    (replace (1000 * Z.of_nat k <? maxWaitTime) with true
      by (symmetry; apply Z.ltb_lt; unfold maxWaitTime; lia)).
  - rewrite Nat.add_0_r in Hrow, Hfresh. rewrite Hrow, Hfresh. reflexivity.
  - destruct (Hwait k ltac:(lia)) as (cache & -> & -> & Hnf).
    rewrite bool_decide_eq_false_2 by exact Hnf.
    replace (1000 * Z.of_nat k + pollInterval) with (1000 * Z.of_nat (S k))
      by (unfold pollInterval; lia).
    replace (k + S n)%nat with (S k + n)%nat in Hrow, Hfresh by lia.
    rewrite (IH (S k) fuel) by (try lia; try assumption;
                                intros j Hj; apply Hwait; lia).
    reflexivity.
Qed.

Lemma processing_keepsWaiting (j : nat) (row : IRecommendationCache) :
  polled w j = Some row -> status row = processing -> keepsWaiting w j.
Proof.
  intros Hrow Hst. exists row. split; [exact Hrow|].
  unfold fresh. rewrite Hst. split; [reflexivity|discriminate].
Qed.

End Polling.

Section RecommendationClaims.
Import RecommendationService.

Lemma generate_regenerates (w : Surroundings) : regenerates (snd (generate w)).
Proof.
  exists (later w + day). unfold generate.
  destruct (games w); [left; reflexivity|].
  destruct (gemini w); left; reflexivity.
Qed.

(** C8 (as amended). With the user's cache row in [processing],
    [generateRecommendations] polls the row once per second, at most 30
    times.  If a poll within the window finds the row completed with an
    unexpired [expiresAt], the row's recommendations are returned and no
    generation is started.  If the row is still [processing] at all 30 polls,
    [waitForProcessing] returns [null] and [generateRecommendations] falls
    through to a new generation: it upserts the row to [processing] and
    returns what the generation yields. *)
Theorem generateRecommendations_waits_then_regenerates
    (w : Surroundings) (cache : IRecommendationCache)
    (Hrow : existingCache w = Some cache)
    (Hprocessing : status cache = processing) :
  (exists r k,
      waitForProcessing w = (Done r, polls k)
      /\ (k <= 30)%nat /\ slept (polls k) <= 30000)
  /\ (forall (k : nat) (row : IRecommendationCache),
        (k < 30)%nat ->
        (forall j, (j < k)%nat -> keepsWaiting w j) ->
        polled w k = Some row ->
        status row = completed -> expiresAt row > clock w k ->
        generateRecommendations w
        = (Done (recommendations row), FindCache :: polls (S k))
        /\ ~ regenerates (FindCache :: polls (S k)))
  /\ ((forall j, (j < 30)%nat ->
         exists row, polled w j = Some row /\ status row = processing) ->
      waitForProcessing w = (Done None, polls 30)
      /\ generateRecommendations w
         = (Done (fst (generate w)),
            (FindCache :: polls 30) ++ snd (generate w))
      /\ regenerates (snd (generate w))).
Proof.
  assert (Hstale : fresh cache (now w) = false)
    by (unfold fresh; rewrite Hprocessing; reflexivity).
  split; [|split].
  - destruct (waitLoop_total w 30 0 31 eq_refl ltac:(lia)) as (r & m & E & Hm).
    exists r, m. split; [exact E|]. split; [exact Hm|].
    rewrite polls_slept. lia.
  - intros k row Hk Hwait Hpoll Hdone Hlive.
    assert (E : waitForProcessing w
                = (Done (Some (recommendations row)), polls (S k))).
    { apply (waitLoop_completes w k 0 31 row); try assumption; try lia.
      - intros j Hj. apply Hwait. lia.
      - unfold fresh. simpl. rewrite Hdone. simpl. apply Z.gtb_lt. lia. }
    split.
    + unfold generateRecommendations.
      rewrite Hrow, Hstale, Hprocessing, E. reflexivity.
    + intros [expires [H|H]]; [discriminate H|].
      exact (polls_no_upsert (S k) expires H).
  - intros Hstall.
    assert (E : waitForProcessing w = (Done None, polls 30)).
    { apply (waitLoop_stalls w 30 0 31); try lia.
      intros j Hj. destruct (Hstall j ltac:(lia)) as (row & Hr & Hs).
      exact (processing_keepsWaiting w j row Hr Hs). }
    split; [exact E|]. split; [|apply generate_regenerates].
    unfold generateRecommendations.
    rewrite Hrow, Hstale, Hprocessing, E.
    destruct (generate w) as [recs effects]. reflexivity.
Qed.

Lemma generateRecommendations_waits_then_regenerates_witness :
  (waitForProcessing stalled = (Done None, polls 30)
   /\ regenerates (snd (generate stalled)))
  /\ generateRecommendations finishing
     = (Done (recommendations doneRow), FindCache :: polls 3).
Proof.
  split.
  - pose proof (generateRecommendations_waits_then_regenerates
                  stalled stalledRow eq_refl eq_refl) as (_ & _ & H).
    destruct H as (H1 & _ & H3).
    + intros j _. exists stalledRow. split; reflexivity.
    + split; [exact H1|exact H3].
  - pose proof (generateRecommendations_waits_then_regenerates
                  finishing stalledRow eq_refl eq_refl) as (_ & H & _).
    apply (H 2%nat doneRow).
    + lia.
    + intros j Hj. exists stalledRow.
      destruct j as [|[|j]]; [repeat split; discriminate..|lia].
    + reflexivity.
    + reflexivity.
    + reflexivity.
Defined.

(** C8, the claim as stated fails: with the row still [processing] after all
    30 polls, the request does not come back empty; it starts a generation
    of its own and returns its result, here the default recommendation. *)
Lemma generateRecommendations_stalled_counterexample :
  existingCache stalled = Some stalledRow
  /\ status stalledRow = processing
  /\ (forall j, polled stalled j = Some stalledRow)
  /\ fst (generateRecommendations stalled)
     = Done (getDefaultRecommendations 30000)
  /\ fst (generateRecommendations stalled) <> Done []
  /\ regenerates (snd (generateRecommendations stalled)).
Proof.
  repeat split.
  - discriminate.
  - exists 86430000. vm_compute. tauto.
Qed.

End RecommendationClaims.

(** ** Socket service: the timeout-forfeit pipeline *)
Section Timeout.
Import Double GameEngine GameModel UserModel AchievementService SocketService.

Lemma rollup_world (w : World) (gid : string) (game : IGame)
    (line : option (list nat)) (moveCount now : Z) :
  let out := rollup w gid game line moveCount now in
  games (fst out) = games w /\ moves (fst out) = moves w
  /\ gameTimers (fst out) = gameTimers w /\ aiTasks (fst out) = aiTasks w
  /\ pl_winningLine (snd out) = line /\ pl_result (snd out) = outcome game
  /\ pl_gameId (snd out) = gid.
Proof.
  unfold rollup. destruct (outcome game) as [o|]; [|simpl; tauto].
  destruct (updateUserStats _ _ _ _) as [us1 updatedUser].
  destruct (match updatedUser with Some _ => _ | None => _ end)
    as [store1 newAchievements].
  destruct (ProgressionService.applyGameResult _ _ _ _) as [us2 progressResult].
  simpl. tauto.
Qed.

Lemma rollup_untouched (w : World) (gid : string) (game : IGame)
    (line : option (list nat)) (moveCount now : Z) :
  outcome game = None ->
  fst (rollup w gid game line moveCount now) = w.
Proof. intros H. unfold rollup. rewrite H. reflexivity. Qed.

Lemma rollDuration_fields (now : Z) (game g : IGame) :
  let g' := rollDuration now game g in
  status g' = status g /\ outcome g' = outcome g
  /\ winningLine g' = winningLine g /\ timeoutLoser g' = timeoutLoser g
  /\ playerXTimeRemaining g' = playerXTimeRemaining g
  /\ playerOTimeRemaining g' = playerOTimeRemaining g
  /\ timerLastStartedAt g' = timerLastStartedAt g /\ user g' = user g.
Proof.
  unfold rollDuration. destruct (_ >? _); simpl; tauto.
Qed.

Lemma forfeit_fields (p : player) (now : Z) (game g : IGame) :
  let g' := forfeit p now game g in
  status g' = completed
  /\ outcome g' = Some (match p with X => lose | O => win end)
  /\ timeoutLoser g' = Some p
  /\ timerLastStartedAt g' = None
  /\ match p with
     | X => playerXTimeRemaining g' = zero
            /\ playerOTimeRemaining g' = playerOTimeRemaining g
     | O => playerOTimeRemaining g' = zero
            /\ playerXTimeRemaining g' = playerXTimeRemaining g
     end
  /\ winningLine g' = winningLine g /\ user g' = user g.
Proof.
  unfold forfeit.
  destruct (rollDuration_fields now game
              (set_timerLastStartedAt None
                 ((match p with
                   | X => set_playerXTimeRemaining zero
                   | O => set_playerOTimeRemaining zero
                   end)
                    (set_timeoutLoser (Some p)
                       (set_status completed
                          (set_outcome
                             (Some (match p with X => lose | O => win end))
                             g))))))
    as (-> & -> & -> & -> & -> & -> & -> & ->).
  destruct p; simpl; tauto.
Qed.

(** C4. When the timeout handler runs for a game that is missing or no
    longer in progress, nothing is written and nothing is emitted; only the
    timer handle of the game, already cleared on entry, is gone.  For a game
    in progress it sets the timed-out player's remaining time to 0,
    [timeoutLoser] to that player, [outcome] to [lose] when [X] timed out and
    to [win] otherwise, [status] to [completed] and [timerLastStartedAt] to
    null, leaves the other games alone, and emits [timer-update],
    [game-timeout] and then [game-end], to the game room and to the owner's
    room, with [winningLine] null. *)
Theorem handleTimeout_forfeits
    (w : World) (gid : string) (p : player) (now : Z) :
  let out := handleTimeout w gid p now in
  ((forall g, games w !! gid = Some g -> status g <> in_progress) ->
   games (fst out) = games w /\ moves (fst out) = moves w
   /\ users (fst out) = users w /\ achievements (fst out) = achievements w
   /\ aiTasks (fst out) = aiTasks w
   /\ gameTimers (fst out) = delete gid (gameTimers w)
   /\ snd out = [])
  /\ (forall g, games w !! gid = Some g -> status g = in_progress ->
      exists g' payload,
        games (fst out) !! gid = Some g'
        /\ (forall gid', gid' <> gid ->
              games (fst out) !! gid' = games w !! gid')
        /\ match p with
           | X => playerXTimeRemaining g' = zero
           | O => playerOTimeRemaining g' = zero
           end
        /\ timeoutLoser g' = Some p
        /\ outcome g' = Some (match p with X => lose | O => win end)
        /\ status g' = completed
        /\ timerLastStartedAt g' = None
        /\ pl_winningLine payload = None
        /\ pl_result payload = outcome g'
        /\ snd out
           = [ TimerUpdate gid (playerXTimeRemaining g')
                 (playerOTimeRemaining g') (Some p)
             ; GameTimeout gid (other p) p
             ; GameEnd gid payload
             ; GameEnd ("user_" +:+ user g) payload ]).
Proof.
  unfold handleTimeout. simpl. split.
  - intros Hnot. destruct (games w !! gid) as [g|] eqn:Hg; [|simpl; tauto].
    rewrite bool_decide_eq_false_2 by (apply Hnot; reflexivity).
    simpl. tauto.
  - intros g Hg Hst. rewrite Hg, bool_decide_eq_true_2 by exact Hst. simpl.
    pose proof (forfeit_fields p now g g) as F. simpl in F.
    destruct F as (Fs & Fo & Fl & Ft & Fp & Fw & Fu).
    match goal with
    | |- context [rollup ?w0 ?a ?b ?c ?d ?e] =>
        pose proof (rollup_world w0 a b c d e) as R;
        destruct (rollup w0 a b c d e) as [w' payload]
    end.
    simpl in R. destruct R as (Rg & _ & _ & _ & Rl & Rr & _).
    exists (forfeit p now g g), payload. simpl.
    rewrite Rg. unfold gameEndEvents. rewrite Fu.
    repeat split; try assumption.
    + rewrite lookup_alter_eq, Hg. reflexivity.
    + intros gid' Hne. apply lookup_alter_ne. congruence.
    + destruct p; tauto.
Qed.

Lemma handleTimeout_forfeits_witness :
  (exists g' payload,
      games (fst (handleTimeout timedWorld "g1" X 60000)) !! "g1" = Some g'
      /\ status g' = completed /\ outcome g' = Some lose
      /\ pl_winningLine payload = None)
  /\ (games (fst (handleTimeout forfeitedWorld "g1" O 70000))
      = games forfeitedWorld
      /\ snd (handleTimeout forfeitedWorld "g1" O 70000) = []).
Proof.
  split.
  - destruct (proj2 (handleTimeout_forfeits timedWorld "g1" X 60000)
                timedGame eq_refl eq_refl)
      as (g' & payload & H1 & _ & _ & _ & H5 & H6 & _ & H8 & _).
    exists g', payload. repeat split; assumption.
  - destruct (proj1 (handleTimeout_forfeits forfeitedWorld "g1" O 70000))
      as (H1 & _ & _ & _ & _ & _ & H7).
    + intros g Hg. vm_compute in Hg. injection Hg as <-. discriminate.
    + split; [exact H1|exact H7].
Defined.

End Timeout.

(** ** Socket service: the invariant of the game document *)

(** Opens the pair [rollup] returns and records what it leaves alone. *)
Ltac open_rollup R :=
  match goal with
  | |- context [SocketService.rollup ?w0 ?a ?b ?c ?d ?e] =>
      pose proof (rollup_world w0 a b c d e) as R;
      destruct (SocketService.rollup w0 a b c d e) as [? ?];
      simpl in R
  end.

(** Reduces a field of the world a handler returns, by cases on the
    conditions the handler tests on its way. *)
Ltac world_fields :=
  repeat (match goal with
          | |- context [if ?c then _ else _] => destruct c
          end;
          cbn [SocketService.games SocketService.aiTasks
               SocketService.with_tasks SocketService.scheduleTimer
               SocketService.with_timers SocketService.clearGameTimer
               SocketService.save SocketService.with_games
               SocketService.with_moves]).

Create HintDb keeps.

Section GameInvariant.
Import Double GameEngine GameModel UserModel AchievementService SocketService.

Lemma getWinningLineIn_In (lines : list (list nat)) (b : board)
    (line : list nat) :
  getWinningLineIn lines b = Some line -> In line lines.
Proof.
  induction lines as [|l lines IH]; simpl; [discriminate|].
  destruct (lineOwner b l); [intros [= ->]; left; reflexivity|].
  intros H. right. exact (IH H).
Qed.

Lemma keeps_id : keepsInvariant (fun g => g).
Proof. intros g H. exact H. Qed.

Lemma keeps_compose (f f' : IGame -> IGame) :
  keepsInvariant f -> keepsInvariant f' -> keepsInvariant (fun g => f' (f g)).
Proof. intros H H' g Hg. apply H', H, Hg. Qed.

Lemma keeps_set_duration (v : Z) : keepsInvariant (set_duration v).
Proof. intros g H. exact H. Qed.

Lemma keeps_set_playerXTimeRemaining (v : float64) :
  keepsInvariant (set_playerXTimeRemaining v).
Proof. intros g H. exact H. Qed.

Lemma keeps_set_playerOTimeRemaining (v : float64) :
  keepsInvariant (set_playerOTimeRemaining v).
Proof. intros g H. exact H. Qed.

Lemma keeps_set_timerLastStartedAt (v : option Z) :
  keepsInvariant (set_timerLastStartedAt v).
Proof. intros g H. exact H. Qed.

Lemma keeps_rollDuration (now : Z) (game : IGame) :
  keepsInvariant (rollDuration now game).
Proof.
  unfold rollDuration. destruct (_ >? _);
    [apply keeps_set_duration|apply keeps_id].
Qed.

Lemma keeps_forfeit (p : player) (now : Z) (game : IGame) :
  keepsInvariant (forfeit p now game).
Proof.
  intros g [_ Hline].
  destruct (forfeit_fields p now game g) as (Hs & Ho & _ & _ & _ & Hw & _).
  split.
  - rewrite Hs, Ho. split; [reflexivity|eauto].
  - rewrite Hw. exact Hline.
Qed.

Lemma keeps_conclude (b : board) (f : IGame -> IGame) :
  conclude b = Some f -> keepsInvariant f.
Proof.
  unfold conclude. destruct (checkWinner b) as [winner|].
  - intros [= <-] g [_ Hline].
    destruct (getWinningLine b) as [line|] eqn:E; simpl.
    + split; [split; [reflexivity|eauto]|].
      intros l [= <-]. exact (getWinningLineIn_In _ _ _ E).
    + split; [split; [reflexivity|eauto]|exact Hline].
  - destruct (isDraw b); [|discriminate].
    intros [= <-] g [_ Hline]. simpl.
    split; [split; [reflexivity|eauto]|exact Hline].
Qed.

Lemma keeps_deductTimerOnMove (game : IGame) (p : player) (now : Z) :
  keepsInvariant (fst (deductTimerOnMove game p now)).
Proof.
  unfold deductTimerOnMove. destruct (negb (timerEnabled game)); simpl;
    [apply keeps_id|].
  intros g H. destruct (_ && _), p; exact H.
Qed.

Lemma keeps_armed (enabled : bool) (now : Z) :
  keepsInvariant (if enabled then set_timerLastStartedAt (Some now)
                  else fun g => g).
Proof.
  destruct enabled; [apply keeps_set_timerLastStartedAt|apply keeps_id].
Qed.

#[local] Hint Resolve keeps_id keeps_set_duration
  keeps_set_playerXTimeRemaining keeps_set_playerOTimeRemaining
  keeps_set_timerLastStartedAt keeps_rollDuration keeps_forfeit
  keeps_deductTimerOnMove keeps_armed : keeps.

(** Splits a chain of assignments into its links. *)
Ltac keeps_chain :=
  lazymatch goal with
  | |- keepsInvariant (fun g => ?f (@?h g)) =>
      apply (keeps_compose h f); keeps_chain
  | _ => first [assumption | solve [auto with keeps] | idtac]
  end.

Lemma worldInvariant_saved (w w' : World) (f : IGame -> IGame) (gid : string) :
  worldInvariant w -> keepsInvariant f ->
  games w' = alter f gid (games w) ->
  Forall (fun task => keepsInvariant (ai_unsaved task)) (aiTasks w') ->
  worldInvariant w'.
Proof.
  intros [Hg _] Hf Eg Ht. split; [|exact Ht].
  intros gid' g. rewrite Eg.
  destruct (decide (gid = gid')) as [<-|Hne].
  - rewrite lookup_alter_eq.
    destruct (games w !! gid) as [g0|] eqn:E; [|discriminate].
    intros [= <-]. apply Hf, (Hg gid g0 E).
  - rewrite lookup_alter_ne by exact Hne. apply Hg.
Qed.

Lemma worldInvariant_tasks (w w' : World) :
  worldInvariant w -> games w' = games w ->
  Forall (fun task => keepsInvariant (ai_unsaved task)) (aiTasks w') ->
  worldInvariant w'.
Proof. intros [Hg _] Eg Ht. split; [rewrite Eg; exact Hg|exact Ht]. Qed.

Lemma tasks_snoc (tasks : list AiTask) (task : AiTask) :
  Forall (fun task => keepsInvariant (ai_unsaved task)) tasks ->
  keepsInvariant (ai_unsaved task) ->
  Forall (fun task => keepsInvariant (ai_unsaved task)) (tasks ++ [task]).
Proof.
  intros Ht Htask. apply Forall_app. split; [exact Ht|].
  constructor; [exact Htask|constructor].
Qed.

Lemma handleTimeout_invariant (w : World) (gid : string) (p : player)
    (now : Z) :
  worldInvariant w -> worldInvariant (fst (handleTimeout w gid p now)).
Proof.
  intros Hw. unfold handleTimeout. simpl.
  destruct (games w !! gid) as [g|] eqn:Hg;
    [|apply (worldInvariant_tasks w); [exact Hw|reflexivity|exact (proj2 Hw)]].
  destruct (negb _);
    [apply (worldInvariant_tasks w); [exact Hw|reflexivity|exact (proj2 Hw)]|].
  open_rollup R. destruct R as (Rg & _ & _ & Rt & _). simpl.
  apply (worldInvariant_saved w _ (forfeit p now g) gid);
    [exact Hw|apply keeps_forfeit|exact Rg|rewrite Rt; exact (proj2 Hw)].
Qed.

Lemma makeMove_invariant (w : World) (gid : string) (position : Z)
    (userId : string) (now : Z) :
  worldInvariant w ->
  worldInvariant (fst (makeMove w gid position userId now)).
Proof.
  intros Hw. unfold makeMove.
  destruct (games w !! gid) as [game0|]; [|exact Hw].
  cbv zeta.
  repeat match goal with
         | |- worldInvariant (fst (if ?c then (w, _) else _)) =>
             destruct c; [exact Hw|]
         end.
  destruct (applyMove _ _ _) as [?|]; [|exact Hw].
  destruct (deductTimerOnMove _ _ _) as [clocked timerState] eqn:Hclock.
  assert (Hkeep : keepsInvariant clocked).
  { pose proof (keeps_deductTimerOnMove
                  (rollDuration now game0 game0)
                  (turnOf (Z.of_nat (length (findMoves (moves w) gid)))) now)
      as K.
    rewrite Hclock in K. exact K. }
  match goal with
  | |- context [conclude ?b] =>
      pose proof (keeps_conclude b) as Kc;
      set (finish := conclude b) in *; clearbody finish
  end.
  set (ended := default (fun g => g) finish).
  assert (Hended : keepsInvariant ended).
  { unfold ended. destruct finish as [f|];
      [apply Kc; reflexivity|apply keeps_id]. }
  clearbody ended.
  assert (Hassigned : keepsInvariant
            (fun g => ended (clocked (rollDuration now game0 g))))
    by keeps_chain.
  destruct (bool_decide (status _ = completed)).
  - open_rollup R. destruct R as (Rg & _ & _ & Rt & _). simpl.
    eapply (worldInvariant_saved w _ _ gid);
      [exact Hw|exact Hassigned| |].
    + rewrite Rg. world_fields; reflexivity.
    + rewrite Rt. world_fields; exact (proj2 Hw).
  - match goal with
    | |- worldInvariant (fst (?w1, _)) =>
        eapply (worldInvariant_saved w w1 _ gid);
          [exact Hw|exact Hassigned| |]
    end.
    + world_fields; reflexivity.
    + world_fields;
        first [exact (proj2 Hw)
              |apply tasks_snoc; [exact (proj2 Hw)|apply keeps_id]].
Qed.

Lemma aiStart_invariant (w : World) (i : nat) (delay now : Z) :
  worldInvariant w -> worldInvariant (fst (aiStart w i delay now)).
Proof.
  intros Hw. unfold aiStart.
  destruct (aiTasks w !! i) as [task|] eqn:Htask; [|exact Hw].
  destruct (ai_thinking task); [exact Hw|].
  pose proof (Forall_lookup_1 _ _ _ _ (proj2 Hw) Htask) as Hunsaved.
  pose proof (Forall_delete _ _ i (proj2 Hw)) as Hrest.
  simpl in Hunsaved.
  set (charge := set_playerOTimeRemaining _).
  assert (Hcharged : keepsInvariant (fun g => charge (ai_unsaved task g)))
    by (unfold charge; keeps_chain).
  cbv zeta. destruct (timerEnabled (ai_game task)).
  - destruct (fleb _ zero).
    + apply handleTimeout_invariant.
      eapply (worldInvariant_saved w _ _ (ai_gameId task));
        [exact Hw|exact Hcharged|reflexivity|exact Hrest].
    + apply (worldInvariant_tasks w); [exact Hw|reflexivity|].
      apply tasks_snoc; [exact Hrest|exact Hcharged].
  - apply (worldInvariant_tasks w); [exact Hw|reflexivity|].
    apply tasks_snoc; [exact Hrest|exact Hunsaved].
Qed.

Lemma aiFinish_invariant (w : World) (i : nat) (now : Z) :
  worldInvariant w -> worldInvariant (fst (aiFinish w i now)).
Proof.
  intros Hw. unfold aiFinish.
  destruct (aiTasks w !! i) as [task|] eqn:Htask; [|exact Hw].
  destruct (negb (ai_thinking task)); [exact Hw|].
  pose proof (Forall_lookup_1 _ _ _ _ (proj2 Hw) Htask) as Hunsaved.
  pose proof (Forall_delete _ _ i (proj2 Hw)) as Hrest.
  simpl in Hunsaved. cbv zeta.
  destruct (applyMove _ _ _) as [?|];
    [|apply (worldInvariant_tasks w); [exact Hw|reflexivity|exact Hrest]].
  match goal with
  | |- context [conclude ?b] =>
      pose proof (keeps_conclude b) as Kc;
      set (finish := conclude b) in *; clearbody finish
  end.
  set (ended := match finish with
                | Some f => f
                | None => if timerEnabled (ai_game task)
                          then set_timerLastStartedAt (Some now)
                          else fun g => g
                end).
  assert (Hended : keepsInvariant ended).
  { unfold ended. destruct finish as [f|];
      [apply Kc; reflexivity|apply keeps_armed]. }
  clearbody ended.
  assert (Hassigned : keepsInvariant
            (fun g => rollDuration now (ai_game task)
                        (ended (ai_unsaved task g))))
    by keeps_chain.
  destruct (bool_decide (status _ = completed)).
  - open_rollup R. destruct R as (Rg & _ & _ & Rt & _). simpl.
    eapply (worldInvariant_saved w _ _ (ai_gameId task));
      [exact Hw|exact Hassigned| |].
    + rewrite Rg. world_fields; reflexivity.
    + rewrite Rt. world_fields; exact Hrest.
  - match goal with
    | |- worldInvariant (fst (?w1, _)) =>
        eapply (worldInvariant_saved w w1 _ (ai_gameId task));
          [exact Hw|exact Hassigned| |]
    end.
    + world_fields; reflexivity.
    + world_fields; exact Hrest.
Qed.

Lemma joinGame_invariant (w : World) (gid : string) (now : Z) :
  worldInvariant w -> worldInvariant (fst (joinGame w gid now)).
Proof.
  intros Hw. unfold joinGame.
  destruct (games w !! gid) as [game|]; [|exact Hw].
  destruct (timerLastStartedAt game); [|exact Hw].
  destruct (_ && _); [|exact Hw].
  cbv zeta. simpl. destruct (gameTimers w !! gid); [exact Hw|].
  apply (worldInvariant_tasks w); [exact Hw|reflexivity|exact (proj2 Hw)].
Qed.

Lemma step_invariant (w w' : World) :
  step w w' -> worldInvariant w -> worldInvariant w'.
Proof.
  intros Hstep Hw.
  destruct Hstep as [w gid g Hfree Hcreated| | | | | |].
  - destruct Hw as [Hg Ht]. split; [|exact Ht].
    intros gid' g'. simpl. rewrite lookup_insert.
    destruct (decide (gid = gid')) as [_|_]; [|apply Hg].
    intros [= <-]. destruct Hcreated as (Hs & Ho & Hl & _).
    split.
    + rewrite Hs, Ho. split; [intros [? ?]|]; discriminate.
    + rewrite Hl. discriminate.
  - exact Hw.
  - apply joinGame_invariant, Hw.
  - apply makeMove_invariant, Hw.
  - apply aiStart_invariant, Hw.
  - apply aiFinish_invariant, Hw.
  - apply handleTimeout_invariant, Hw.
Qed.

(** C3. In every state the service reaches by creating games and running
    its handlers (join, make-move with the deferred AI turn, timeout), each
    stored game has its [outcome] set iff its [status] is [completed], and
    its [winningLine], when present, is one of the eight rows, columns and
    diagonals. *)
Theorem reachable_gameInvariant (w : World) (gid : string) (g : IGame)
    (Hreach : reachable w) (Hgame : games w !! gid = Some g) :
  (is_Some (outcome g) <-> status g = completed)
  /\ (forall line, winningLine g = Some line -> In line winningLines).
Proof.
  assert (Hinv : worldInvariant w).
  { clear gid g Hgame. induction Hreach as [|w w' _ IH Hstep].
    - split; [|constructor]. intros gid g. simpl. rewrite lookup_empty.
      discriminate.
    - exact (step_invariant w w' Hstep IH). }
  exact (proj1 Hinv gid g Hgame).
Qed.

Lemma forfeitedWorld_reachable : reachable forfeitedWorld.
Proof.
  destruct (gameTimers joinedWorld !! "g1") as [timer|] eqn:Ht;
    [|vm_compute in Ht; discriminate Ht].
  assert (Hx : activePlayer timer = X)
    by (vm_compute in Ht; injection Ht as <-; reflexivity).
  unfold forfeitedWorld. rewrite <- Hx.
  apply (reachable_step joinedWorld); [|apply step_timeout; exact Ht].
  unfold joinedWorld.
  eapply reachable_step; [|apply step_joinGame].
  eapply reachable_step; [apply reachable_empty|].
  apply step_createGame; [reflexivity|].
  repeat split.
Defined.

Lemma reachable_gameInvariant_witness :
  (is_Some (outcome forfeitedGame) <-> status forfeitedGame = completed)
  /\ (forall line, winningLine forfeitedGame = Some line ->
                   In line winningLines).
Proof.
  apply (reachable_gameInvariant forfeitedWorld "g1" forfeitedGame).
  - exact forfeitedWorld_reachable.
  - vm_compute. reflexivity.
Defined.

End GameInvariant.

(** * Further properties of the services *)

(** ** Game engine: moves, free cells and aging *)
Section EngineMoves.
Import GameEngine.

Lemma applyMove_None (b : board) (pos : Z) (p : player) :
  applyMove b pos p = None <->
  pos < 0 \/ pos > 8 \/ b !! Z.to_nat pos <> Some None.
Proof.
  unfold applyMove, occupied.
  destruct (pos <? 0) eqn:E1; simpl.
  { apply Z.ltb_lt in E1. split; [intros _; left; exact E1|reflexivity]. }
  destruct (pos >? 8) eqn:E2; simpl.
  { rewrite Z.gtb_ltb in E2. apply Z.ltb_lt in E2.
    split; [intros _; right; left; lia|reflexivity]. }
  apply Z.ltb_ge in E1. rewrite Z.gtb_ltb in E2. apply Z.ltb_ge in E2.
  destruct (b !! Z.to_nat pos) as [[q|]|]; split; try reflexivity;
    try discriminate; try (intros _; right; right; discriminate).
  intros [H|[H|H]]; [lia|lia|destruct H; reflexivity].
Qed.

Lemma applyMove_Some (b b' : board) (pos : Z) (p : player) :
  applyMove b pos p = Some b' ->
  0 <= pos <= 8
  /\ b !! Z.to_nat pos = Some None
  /\ b' = <[Z.to_nat pos := Some p]> b.
Proof.
  unfold applyMove, occupied.
  destruct (pos <? 0) eqn:E1; simpl; [discriminate|].
  destruct (pos >? 8) eqn:E2; simpl; [discriminate|].
  apply Z.ltb_ge in E1. rewrite Z.gtb_ltb in E2. apply Z.ltb_ge in E2.
  destruct (b !! Z.to_nat pos) as [[q|]|] eqn:E; try discriminate.
  intros [= <-]. split; [lia|]. split; reflexivity.
Qed.

Lemma applyMove_is_Some (b : board) (pos : Z) (p : player) :
  length b = 9%nat ->
  is_Some (applyMove b pos p) <-> In pos (getAvailableMoves b).
Proof.
  intros Hlen. rewrite getAvailableMoves_In. split.
  - intros [b' Hb']. destruct (applyMove_Some b b' pos p Hb') as (Hr & Hc & _).
    exists (Z.to_nat pos). split; [lia|exact Hc].
  - intros (i & -> & Hi).
    destruct (applyMove b (Z.of_nat i) p) as [b'|] eqn:E; [eauto|].
    apply applyMove_None in E. rewrite Nat2Z.id in E.
    apply lookup_lt_Some in Hi as Hlt.
    destruct E as [E|[E|E]]; [lia|lia|destruct (E Hi)].
Qed.

(** X1. [applyMove] refuses a position outside 0..8 and a cell that does not
    hold the empty string, and nothing else; an accepted move yields a board
    of the same length that holds the player's symbol at the position and
    agrees with the input board everywhere else. *)
Theorem applyMove_legal (b : board) (pos : Z) (p : player) :
  (applyMove b pos p = None <->
   pos < 0 \/ pos > 8 \/ b !! Z.to_nat pos <> Some None)
  /\ (forall b', applyMove b pos p = Some b' ->
        0 <= pos <= 8
        /\ b !! Z.to_nat pos = Some None
        /\ length b' = length b
        /\ b' !! Z.to_nat pos = Some (Some p)
        /\ forall i, i <> Z.to_nat pos -> b' !! i = b !! i).
Proof.
  split; [apply applyMove_None|].
  intros b' (Hr & Hc & ->)%applyMove_Some.
  split; [exact Hr|]. split; [exact Hc|].
  split; [apply length_insert|]. split.
  - apply list_lookup_insert_eq. eapply lookup_lt_Some. exact Hc.
  - intros i Hi. apply list_lookup_insert_ne. congruence.
Qed.

Lemma applyMove_legal_witness :
  (0 <= 5 <= 8
   /\ boardColumn !! Z.to_nat 5 = Some None
   /\ length (<[5%nat := Some O]> boardColumn) = length boardColumn
   /\ <[5%nat := Some O]> boardColumn !! Z.to_nat 5 = Some (Some O)
   /\ forall i, i <> Z.to_nat 5 ->
                <[5%nat := Some O]> boardColumn !! i = boardColumn !! i)
  /\ applyMove boardColumn 4 X = None.
Proof.
  split.
  - exact (proj2 (applyMove_legal boardColumn 5 O)
             (<[5%nat := Some O]> boardColumn) eq_refl).
  - apply (proj1 (applyMove_legal boardColumn 4 X)).
    right. right. discriminate.
Defined.

Lemma getWinningLineIn_owner (lines : list (list nat)) (b : board) :
  (getWinningLineIn lines b = None <-> checkWinnerIn lines b = None)
  /\ (forall line, getWinningLineIn lines b = Some line ->
        exists pre post p,
          lines = pre ++ line :: post
          /\ checkWinnerIn lines b = Some p /\ lineOwner b line = Some p
          /\ forall l, In l pre -> lineOwner b l = None).
Proof.
  induction lines as [|l lines [IHn IHs]]; simpl.
  - split; [tauto|discriminate].
  - destruct (lineOwner b l) as [p|] eqn:E.
    + split; [split; discriminate|].
      intros line [= <-]. exists [], lines, p. repeat split; auto.
      intros ? [].
    + split; [exact IHn|].
      intros line H. destruct (IHs line H) as (pre & post & p & -> & Hw & Ho & Hp).
      exists (l :: pre), post, p. repeat split; auto.
      intros l' [<-|Hin]; auto.
Qed.

(** X2. [getWinningLine] finds a line exactly when [checkWinner] finds a
    winner, and the line it returns is the first of the eight lines that is
    filled, filled by that winner. *)
Theorem getWinningLine_checkWinner (b : board) :
  (getWinningLine b = None <-> checkWinner b = None)
  /\ (forall line, getWinningLine b = Some line ->
        exists pre post p,
          winningLines = pre ++ line :: post
          /\ checkWinner b = Some p /\ lineFilledBy b line p
          /\ forall l, In l pre -> forall q, ~ lineFilledBy b l q).
Proof.
  destruct (getWinningLineIn_owner winningLines b) as [Hn Hs].
  split; [exact Hn|]. intros line H.
  destruct (Hs line H) as (pre & post & p & E & Hw & Ho & Hp).
  pose proof winningLines_len3 as Hlen. rewrite E in Hlen.
  apply Forall_app in Hlen as [Hpre Hline].
  apply Forall_cons_1 in Hline as [Hline _].
  exists pre, post, p. split; [exact E|]. split; [exact Hw|]. split.
  - apply lineOwner_filled; assumption.
  - intros l Hl. apply lineOwner_none; [|apply Hp, Hl].
    rewrite List.Forall_forall in Hpre. apply Hpre, Hl.
Qed.

Lemma getWinningLine_checkWinner_witness :
  exists pre post p,
    winningLines = pre ++ [0; 3; 6]%nat :: post
    /\ checkWinner boardColumn = Some p
    /\ lineFilledBy boardColumn [0; 3; 6]%nat p
    /\ forall l, In l pre -> forall q, ~ lineFilledBy boardColumn l q.
Proof.
  exact (proj2 (getWinningLine_checkWinner boardColumn) [0; 3; 6]%nat eq_refl).
Defined.

(** X3. [getAvailableMoves] lists exactly the indices of the cells that hold
    the empty string, in strictly ascending order; and [isDraw] holds exactly
    when that list is empty and there is no winner. *)
Theorem getAvailableMoves_empty_cells (b : board) :
  (forall c, In c (getAvailableMoves b) <->
             exists i, c = Z.of_nat i /\ b !! i = Some None)
  /\ StronglySorted Z.lt (getAvailableMoves b)
  /\ (isDraw b = true <->
      getAvailableMoves b = [] /\ checkWinner b = None).
Proof.
  split; [intros c; apply getAvailableMoves_In|].
  split; [apply getAvailableMoves_sorted|]. split.
  - intros Hd.
    assert (Hw : checkWinner b = None).
    { unfold isDraw in Hd. apply andb_true_iff in Hd as [_ Hd].
      apply negb_true_iff, bool_decide_eq_false in Hd.
      destruct (checkWinner b); [destruct Hd; eauto|reflexivity]. }
    split; [|exact Hw].
    destruct (getAvailableMoves b) as [|c rest] eqn:E; [reflexivity|].
    rewrite (isDraw_available b c) in Hd; [discriminate Hd|].
    rewrite E. left. reflexivity.
  - intros [He Hw]. destruct (isDraw b) eqn:Hd; [reflexivity|].
    destruct (not_draw_available b Hw Hd He).
Qed.

(** X4. On a nine-cell board [applyMove] accepts a position exactly when
    [getAvailableMoves] lists it, and after an accepted move the free cells
    are the former ones without that position. *)
Theorem applyMove_available (b : board) (Hlen : length b = 9%nat)
    (pos : Z) (p : player) :
  (is_Some (applyMove b pos p) <-> In pos (getAvailableMoves b))
  /\ (forall b', applyMove b pos p = Some b' ->
        forall c, In c (getAvailableMoves b') <->
                  In c (getAvailableMoves b) /\ c <> pos).
Proof.
  split; [apply applyMove_is_Some, Hlen|].
  intros b' (Hr & Hc & ->)%applyMove_Some c.
  assert (Hlt : (Z.to_nat pos < length b)%nat)
    by (eapply lookup_lt_Some; exact Hc).
  rewrite !getAvailableMoves_In. split.
  - intros (i & -> & Hi).
    destruct (decide (i = Z.to_nat pos)) as [->|Hne].
    + rewrite list_lookup_insert_eq in Hi by exact Hlt. discriminate Hi.
    + split; [|lia]. exists i. split; [reflexivity|].
      rewrite list_lookup_insert_ne in Hi by congruence. exact Hi.
  - intros [(i & -> & Hi) Hne]. exists i. split; [reflexivity|].
    rewrite list_lookup_insert_ne by lia. exact Hi.
Qed.

Lemma applyMove_available_witness :
  is_Some (applyMove boardColumn 5 O) <-> In 5 (getAvailableMoves boardColumn).
Proof. exact (proj1 (applyMove_available boardColumn eq_refl 5 O)). Defined.

(** X5. [getAgingState] reports one cell per move that has not expired, in
    the order of the moves, with age at least 1 and [expiresIn] at least 0;
    for a move within its life span, from its own move number up to the move
    it is due to expire at, age and [expiresIn] add up to [maxAge + 1]. *)
Theorem getAgingState_ages (moves : list MoveView) (cur maxAge : Z) :
  map ac_position (getAgingState moves cur maxAge)
  = map position (List.filter (fun m => negb (expiredBy cur m)) moves)
  /\ map ac_player (getAgingState moves cur maxAge)
     = map player_of (List.filter (fun m => negb (expiredBy cur m)) moves)
  /\ Forall (fun c => 1 <= ac_age c /\ 0 <= ac_expiresIn c)
       (getAgingState moves cur maxAge)
  /\ (forall m, In m moves -> expiredBy cur m = false ->
        moveNumber m <= cur <= moveNumber m + maxAge ->
        In (mkAgingCell (position m) (player_of m)
              (cur - moveNumber m + 1) (moveNumber m + maxAge - cur))
           (getAgingState moves cur maxAge)).
Proof.
  unfold getAgingState.
  rewrite (filter_ext (isActive cur) (fun m => negb (expiredBy cur m)))
    by (intros m; apply isActive_not_expired).
  rewrite !map_map. split; [reflexivity|]. split; [reflexivity|]. split.
  - apply List.Forall_forall. intros c Hc. apply in_map_iff in Hc as (m & <- & _).
    simpl. lia.
  - intros m Hin Hact Hlife. apply in_map_iff. exists m. split.
    + f_equal; lia.
    + apply filter_In. rewrite Hact. auto.
Qed.

Lemma getAgingState_ages_witness :
  In (mkAgingCell 4 O (3 - 2 + 1) (2 + 5 - 3)) (getAgingState agingMoves 3 5).
Proof.
  apply (proj2 (proj2 (proj2 (getAgingState_ages agingMoves 3 5)))
           (mkMoveView 2 4 O None)).
  - right. left. reflexivity.
  - reflexivity.
  - simpl. lia.
Defined.

(** X6. Replaying moves and applying a move agree: a move [applyMove]
    accepts on the board replayed from a list gives the board replayed from
    the list with that move appended.  And while no move of the list has
    expired by the current move number, the aging-aware replay is the plain
    replay. *)
Theorem getBoardFromMoves_applyMove (moves : list MoveView) :
  (forall pos p b' n e,
      applyMove (getBoardFromMoves moves) pos p = Some b' ->
      b' = getBoardFromMoves (moves ++ [mkMoveView n pos p e]))
  /\ (forall cur,
        (forall m, In m moves -> expiredBy cur m = false) ->
        getActiveBoardFromMoves moves cur = getBoardFromMoves moves).
Proof.
  split.
  - intros pos p b' n e H.
    apply applyMove_Some in H as (Hr & _ & ->).
    rewrite getBoardFromMoves_snoc. simpl.
    replace (0 <=? pos) with true by (symmetry; apply Z.leb_le; lia).
    replace (pos <? 9) with true by (symmetry; apply Z.ltb_lt; lia).
    reflexivity.
  - intros cur Hall. unfold getActiveBoardFromMoves. f_equal.
    induction moves as [|m moves IH]; simpl; [reflexivity|].
    rewrite isActive_not_expired, (Hall m (or_introl eq_refl)). simpl.
    f_equal. apply IH. intros m' Hm'. apply Hall. right. exact Hm'.
Qed.

Lemma getBoardFromMoves_applyMove_witness :
  <[8%nat := Some X]> (getBoardFromMoves agingMoves)
  = getBoardFromMoves (agingMoves ++ [mkMoveView 3 8 X None])
  /\ getActiveBoardFromMoves agingMoves 2 = getBoardFromMoves agingMoves.
Proof.
  split.
  - apply (proj1 (getBoardFromMoves_applyMove agingMoves) 8 X). reflexivity.
  - apply (proj2 (getBoardFromMoves_applyMove agingMoves) 2).
    intros m [<-|[<-|[]]]; reflexivity.
Defined.

End EngineMoves.

(** ** AI opponent: the cell chosen *)
Section BestMove.
Import GameEngine AIService.

Lemma place_lookup (b : board) (i j : nat) (p : player) :
  b !! i = Some None ->
  place b (Z.of_nat i) p !! j
  = if decide (i = j) then Some (Some p) else b !! j.
Proof.
  intros Hi. unfold place. rewrite Nat2Z.id.
  destruct (decide (i = j)) as [<-|Hne].
  - apply list_lookup_insert_eq. eapply lookup_lt_Some. exact Hi.
  - apply list_lookup_insert_ne. exact Hne.
Qed.

Lemma place_filled_other (b : board) (i : nat) (p q : player)
    (line : list nat) :
  b !! i = Some None -> q <> p ->
  lineFilledBy (place b (Z.of_nat i) p) line q -> lineFilledBy b line q.
Proof.
  intros Hi Hq Hf j Hj. specialize (Hf j Hj).
  rewrite place_lookup in Hf by exact Hi.
  destruct (decide (i = j)); [congruence|exact Hf].
Qed.

Lemma place_keeps_none (b : board) (i : nat) (p : player) :
  checkWinner b = None -> b !! i = Some None ->
  (forall line, In line winningLines ->
                ~ lineFilledBy (place b (Z.of_nat i) p) line p) ->
  checkWinner (place b (Z.of_nat i) p) = None.
Proof.
  intros Hw Hi Hp.
  pose proof (proj1 (checkWinnerIn_none winningLines b winningLines_len3) Hw)
    as Hnone.
  apply checkWinnerIn_none; [apply winningLines_len3|].
  intros l Hl q Hq. destruct (decide (q = p)) as [->|Hne].
  - exact (Hp l Hl Hq).
  - exact (Hnone l Hl q (place_filled_other b i p q l Hi Hne Hq)).
Qed.

Lemma place_completes (b : board) (i : nat) (p : player) (line : list nat) :
  checkWinner b = None -> b !! i = Some None ->
  In line winningLines -> lineFilledBy (place b (Z.of_nat i) p) line p ->
  checkWinner (place b (Z.of_nat i) p) = Some p.
Proof.
  intros Hw Hi Hin Hf.
  pose proof (proj1 (checkWinnerIn_none winningLines b winningLines_len3) Hw)
    as Hnone.
  destruct (in_split _ _ Hin) as (pre & post & E).
  unfold checkWinner. rewrite E. apply checkWinnerIn_filled.
  - rewrite <- E. apply winningLines_len3.
  - exact Hf.
  - intros l Hl Hx.
    assert (Hl' : In l winningLines)
      by (rewrite E; apply in_or_app; left; exact Hl).
    apply (Hnone l Hl' (other p)).
    apply (place_filled_other b i p (other p) l Hi); [destruct p; discriminate|].
    exact Hx.
Qed.

Section LoopFacts.
Variable f : Z -> score.
Hypothesis f_terminal : forall m, terminalScore (f m).

Lemma loop_cons (isMaximizing : bool) (m : Z) (moves : list Z)
    (best : scored) :
  loop f isMaximizing (m :: moves) best
  = loop f isMaximizing moves (consider isMaximizing best m (f m)).
Proof. reflexivity. Qed.

Lemma loop_index (isMaximizing : bool) (moves : list Z) (best : scored) :
  loop f isMaximizing moves best = best
  \/ exists m, In m moves /\ loop f isMaximizing moves best = mkScored (f m) m.
Proof.
  revert best. induction moves as [|m moves IH]; intros best;
    [left; reflexivity|].
  rewrite loop_cons.
  destruct (IH (consider isMaximizing best m (f m))) as [E|(m' & Hin & E)].
  - rewrite E. unfold consider.
    destruct (isMaximizing && _);
      [right; exists m; split; [left; reflexivity|reflexivity]|].
    destruct (negb isMaximizing && _);
      [right; exists m; split; [left; reflexivity|reflexivity]|].
    left. reflexivity.
  - right. exists m'. split; [right; exact Hin|exact E].
Qed.

Lemma loop_picks (isMaximizing : bool) (moves : list Z) :
  moves <> [] ->
  exists m, In m moves
    /\ loop f isMaximizing moves
         (mkScored (if isMaximizing then NegInfinity else Infinity) (-1))
       = mkScored (f m) m.
Proof.
  intros Hne.
  destruct (loop_index isMaximizing moves
              (mkScored (if isMaximizing then NegInfinity else Infinity) (-1)))
    as [E|H]; [|exact H].
  pose proof (loop_terminal f f_terminal isMaximizing moves
                (mkScored (if isMaximizing then NegInfinity else Infinity) (-1))
                (or_intror (conj Hne eq_refl))) as T.
  rewrite E in T. simpl in T.
  destruct isMaximizing, T as [T|[T|T]]; discriminate T.
Qed.

Lemma consider_min_stable (best : scored) (m : Z) :
  score_of best = Fin (-10) -> consider false best m (f m) = best.
Proof.
  intros Hb. unfold consider. rewrite Hb.
  destruct (f_terminal m) as [E|[E|E]]; rewrite E; reflexivity.
Qed.

Lemma loop_min_stable (moves : list Z) (best : scored) :
  score_of best = Fin (-10) -> loop f false moves best = best.
Proof.
  intros Hb. induction moves as [|m moves IH]; [reflexivity|].
  rewrite loop_cons, consider_min_stable by exact Hb. exact IH.
Qed.

Lemma loop_min_bottom (moves : list Z) (best : scored) (m0 : Z) :
  In m0 moves -> f m0 = Fin (-10) ->
  terminalScore (score_of best) \/ score_of best = Infinity ->
  score_of (loop f false moves best) = Fin (-10).
Proof.
  revert best. induction moves as [|m moves IH]; intros best Hin Hm0 Hb;
    [destruct Hin|]. rewrite loop_cons.
  destruct (decide (score_of best = Fin (-10))) as [E|Hne].
  - rewrite consider_min_stable by exact E.
    rewrite loop_min_stable; assumption.
  - destruct Hin as [->|Hin].
    + replace (consider false best m0 (f m0)) with (mkScored (Fin (-10)) m0).
      * rewrite loop_min_stable; reflexivity.
      * unfold consider. rewrite Hm0.
        destruct Hb as [[B|[B|B]]|B]; rewrite B; try reflexivity.
        destruct (Hne B).
    + apply (IH _ Hin Hm0). left. apply (consider_terminal f f_terminal false).
      exact Hb.
Qed.

Lemma loop_const (c0 : Z) (rest : list Z) (s : score) :
  (forall m, In m (c0 :: rest) -> f m = s) -> terminalScore s ->
  loop f true (c0 :: rest) (mkScored NegInfinity (-1)) = mkScored s c0.
Proof.
  intros Hall Hs. rewrite loop_cons.
  replace (consider true (mkScored NegInfinity (-1)) c0 (f c0))
    with (mkScored s c0).
  - assert (Hrest : forall m, In m rest -> f m = s)
      by (intros m Hm; apply Hall; right; exact Hm).
    clear Hall. induction rest as [|m rest IH]; [reflexivity|].
    rewrite loop_cons.
    replace (consider true (mkScored s c0) m (f m)) with (mkScored s c0).
    + apply IH. intros m' Hm'. apply Hrest. right. exact Hm'.
    + unfold consider. rewrite (Hrest m (or_introl eq_refl)).
      destruct Hs as [->|[->| ->]]; reflexivity.
  - unfold consider. rewrite (Hall c0 (or_introl eq_refl)).
    destruct Hs as [->|[->| ->]]; reflexivity.
Qed.

End LoopFacts.

Lemma minimax_open (n : nat) (b : board) (isMaximizing : bool) :
  checkWinner b = None -> isDraw b = false ->
  minimax (S n) b isMaximizing
  = loop (fun move =>
            score_of (minimax n (place b move (if isMaximizing then O else X))
                        (negb isMaximizing)))
      isMaximizing (getAvailableMoves b)
      (mkScored (if isMaximizing then NegInfinity else Infinity) (-1)).
Proof. intros Hw Hd. rewrite minimax_eq, Hw, Hd. reflexivity. Qed.

Lemma minimax_closed (n : nat) (b : board) (isMaximizing : bool) :
  checkWinner b <> None \/ isDraw b = true ->
  index (minimax n b isMaximizing) = -1.
Proof.
  intros H. rewrite minimax_eq.
  destruct (checkWinner b) as [[|]|]; try reflexivity.
  destruct H as [H|H]; [destruct H; reflexivity|].
  rewrite H. reflexivity.
Qed.

Lemma difficultyDepths_pos (d : difficulty) :
  exists n, difficultyDepths d = S n.
Proof. destruct d; eexists; reflexivity. Qed.

Lemma getBestMove_open (b : board) (d : difficulty) :
  checkWinner b = None -> isDraw b = false ->
  In (getBestMove b d) (getAvailableMoves b).
Proof.
  intros Hw Hd. unfold getBestMove.
  destruct (difficultyDepths_pos d) as [n ->].
  rewrite (minimax_open n b true Hw Hd).
  destruct (loop_picks
              (fun move => score_of (minimax n (place b move O) (negb true)))
              (fun m => minimax_terminal _ _ _) true (getAvailableMoves b)
              (not_draw_available b Hw Hd)) as (m & Hin & E).
  simpl in E. simpl. rewrite E. exact Hin.
Qed.

(** X7. On a board that has no winner and is not full, [getBestMove] returns
    a free cell at every difficulty; on a board that is decided or full it
    returns -1.  So on a nine-cell board [applyMove] accepts the cell the AI
    chooses exactly when the board is still open. *)
Theorem getBestMove_free_cell (b : board) (d : difficulty) :
  (checkWinner b = None -> isDraw b = false ->
   In (getBestMove b d) (getAvailableMoves b))
  /\ (checkWinner b <> None \/ isDraw b = true -> getBestMove b d = -1)
  /\ (length b = 9%nat ->
      (is_Some (applyMove b (getBestMove b d) O) <->
       checkWinner b = None /\ isDraw b = false)).
Proof.
  pose proof (getBestMove_open b d) as Hopen.
  assert (Hclosed : checkWinner b <> None \/ isDraw b = true ->
                    getBestMove b d = -1)
    by (intros H; apply minimax_closed, H).
  split; [exact Hopen|]. split; [exact Hclosed|].
  intros Hlen. rewrite (applyMove_is_Some b _ O Hlen). split.
  - intros Hin. destruct (checkWinner b) as [p|] eqn:Hw.
    + rewrite Hclosed in Hin by (left; discriminate).
      apply getAvailableMoves_In in Hin as (i & Hi & _). lia.
    + split; [reflexivity|]. destruct (isDraw b) eqn:Hd; [|reflexivity].
      rewrite Hclosed in Hin by (right; reflexivity).
      apply getAvailableMoves_In in Hin as (i & Hi & _). lia.
  - intros [Hw Hd]. exact (Hopen Hw Hd).
Qed.

Lemma getBestMove_free_cell_witness :
  In (getBestMove boardThreat hard) (getAvailableMoves boardThreat)
  /\ getBestMove boardDrawn easy = -1
  /\ is_Some (applyMove boardThreat (getBestMove boardThreat medium) O).
Proof.
  split; [|split].
  - apply (proj1 (getBestMove_free_cell boardThreat hard)); reflexivity.
  - apply (proj1 (proj2 (getBestMove_free_cell boardDrawn easy))).
    right. reflexivity.
  - apply (proj2 (proj2 (getBestMove_free_cell boardThreat medium)) eq_refl).
    split; reflexivity.
Defined.

Lemma place_quiet (b : board) (m : Z) :
  checkWinner b = None -> In m (getAvailableMoves b) -> ~ winsAtOnce b m ->
  checkWinner (place b m O) = None.
Proof.
  intros Hw Hin Hno.
  apply getAvailableMoves_In in Hin as Hin'. destruct Hin' as (i & -> & Hi).
  apply place_keeps_none; [exact Hw|exact Hi|].
  intros line Hl Hf. apply Hno. split; [exact Hin|]. exists line. auto.
Qed.

Lemma minimax_zero_open (b : board) (isMaximizing : bool) :
  checkWinner b = None -> minimax 0 b isMaximizing = mkScored (Fin 0) (-1).
Proof.
  intros Hw. rewrite minimax_eq, Hw. destruct (isDraw b); reflexivity.
Qed.

(** X8. At difficulty easy the search is one move deep: on a board without a
    winner on which no free cell wins at once for [O], [getBestMove] returns
    the lowest-numbered free cell, whatever [X] threatens. *)
Theorem getBestMove_easy_lowest (b : board) (c0 : Z) (rest : list Z) :
  checkWinner b = None ->
  getAvailableMoves b = c0 :: rest ->
  (forall c, ~ winsAtOnce b c) ->
  getBestMove b easy = c0
  /\ forall c, In c (getAvailableMoves b) -> c0 <= c.
Proof.
  intros Hw Hav Hno. split.
  - assert (Hd : isDraw b = false)
      by (apply (isDraw_available b c0); rewrite Hav; left; reflexivity).
    unfold getBestMove. simpl difficultyDepths.
    rewrite (minimax_open 0 b true Hw Hd), Hav.
    rewrite (loop_const _ c0 rest (Fin 0)); [reflexivity| |right; left; reflexivity].
    intros m Hm. rewrite <- Hav in Hm.
    rewrite minimax_zero_open; [reflexivity|].
    apply place_quiet; auto.
  - intros c Hc. pose proof (getAvailableMoves_sorted b) as Hs.
    rewrite Hav in Hs, Hc. apply StronglySorted_inv in Hs as [_ Hs].
    destruct Hc as [<-|Hc]; [lia|].
    rewrite List.Forall_forall in Hs. specialize (Hs c Hc). lia.
Qed.

Lemma getBestMove_easy_lowest_witness :
  getBestMove boardThreat easy = 2
  /\ forall c, In c (getAvailableMoves boardThreat) -> 2 <= c.
Proof.
  apply (getBestMove_easy_lowest boardThreat 2 [3; 5; 6; 7; 8]);
    [reflexivity|reflexivity|].
  intros c [Hin (line & Hl & Hf)].
  assert (Hc : checkWinner (place boardThreat c O) = Some O).
  { apply getAvailableMoves_In in Hin as (i & -> & Hi).
    eapply place_completes; [reflexivity|exact Hi|exact Hl|exact Hf]. }
  clear Hl Hf. simpl in Hin.
  repeat (destruct Hin as [<-|Hin]; [discriminate Hc|]). destruct Hin.
Defined.

Section LoopSingle.
Variable f : Z -> score.
Hypothesis f_terminal : forall m, terminalScore (f m).
Variable c : Z.
Hypothesis others_lose : forall m, m <> c -> f m = Fin (-10).
Hypothesis c_holds : f c <> Fin (-10).

Lemma loop_max_keeps (moves : list Z) :
  loop f true moves (mkScored (f c) c) = mkScored (f c) c.
Proof.
  induction moves as [|m moves IH]; [reflexivity|].
  rewrite loop_cons.
  replace (consider true (mkScored (f c) c) m (f m)) with (mkScored (f c) c);
    [exact IH|].
  unfold consider. simpl. destruct (decide (m = c)) as [->|Hne].
  - destruct (f_terminal c) as [E|[E|E]]; rewrite E; reflexivity.
  - rewrite (others_lose m Hne).
    destruct (f_terminal c) as [E|[E|E]]; rewrite E; reflexivity.
Qed.

Lemma loop_max_single (moves : list Z) (best : scored) :
  In c moves ->
  score_of best = NegInfinity \/ score_of best = Fin (-10) ->
  loop f true moves best = mkScored (f c) c.
Proof.
  revert best. induction moves as [|m moves IH]; intros best Hin Hb;
    [destruct Hin|].
  rewrite loop_cons. destruct (decide (m = c)) as [->|Hne].
  - replace (consider true best c (f c)) with (mkScored (f c) c);
      [apply loop_max_keeps|].
    unfold consider. simpl.
    destruct (f_terminal c) as [E|[E|E]], Hb as [B|B]; rewrite ?E, B;
      try reflexivity; destruct (c_holds E).
  - destruct Hin as [Hin|Hin]; [destruct (Hne Hin)|].
    apply IH; [exact Hin|].
    unfold consider. simpl. rewrite (others_lose m Hne).
    destruct Hb as [B|B]; rewrite B; simpl; auto.
Qed.

End LoopSingle.

Lemma threat_persists (b : board) (c m : Z) (k : nat) :
  checkWinner b = None -> threatens b c ->
  In m (getAvailableMoves b) -> m <> c -> ~ winsAtOnce b m ->
  score_of (minimax (S k) (place b m O) false) = Fin (-10).
Proof.
  intros Hw [Hc (line & Hl & Hf)] Hm Hne Hno.
  pose proof (place_quiet b m Hw Hm Hno) as Hw1.
  apply getAvailableMoves_In in Hm as (im & -> & Him).
  apply getAvailableMoves_In in Hc as (ic & -> & Hic).
  assert (Hneq : im <> ic) by (intros ->; apply Hne; reflexivity).
  assert (Hic1 : place b (Z.of_nat im) O !! ic = Some None).
  { rewrite place_lookup by exact Him.
    destruct (decide (im = ic)); [contradiction|exact Hic]. }
  assert (Hc1 : In (Z.of_nat ic) (getAvailableMoves (place b (Z.of_nat im) O)))
    by (apply getAvailableMoves_In; eauto).
  rewrite (minimax_open k _ false Hw1 (isDraw_available _ _ Hc1)).
  apply (loop_min_bottom _ (fun x => minimax_terminal _ _ _) _ _ (Z.of_nat ic));
    [exact Hc1| |right; reflexivity].
  rewrite minimax_eq.
  rewrite (place_completes _ ic X line Hw1 Hic1 Hl); [reflexivity|].
  intros j Hj. specialize (Hf j Hj).
  rewrite place_lookup in Hf by exact Hic.
  rewrite place_lookup by exact Hic1.
  destruct (decide (ic = j)); [reflexivity|].
  rewrite place_lookup by exact Him.
  destruct (decide (im = j)) as [<-|]; [congruence|exact Hf].
Qed.

Lemma minimax_first_le (b : board) (c : Z) (n : nat) (pre post : list Z)
    (m0 : Z) :
  checkWinner b = None -> winsAtOnce b c ->
  getAvailableMoves b = pre ++ m0 :: post ->
  (forall m, In m pre ->
     score_of (minimax n (place b m O) false) <> Fin 10) ->
  m0 <= c.
Proof.
  intros Hw Hc E Hpre.
  pose proof (getAvailableMoves_sorted b) as Hs. rewrite E in Hs.
  pose proof (proj1 Hc) as Hin. rewrite E in Hin.
  apply in_app_or in Hin as [Hin|[<-|Hin]].
  - destruct (Hpre c Hin). apply minimax_won, place_wins; assumption.
  - lia.
  - clear -Hs Hin. induction pre as [|x pre IH]; simpl in Hs.
    + apply StronglySorted_inv in Hs as [_ Hall].
      rewrite List.Forall_forall in Hall. specialize (Hall c Hin). lia.
    + apply StronglySorted_inv in Hs as [Hs _]. exact (IH Hs).
Qed.

Lemma blocksX_threatens (b : board) (c : Z) : blocksX b c -> threatens b c.
Proof.
  intros [Hc (line & Hl & Hin & Hothers)]. split; [exact Hc|].
  exists line. split; [exact Hl|].
  apply getAvailableMoves_In in Hc as (i & -> & Hi).
  rewrite Nat2Z.id in Hothers.
  intros j Hj. rewrite place_lookup by exact Hi.
  destruct (decide (i = j)) as [|Hne]; [reflexivity|].
  apply Hothers; [exact Hj|congruence].
Qed.

(** C5 (as amended). The search depth is 1, 3 and 5 for easy, medium and
    hard.  On a board with no line completed yet on which [O] has a cell that
    wins at once, the search at any depth of at least 1 returns a free cell
    of score +10, from which [O] wins within the remaining plies whatever [X]
    replies.  At depth 1 (easy) that cell is the lowest-numbered cell that
    wins at once.  And when the lowest-numbered winning cell of [O] is also
    the cell that blocks [X], it is the cell returned at every
    difficulty. *)
Theorem getBestMove_takes_a_win :
  (difficultyDepths easy = 1%nat /\ difficultyDepths medium = 3%nat
   /\ difficultyDepths hard = 5%nat)
  /\ (forall (b : board) d,
        getBestMove b d = index (minimax (difficultyDepths d) b true))
  /\ (forall (b : board) (c : Z) (n : nat),
        checkWinner b = None -> winsAtOnce b c ->
        let r := minimax (S n) b true in
        score_of r = Fin 10
        /\ In (index r) (getAvailableMoves b)
        /\ score_of (minimax n (place b (index r) O) false) = Fin 10)
  /\ (forall (b : board) (c : Z),
        checkWinner b = None -> winsAtOnce b c ->
        winsAtOnce b (getBestMove b easy) /\ getBestMove b easy <= c)
  /\ (forall (b : board) (c : Z) (d : difficulty),
        checkWinner b = None -> blocksX b c -> winsAtOnce b c ->
        (forall c', winsAtOnce b c' -> c <= c') ->
        getBestMove b d = c).
Proof.
  split; [repeat split|]. split; [reflexivity|].
  assert (Heasy : forall (b : board) (c : Z),
             checkWinner b = None -> winsAtOnce b c ->
             winsAtOnce b (getBestMove b easy) /\ getBestMove b easy <= c).
  { intros b c Hw Hc. unfold getBestMove. simpl difficultyDepths.
    destruct (minimax_max_first b c 0 Hw Hc)
      as (pre & m0 & post & E & Hm0 & Hpre & ->). simpl.
    assert (Hav : In m0 (getAvailableMoves b))
      by (rewrite E; apply in_or_app; right; left; reflexivity).
    split.
    - split; [exact Hav|]. apply minimax_zero_won in Hm0.
      apply (checkWinnerIn_some winningLines _ _ winningLines_len3) in Hm0
        as (pre' & line & post' & E' & Hf & _).
      exists line. split; [|exact Hf].
      rewrite E'. apply in_or_app. right. left. reflexivity.
    - exact (minimax_first_le b c 0 pre post m0 Hw Hc E Hpre). }
  assert (Hdeep : forall (b : board) (c : Z) (k : nat),
             checkWinner b = None -> blocksX b c -> winsAtOnce b c ->
             (forall c', winsAtOnce b c' -> c <= c') ->
             index (minimax (S (S k)) b true) = c).
  { intros b c k Hw Hblock Hc Hleast.
    destruct (minimax_max_first b c (S k) Hw Hc)
      as (pre & m0 & post & E & Hm0 & Hpre & ->). simpl.
    destruct (decide (m0 = c)) as [Heq|Hne]; [exact Heq|]. exfalso.
    assert (Hav : In m0 (getAvailableMoves b))
      by (rewrite E; apply in_or_app; right; left; reflexivity).
    pose proof (minimax_first_le b c (S k) pre post m0 Hw Hc E Hpre) as Hle.
    assert (Hno : ~ winsAtOnce b m0)
      by (intros Hwin; specialize (Hleast _ Hwin); lia).
    rewrite (threat_persists b c m0 k Hw (blocksX_threatens b c Hblock)
               Hav Hne Hno) in Hm0.
    discriminate Hm0. }
  split; [|split; [exact Heasy|]].
  - intros b c n Hw Hc.
    destruct (minimax_max_first b c n Hw Hc)
      as (pre & m0 & post & E & Hm0 & _ & ->). simpl.
    split; [reflexivity|]. split; [|exact Hm0].
    rewrite E. apply in_or_app. right. left. reflexivity.
  - intros b c d Hw Hblock Hc Hleast. destruct d.
    + destruct (Heasy b c Hw Hc) as [Hr Hle].
      specialize (Hleast _ Hr). lia.
    + exact (Hdeep b c 1%nat Hw Hblock Hc Hleast).
    + exact (Hdeep b c 3%nat Hw Hblock Hc Hleast).
Qed.

Lemma getBestMove_takes_a_win_witness :
  (score_of (minimax 3 boardFork true) = Fin 10
   /\ In (index (minimax 3 boardFork true)) (getAvailableMoves boardFork)
   /\ score_of (minimax 2 (place boardFork (index (minimax 3 boardFork true)) O)
                  false) = Fin 10)
  /\ (winsAtOnce boardTwoWins (getBestMove boardTwoWins easy)
      /\ getBestMove boardTwoWins easy <= 8)
  /\ (forall d, getBestMove boardBlock d = 2).
Proof.
  assert (H8 : winsAtOnce boardFork 8).
  { split; [simpl; tauto|]. exists [6; 7; 8]%nat. split; [simpl; tauto|].
    intros i [<-|[<-|[<-|[]]]]; reflexivity. }
  assert (T8 : winsAtOnce boardTwoWins 8).
  { split; [simpl; tauto|]. exists [6; 7; 8]%nat. split; [simpl; tauto|].
    intros i [<-|[<-|[<-|[]]]]; reflexivity. }
  assert (B2 : winsAtOnce boardBlock 2).
  { split; [simpl; tauto|]. exists [2; 5; 8]%nat. split; [simpl; tauto|].
    intros i [<-|[<-|[<-|[]]]]; reflexivity. }
  split; [|split].
  - exact (proj1 (proj2 (proj2 getBestMove_takes_a_win)) boardFork 8 2%nat
             eq_refl H8).
  - exact (proj1 (proj2 (proj2 (proj2 getBestMove_takes_a_win))) boardTwoWins 8
             eq_refl T8).
  - intros d.
    apply (proj2 (proj2 (proj2 (proj2 getBestMove_takes_a_win))) boardBlock 2
             d eq_refl).
    + split; [simpl; tauto|]. exists [0; 1; 2]%nat. split; [simpl; tauto|].
      split; [simpl; tauto|].
      intros i [<-|[<-|[<-|[]]]] Hne; try reflexivity. destruct Hne. reflexivity.
    + exact B2.
    + intros c' [Hav _]. simpl in Hav.
      destruct Hav as [<-|[<-|[<-|[<-|[]]]]]; lia.
Defined.

(** C5, the claim as stated fails.  On [boardFork] cell 8 wins at once, yet
    at medium and hard the search returns cell 0, which does not: its score
    is +10 as well, through the fork it creates, and it is met first.  On
    [boardDecided], where [X] has already completed a row, no cell is
    returned at all.  On [boardTwoWins] the cell that blocks [X], 8, also
    wins for [O], yet the cell returned is the lower winning cell 0. *)
Lemma getBestMove_immediate_win_counterexample :
  (checkWinner boardFork = None
   /\ winsAtOnce boardFork 8
   /\ getBestMove boardFork medium = 0
   /\ getBestMove boardFork hard = 0
   /\ ~ winsAtOnce boardFork 0)
  /\ (winsAtOnce boardDecided 5 /\ getBestMove boardDecided easy = -1)
  /\ (checkWinner boardTwoWins = None
      /\ blocksX boardTwoWins 8 /\ winsAtOnce boardTwoWins 8
      /\ getBestMove boardTwoWins easy = 0).
Proof.
  split; [|split].
  - split; [reflexivity|]. split; [|split; [reflexivity|split; [reflexivity|]]].
    + split; [simpl; tauto|]. exists [6; 7; 8]%nat. split; [simpl; tauto|].
      intros i [<-|[<-|[<-|[]]]]; reflexivity.
    + intros [_ (line & Hin & Hf)].
      assert (Hn : checkWinner (place boardFork 0 O) = None) by reflexivity.
      exact (proj1 (checkWinnerIn_none winningLines _ winningLines_len3) Hn
               line Hin O Hf).
  - split; [|reflexivity].
    split; [simpl; tauto|]. exists [3; 4; 5]%nat. split; [simpl; tauto|].
    intros i [<-|[<-|[<-|[]]]]; reflexivity.
  - split; [reflexivity|]. split; [|split; [|reflexivity]].
    + split; [simpl; tauto|]. exists [2; 5; 8]%nat. split; [simpl; tauto|].
      split; [simpl; tauto|].
      intros i [<-|[<-|[<-|[]]]] Hne; try reflexivity. destruct Hne. reflexivity.
    + split; [simpl; tauto|]. exists [6; 7; 8]%nat. split; [simpl; tauto|].
      intros i [<-|[<-|[<-|[]]]]; reflexivity.
Qed.

(** X9. At difficulty medium or hard, when [X] can complete a line at a free
    cell [c] and [O] has no cell that wins at once, every move other than
    [c] scores -10; so [getBestMove] returns the blocking cell [c], unless
    blocking loses as well within the search depth, in which case the best
    score is -10 and [getBestMove] returns the lowest-numbered free cell. *)
Theorem getBestMove_blocks (b : board) (c : Z) (d : difficulty) :
  d <> easy -> checkWinner b = None -> threatens b c ->
  (forall m, ~ winsAtOnce b m) ->
  (forall m, In m (getAvailableMoves b) -> m <> c ->
     score_of (minimax (difficultyDepths d - 1) (place b m O) false)
     = Fin (-10))
  /\ (getBestMove b d = c
      \/ (score_of (minimax (difficultyDepths d) b true) = Fin (-10)
          /\ exists rest, getAvailableMoves b = getBestMove b d :: rest)).
Proof.
  intros Hd Hw Ht Hno.
  assert (Hk : exists k, difficultyDepths d = S (S k))
    by (destruct d; [destruct Hd; reflexivity|eexists; reflexivity..]).
  destruct Hk as [k Hk]. rewrite Hk.
  replace (S (S k) - 1)%nat with (S k) by lia.
  assert (Hothers : forall m, In m (getAvailableMoves b) -> m <> c ->
            score_of (minimax (S k) (place b m O) false) = Fin (-10)).
  { intros m Hm Hne. apply (threat_persists b c m k); auto. }
  split; [exact Hothers|].
  pose proof (proj1 Ht) as Hc.
  unfold getBestMove. rewrite Hk.
  rewrite (minimax_open (S k) b true Hw (isDraw_available b c Hc)).
  simpl negb.
  set (f := fun move => score_of (minimax (S k) (place b move O) false)).
  set (g := fun move => if bool_decide (move ∈ getAvailableMoves b)
                        then f move else
                          if decide (move = c) then f c else Fin (-10)).
  assert (Hfg : forall best moves,
             (forall m, In m moves -> In m (getAvailableMoves b)) ->
             loop f true moves best = loop g true moves best).
  { intros best moves. revert best.
    induction moves as [|m moves IH]; intros best Hsub; [reflexivity|].
    rewrite !loop_cons. unfold g at 2.
    rewrite bool_decide_eq_true_2
      by (apply list_elem_of_In, Hsub; left; reflexivity).
    apply IH. intros m' Hm'. apply Hsub. right. exact Hm'. }
  rewrite Hfg by auto.
  assert (Hg_term : forall m, terminalScore (g m)).
  { intros m. unfold g. destruct (bool_decide _);
      [apply minimax_terminal|].
    destruct (decide (m = c)); [apply minimax_terminal|left; reflexivity]. }
  assert (Hgc : g c = f c)
    by (unfold g; rewrite bool_decide_eq_true_2
          by (apply list_elem_of_In, Hc); reflexivity).
  assert (Hg_others : forall m, m <> c -> g m = Fin (-10)).
  { intros m Hne. unfold g. destruct (bool_decide _) eqn:E.
    - apply bool_decide_eq_true, list_elem_of_In in E.
      apply Hothers; assumption.
    - destruct (decide (m = c)); [contradiction|reflexivity]. }
  destruct (decide (g c = Fin (-10))) as [E|Hne].
  - right. destruct (getAvailableMoves b) as [|c0 rest] eqn:Hav;
      [destruct Hc|].
    rewrite (loop_const g c0 rest (Fin (-10))).
    + split; [reflexivity|]. exists rest. reflexivity.
    + intros m _. destruct (decide (m = c)) as [->|Hm]; auto.
    + left. reflexivity.
  - left. rewrite (loop_max_single g Hg_term c Hg_others Hne); auto.
Qed.

Lemma getBestMove_blocks_witness :
  (forall m, In m (getAvailableMoves boardThreat) -> m <> 2 ->
     score_of (minimax (difficultyDepths hard - 1) (place boardThreat m O)
                 false) = Fin (-10))
  /\ (getBestMove boardThreat hard = 2
      \/ (score_of (minimax (difficultyDepths hard) boardThreat true)
          = Fin (-10)
          /\ exists rest,
               getAvailableMoves boardThreat
               = getBestMove boardThreat hard :: rest)).
Proof.
  apply (getBestMove_blocks boardThreat 2 hard);
    [discriminate|reflexivity| |].
  - split; [simpl; auto|]. exists [0; 1; 2]%nat. split; [simpl; auto|].
    intros j Hj. simpl in Hj.
    repeat (destruct Hj as [<-|Hj]; [reflexivity|]). destruct Hj.
  - intros c [Hin (line & Hl & Hf)].
    assert (Hc : checkWinner (place boardThreat c O) = Some O).
    { apply getAvailableMoves_In in Hin as (i & -> & Hi).
      eapply place_completes; [reflexivity|exact Hi|exact Hl|exact Hf]. }
    clear Hl Hf. simpl in Hin.
    repeat (destruct Hin as [<-|Hin]; [discriminate Hc|]). destruct Hin.
Defined.

(** The head of the stable descending sort is the entry the maximising
    loop of [minimax] keeps: the first one of greatest score. *)
Lemma sortByScore_head (f : Z -> score) (l : list Z)
    (sorted : list MoveScore) (best : scored) :
  (forall m, terminalScore (f m)) ->
  match sorted with
  | [] => score_of best = NegInfinity
  | y :: _ => y = mkMoveScore (index best) (score_of best)
  end ->
  match fold_left (fun sorted x => insertByScore x sorted)
          (map (fun m => mkMoveScore m (f m)) l) sorted with
  | [] => l = [] /\ sorted = []
  | y :: _ =>
      y = mkMoveScore (index (loop f true l best))
            (score_of (loop f true l best))
  end.
Proof.
  intros Hf. revert sorted best.
  induction l as [|m l IH]; intros sorted best Hinv.
  - simpl. destruct sorted; [split; reflexivity|exact Hinv].
  - rewrite loop_cons. simpl map. simpl fold_left.
    specialize (IH (insertByScore (mkMoveScore m (f m)) sorted)
                  (consider true best m (f m))).
    destruct (fold_left _ _ (insertByScore _ sorted)) as [|y rest] eqn:E.
    + exfalso. assert (Hne : insertByScore (mkMoveScore m (f m)) sorted <> []).
      { destruct sorted as [|y0 ?]; simpl; [discriminate|].
        destruct (score_ltb _ _); discriminate. }
      apply Hne. apply IH.
      destruct sorted as [|y0 rest0]; simpl.
      * unfold consider. simpl. rewrite Hinv.
        destruct (Hf m) as [F|[F|F]]; rewrite F; reflexivity.
      * subst y0. simpl. unfold consider, score_gtb. simpl.
        destruct (score_ltb (score_of best) (f m)); reflexivity.
    + apply IH. destruct sorted as [|y0 rest0]; simpl.
      * unfold consider. simpl. rewrite Hinv.
        destruct (Hf m) as [F|[F|F]]; rewrite F; reflexivity.
      * subst y0. simpl. unfold consider, score_gtb. simpl.
        destruct (score_ltb (score_of best) (f m)); reflexivity.
Qed.

Lemma insertByScore_Forall (P : MoveScore -> Prop) (x : MoveScore)
    (sorted : list MoveScore) :
  P x -> Forall P sorted -> Forall P (insertByScore x sorted).
Proof.
  intros Hx. induction 1 as [|y rest Hy Hrest IH]; simpl.
  - repeat constructor. exact Hx.
  - destruct (score_ltb _ _); repeat constructor; assumption.
Qed.

Lemma sortByScore_Forall (P : MoveScore -> Prop) (l : list MoveScore) :
  Forall P l -> Forall P (sortByScore l).
Proof.
  unfold sortByScore. generalize (List.Forall_nil P).
  generalize (@nil MoveScore) as sorted.
  induction l as [|x l IH]; intros sorted Hs Hl; simpl; [exact Hs|].
  apply Forall_cons_1 in Hl as [Hx Hl].
  apply IH; [apply insertByScore_Forall; assumption|exact Hl].
Qed.

(** X10. [getSuggestions] throws exactly when the board has no free cell.
    Otherwise the position it suggests is a free cell, the one the maximising
    search keeps (on a board without a winner, the cell [getBestMove] returns
    at difficulty hard); the confidence is one of 65, 85, 95 and 100, never
    75, and it is 100 exactly when the suggested move scores 10 and 95
    exactly when it scores -10; the labels are those [classifyMove] gives
    the suggested position. *)
Theorem getSuggestions_best (b : board) :
  (getSuggestions b = None <-> getAvailableMoves b = [])
  /\ (forall s, getSuggestions b = Some s ->
        In (sg_position s) (getAvailableMoves b)
        /\ (checkWinner b = None -> sg_position s = getBestMove b hard)
        /\ In (sg_confidence s) [65; 85; 95; 100]
        /\ (sg_confidence s = 100 <->
            score_of (minimax 4 (place b (sg_position s) O) false) = Fin 10)
        /\ (sg_confidence s = 95 <->
            score_of (minimax 4 (place b (sg_position s) O) false)
            = Fin (-10))
        /\ (sg_moveType s, sg_strategy s) = classifyMove b (sg_position s)).
Proof.
  set (f := fun m => score_of (minimax 4 (place b m O) false)).
  assert (Hf : forall m, terminalScore (f m))
    by (intros m; apply minimax_terminal).
  pose proof (sortByScore_head f (getAvailableMoves b) []
                (mkScored NegInfinity (-1)) Hf eq_refl) as Hhead.
  assert (Hall : Forall (fun x => terminalScore (ms_score x))
                   (sortByScore (moveScoresOf b))).
  { apply sortByScore_Forall, List.Forall_forall.
    intros x (m & <- & _)%in_map_iff. apply Hf. }
  unfold getSuggestions.
  change (sortByScore (moveScoresOf b))
    with (fold_left (fun sorted x => insertByScore x sorted)
            (map (fun m => mkMoveScore m (f m)) (getAvailableMoves b)) [])
    in Hall |- *.
  destruct (fold_left _ _ []) as [|bestMove others] eqn:E.
  - destruct Hhead as [Hnil _]. split; [tauto|discriminate].
  - split.
    { split; [destruct (classifyMove _ _); discriminate|].
      intros Hnil. rewrite Hnil in E. discriminate E. }
    assert (Hne : getAvailableMoves b <> [])
      by (intros Hnil; rewrite Hnil in E; discriminate E).
    destruct (loop_picks f Hf true (getAvailableMoves b) Hne)
      as (m & Hm & Hloop).
    simpl in Hloop. rewrite Hloop in Hhead. simpl in Hhead. subst bestMove.
    simpl ms_move. simpl ms_score.
    destruct (classifyMove b m) as [moveType strategy] eqn:Hclass.
    intros s [= <-]. cbn [sg_position sg_confidence sg_moveType sg_strategy].
    split; [exact Hm|]. split.
    { intros Hw. unfold getBestMove. simpl difficultyDepths.
      destruct (getAvailableMoves b) as [|c0 rest] eqn:Hav;
        [destruct Hm|].
      rewrite (minimax_open 4 b true Hw
                 (isDraw_available b c0 ltac:(rewrite Hav; left; reflexivity))).
      rewrite Hav. simpl negb. fold f. rewrite Hloop. reflexivity. }
    assert (Hsecond : terminalScore
                        match others with
                        | second :: _ => ms_score second
                        | [] => f m
                        end).
    { apply Forall_cons_1 in Hall as [_ Hall].
      destruct others as [|second ?]; [apply Hf|].
      apply Forall_cons_1 in Hall as [Hs _]. exact Hs. }
    fold f. rewrite Hclass.
    set (secondBestScore := match others with
                            | second :: _ => ms_score second
                            | [] => f m
                            end) in *.
    clearbody secondBestScore. clear E Hall Hloop.
    change (score_of (minimax 4 (place b m O) false)) with (f m).
    pose proof (Hf m) as Hbest. set (bestScore := f m) in *.
    clearbody bestScore.
    destruct Hbest as [F|[F|F]]; rewrite F;
      destruct Hsecond as [G|[G|G]]; rewrite G; simpl;
      repeat split; auto; intros; try congruence; try lia.
Qed.

Lemma getSuggestions_best_witness :
  In 2 (getAvailableMoves boardThreat)
  /\ (checkWinner boardThreat = None -> 2 = getBestMove boardThreat hard)
  /\ In 85 [65; 85; 95; 100]
  /\ (85 = 100 <->
      score_of (minimax 4 (place boardThreat 2 O) false) = Fin 10)
  /\ (85 = 95 <->
      score_of (minimax 4 (place boardThreat 2 O) false) = Fin (-10))
  /\ ("Defensive Block"%string,
      "Opponent can win on next turn if you don't take this cell. Block them now."%string)
     = classifyMove boardThreat 2.
Proof.
  exact (proj2 (getSuggestions_best boardThreat)
           (mkSuggestion 2 85
              "Opponent can win on next turn if you don't take this cell. Block them now."
              "Defensive Block") eq_refl).
Defined.

End BestMove.

(** ** Progression ladder: stages, next stage and snapshot *)
Section Ladder.
Import Progression UserModel ProgressionService.

(** Decide the comparisons of the stage table against the points at hand. *)
Ltac stage_compare :=
  repeat match goal with
         | |- context [?a <=? ?b] =>
             destruct (Z.leb_spec a b); try lia; cbn [andb orb negb]
         | |- context [?a <? ?b] =>
             destruct (Z.ltb_spec a b); try lia; cbn [andb orb negb]
         end.

Ltac stage_at i :=
  exists i; eexists; split; [reflexivity|]; split; [reflexivity|];
  cbn; split; [lia|first [discriminate|intros ? [= <-]; lia]].

Lemma findStageForPoints_cases (points : Z) :
  0 <= points ->
  exists (i : nat) (s : StageDef),
    STAGES !! i = Some s /\ findStageForPoints points = s
    /\ min s <= points /\ (forall m, max s = Some m -> points < m).
Proof.
  intros Hp. unfold findStageForPoints, stageHolds, STAGES.
  cbn [find min max]. stage_compare.
  all: cbn [find min max].
  all: first [ stage_at 0%nat | stage_at 1%nat | stage_at 2%nat
             | stage_at 3%nat | stage_at 4%nat | stage_at 5%nat
             | stage_at 6%nat | stage_at 7%nat | stage_at 8%nat
             | stage_at 9%nat | stage_at 10%nat | stage_at 11%nat ].
Qed.

(** Go through the twelve entries of the table. *)
Ltac each_stage_from n i H :=
  lazymatch n with
  | O => discriminate H
  | S ?n' => destruct i as [|i]; [injection H as <-|each_stage_from n' i H]
  end.

Ltac each_stage i H := each_stage_from 12%nat i H.

(** X11. For a point total that is not negative, [findStageForPoints]
    returns the one stage of the table whose range holds the total: its
    minimum is at most the total, its cap (if any) is above it, and no other
    stage of the table holds the total. *)
Theorem findStageForPoints_holds (points : Z) (Hp : 0 <= points) :
  In (findStageForPoints points) STAGES
  /\ min (findStageForPoints points) <= points
  /\ (forall m, max (findStageForPoints points) = Some m -> points < m)
  /\ (forall t, In t STAGES -> stageHolds points t = true ->
                t = findStageForPoints points).
Proof.
  destruct (findStageForPoints_cases points Hp) as (i & s & Hi & -> & Hmin & Hmax).
  split; [apply list_elem_of_In; eapply list_elem_of_lookup_2; exact Hi|].
  split; [exact Hmin|]. split; [exact Hmax|].
  intros t Ht Hholds. unfold stageHolds in Hholds.
  apply andb_true_iff in Hholds as [Hlo Hhi]. apply Z.leb_le in Hlo.
  each_stage i Hi; cbn in Hmin;
    try (specialize (Hmax _ eq_refl));
    cbn [In STAGES] in Ht;
    repeat (destruct Ht as [<-|Ht];
            [first [reflexivity
                   |exfalso; cbn in Hlo, Hhi;
                    try (apply Z.ltb_lt in Hhi); lia]|]);
    destruct Ht.
Qed.

Lemma findStageForPoints_holds_witness :
  In (findStageForPoints 250) STAGES
  /\ min (findStageForPoints 250) <= 250
  /\ (forall m, max (findStageForPoints 250) = Some m -> 250 < m)
  /\ (forall t, In t STAGES -> stageHolds 250 t = true ->
                t = findStageForPoints 250).
Proof. apply (findStageForPoints_holds 250). lia. Defined.

Lemma getNextStage_table (i : nat) (s : StageDef) :
  STAGES !! i = Some s ->
  getNextStage (Some s) = STAGES !! S i
  /\ (forall n, getNextStage (Some s) = Some n ->
        max s = Some (min n) /\ min s < min n)
  /\ (getNextStage (Some s) = None <-> max s = None).
Proof.
  intros Hi.
  each_stage i Hi; clear;
    (split; [reflexivity|]);
    repeat match goal with
           | |- context [getNextStage ?x] =>
               let v := eval vm_compute in (getNextStage x) in
               change (getNextStage x) with v
           end;
    (split; [first [intros n [= <-]; cbn; split; [reflexivity|lia]
                   |discriminate]|]);
    split; first [discriminate|reflexivity].
Qed.

(** X12. For a stage of the table [getNextStage] returns the entry that
    follows it; that entry starts where the stage ends, so the ladder has
    neither gap nor overlap; only Master 3 has no next stage.  Without a
    current stage the answer is the first entry. *)
Theorem getNextStage_following (i : nat) (s : StageDef) :
  STAGES !! i = Some s ->
  getNextStage (Some s) = STAGES !! S i
  /\ (forall n, getNextStage (Some s) = Some n ->
        max s = Some (min n) /\ min s < min n)
  /\ (getNextStage (Some s) = None <-> s = master3)
  /\ (getNextStage (Some s) = None <-> max s = None)
  /\ getNextStage None = Some beginner1.
Proof.
  intros Hi. destruct (getNextStage_table i s Hi) as (Hnext & Hcont & Hlast).
  split; [exact Hnext|]. split; [exact Hcont|]. split; [|split].
  - rewrite Hlast.
    each_stage i Hi; split; first [discriminate|reflexivity].
  - exact Hlast.
  - reflexivity.
Qed.

Lemma getNextStage_following_witness :
  getNextStage (Some beginner2) = STAGES !! 2%nat
  /\ getNextStage (Some master3) = None.
Proof.
  split.
  - apply (getNextStage_following 1 beginner2). reflexivity.
  - apply (getNextStage_following 11 master3); reflexivity.
Defined.

Lemma stage_percent_chain (s : StageDef) (mx p : Z) (n : nat) :
  In s STAGES -> max s = Some mx -> min s <= p -> p + Z.of_nat n <= mx ->
  getProgressPercent p s <= getProgressPercent (p + Z.of_nat n) s.
Proof.
  intros Hin Hmx Hp. induction n as [|n IH]; intros Hq.
  - rewrite Z.add_0_r. lia.
  - etransitivity; [apply IH; lia|].
    replace (p + Z.of_nat (S n)) with (p + Z.of_nat n + 1) by lia.
    apply (stage_percent s mx (p + Z.of_nat n) Hin Hmx); lia.
Qed.

Lemma stage_percent_cap (s : StageDef) (mx : Z) :
  In s STAGES -> max s = Some mx -> getProgressPercent mx s = 100.
Proof.
  intros Hin Hmx. cbn [In STAGES] in Hin.
  repeat (destruct Hin as [<-|Hin];
          [first [discriminate Hmx
                 |injection Hmx as <-; vm_compute; reflexivity]|]).
  destruct Hin.
Qed.

(** X13. Within a capped stage of the table the percentage, as the source
    computes it in double precision, never decreases as the points grow up
    to the cap; it is 0 up to the stage's minimum and 100 at the cap. *)
Theorem getProgressPercent_monotone (s : StageDef) (mx : Z) (p q : Z) :
  In s STAGES -> max s = Some mx -> p <= q -> q <= mx ->
  getProgressPercent p s <= getProgressPercent q s
  /\ (p <= min s -> getProgressPercent p s = 0)
  /\ (q = mx -> getProgressPercent q s = 100).
Proof.
  intros Hin Hmx Hpq Hq. split; [|split].
  - destruct (Z_le_gt_dec p (min s)) as [Hp|Hp].
    + rewrite (stage_percent_start s mx p Hin Hmx Hp).
      unfold getProgressPercent. rewrite Hmx. apply clampPercent_range.
    + replace q with (p + Z.of_nat (Z.to_nat (q - p))) by lia.
      apply (stage_percent_chain s mx); auto; lia.
  - apply (stage_percent_start s mx p Hin Hmx).
  - intros ->. apply stage_percent_cap; assumption.
Qed.

Lemma getProgressPercent_monotone_witness :
  (getProgressPercent 150 beginner2 <= getProgressPercent 215 beginner2
   /\ (150 <= min beginner2 -> getProgressPercent 150 beginner2 = 0)
   /\ (215 = 300 -> getProgressPercent 215 beginner2 = 100))
  /\ getProgressPercent 100 beginner2 = 0
  /\ getProgressPercent 300 beginner2 = 100.
Proof.
  split; [|split].
  - apply (getProgressPercent_monotone beginner2 300 150 215);
      [cbn; tauto|reflexivity|lia|lia].
  - apply (getProgressPercent_monotone beginner2 300 100 300);
      [cbn; tauto|reflexivity|lia|lia|cbn; lia].
  - apply (getProgressPercent_monotone beginner2 300 100 300);
      [cbn; tauto|reflexivity|lia|lia|reflexivity].
Defined.

(** X14. For a point total that is not negative the snapshot of
    [getProgressForPoints] is consistent: while there is a next stage, the
    points still needed are positive and lead exactly to that stage's
    minimum; there is no next stage exactly from 18000 points on, and then
    nothing is needed and the percentage is 100; the percentage always lies
    between 0 and 100. *)
Theorem getProgressForPoints_snapshot (points : Z) (Hp : 0 <= points) :
  let snap := getProgressForPoints points in
  current snap = findStageForPoints points
  /\ 0 <= progressPercent snap <= 100
  /\ (forall n, next snap = Some n ->
        0 < ProgressionService.pointsToNextLevel snap
        /\ points + ProgressionService.pointsToNextLevel snap = min n)
  /\ (next snap = None <-> 18000 <= points)
  /\ (next snap = None ->
      ProgressionService.pointsToNextLevel snap = 0
      /\ progressPercent snap = 100).
Proof.
  unfold getProgressForPoints. cbn zeta.
  cbn [current next progressPercent ProgressionService.pointsToNextLevel].
  split; [reflexivity|]. split.
  { unfold getProgressPercent.
    destruct (max _); [apply clampPercent_range|lia]. }
  destruct (findStageForPoints_cases points Hp)
    as (i & s & Hi & -> & Hmin & Hmax).
  destruct (getNextStage_table i s Hi) as (Hnext & Hcont & Hlast).
  split; [|split].
  - intros n Hn. destruct (Hcont n Hn) as [Hmx _].
    rewrite Hmx. specialize (Hmax _ Hmx). lia.
  - rewrite Hlast. split.
    + intros Hmx. each_stage i Hi; try discriminate Hmx. exact Hmin.
    + intros Hbig. destruct (max s) as [m|] eqn:Hmx; [|reflexivity].
      specialize (Hmax m eq_refl).
      each_stage i Hi; cbn in Hmx;
        first [discriminate Hmx|injection Hmx as <-; lia].
  - intros Hn. apply Hlast in Hn. unfold getProgressPercent.
    rewrite Hn. split; reflexivity.
Qed.

Lemma getProgressForPoints_snapshot_witness :
  let snap := getProgressForPoints 250 in
  current snap = findStageForPoints 250
  /\ 0 <= progressPercent snap <= 100
  /\ (forall n, next snap = Some n ->
        0 < ProgressionService.pointsToNextLevel snap
        /\ 250 + ProgressionService.pointsToNextLevel snap = min n)
  /\ (next snap = None <-> 18000 <= 250)
  /\ (next snap = None ->
      ProgressionService.pointsToNextLevel snap = 0
      /\ progressPercent snap = 100).
Proof. apply (getProgressForPoints_snapshot 250). lia. Defined.

Lemma POINT_REWARDS_range (o : Outcome) : 10 <= POINT_REWARDS o <= 25.
Proof. destruct o; simpl; lia. Qed.

(** A reward is smaller than every stage of the ladder is wide: the stage of
    the new total is the former stage or the one after it. *)
Lemma findStageForPoints_step (p r : Z) :
  0 <= p -> 0 <= r <= 25 ->
  (findStageForPoints (p + r) = findStageForPoints p
   /\ label (findStageForPoints (p + r)) = label (findStageForPoints p))
  \/ (getNextStage (Some (findStageForPoints p))
      = Some (findStageForPoints (p + r))
      /\ label (findStageForPoints (p + r)) <> label (findStageForPoints p)).
Proof.
  intros Hp Hr.
  destruct (findStageForPoints_cases p Hp) as (i & s & Hi & -> & Hmin & Hmax).
  destruct (findStageForPoints_cases (p + r) ltac:(lia))
    as (j & s' & Hj & -> & Hmin' & Hmax').
  each_stage i Hi; cbn in Hmin; try (specialize (Hmax _ eq_refl));
    each_stage j Hj; cbn in Hmin'; try (specialize (Hmax' _ eq_refl));
    try lia;
    first [left; split; reflexivity
          |right; split; [reflexivity|discriminate]].
Qed.

(** X15. For a user with a point total that is not negative,
    [applyGameResult] adds exactly the reward of the outcome (25 for a win,
    10 otherwise), stores the stage of the new total, and leaves the stats,
    the e-mail, the last seen level-up and every other user as they were.
    The new stage is the former one or the one after it: a game never moves
    a user down or more than one stage up.  When the stored skill was the
    stage of the old total, [leveledUp] is reported exactly when the stage
    changed. *)
Theorem applyGameResult_advances
    (users : Users) (userId : string) (user : IUser) (outcome : Outcome)
    (now p : Z) :
  users !! userId = Some user -> skillPoints user = Some p -> 0 <= p ->
  let out := applyGameResult users userId outcome now in
  let p' := p + POINT_REWARDS outcome in
  exists user',
    fst out !! userId = Some user'
    /\ skillPoints user' = Some p' /\ p + 10 <= p' <= p + 25
    /\ currentSkill user' = Some (skillOf (findStageForPoints p'))
    /\ stats user' = stats user /\ email user' = email user
    /\ lastSeenLevelUpAt user' = lastSeenLevelUpAt user
    /\ (forall other, other <> userId -> fst out !! other = users !! other)
    /\ (findStageForPoints p' = findStageForPoints p
        \/ getNextStage (Some (findStageForPoints p))
           = Some (findStageForPoints p'))
    /\ (currentSkill user = Some (skillOf (findStageForPoints p)) ->
        (leveledUp (snd out) = true <->
         findStageForPoints p' <> findStageForPoints p)
        /\ (leveledUp (snd out) = false ->
            currentSkillAchievedAt user' = currentSkillAchievedAt user)).
Proof.
  intros Huser Hpts Hp. unfold applyGameResult. rewrite Huser, Hpts.
  cbn zeta. cbn [fst snd default leveledUp]. change (id p) with p.
  pose proof (POINT_REWARDS_range outcome) as Hr.
  eexists. split; [apply lookup_insert_eq|].
  cbn [skillPoints currentSkill stats email lastSeenLevelUpAt
       currentSkillAchievedAt current getProgressForPoints].
  split; [reflexivity|]. split; [lia|]. split; [reflexivity|].
  split; [reflexivity|]. split; [reflexivity|]. split; [reflexivity|].
  split; [intros other Hne; apply lookup_insert_ne; congruence|].
  destruct (findStageForPoints_step p (POINT_REWARDS outcome) Hp ltac:(lia))
    as [[Hsame Hlabel]|[Hnext Hlabel]].
  - split; [left; exact Hsame|]. intros ->. cbn [mbind option_bind skillOf sk_label].
    rewrite bool_decide_eq_false_2 by (rewrite Hlabel; auto).
    split; [|reflexivity]. split; [discriminate|]. intros H. destruct (H Hsame).
  - split; [right; exact Hnext|]. intros ->. cbn [mbind option_bind skillOf sk_label].
    rewrite bool_decide_eq_true_2 by congruence.
    split; [|discriminate]. split; [|reflexivity].
    intros _ E. rewrite E in Hlabel. destruct Hlabel. reflexivity.
Qed.

Lemma applyGameResult_advances_witness :
  exists user',
    fst (applyGameResult
           {[ "u1" := mkUser "ann@example.org" (Some 90)
                        (Some (skillOf beginner1)) None None None 10
                        (mkStats 0 0 0 0 0 0 0 0 None 0) ]}
           "u1" win 1000) !! "u1" = Some user'
    /\ skillPoints user' = Some 115
    /\ currentSkill user' = Some (skillOf beginner2).
Proof.
  destruct (applyGameResult_advances
              {[ "u1" := mkUser "ann@example.org" (Some 90)
                           (Some (skillOf beginner1)) None None None 10
                           (mkStats 0 0 0 0 0 0 0 0 None 0) ]}
              "u1"
              (mkUser "ann@example.org" (Some 90)
                 (Some (skillOf beginner1)) None None None 10
                 (mkStats 0 0 0 0 0 0 0 0 None 0))
              win 1000 90)
    as (user' & Hu & Hp & _ & Hs & _); [reflexivity|reflexivity|lia|].
  exists user'. split; [exact Hu|]. split; [exact Hp|exact Hs].
Defined.

End Ladder.

(** ** Achievements: catalogue, listing and marking as seen *)
Section AchievementViews.
Import UserModel Achievements AchievementService.

Lemma ACHIEVEMENTS_ids : NoDup (map id ACHIEVEMENTS).
Proof.
  apply (bool_decide_unpack (NoDup (map id ACHIEVEMENTS))).
  vm_compute. exact I.
Qed.

(** X16. In the catalogue the identifiers are pairwise distinct, and for
    every entry the progress never exceeds the target and reaches it exactly
    when the condition of the entry holds; with counters that are not
    negative the progress is not negative either. *)
Theorem ACHIEVEMENTS_progress_target :
  NoDup (map id ACHIEVEMENTS)
  /\ forall d user, In d ACHIEVEMENTS ->
       (condition d user = true <-> progress d user = target d)
       /\ progress d user <= target d
       /\ (0 <= totalWins (stats user) -> 0 <= currentWinStreak (stats user) ->
           0 <= gamesPlayed (stats user) -> 0 <= expertAiWins (stats user) ->
           0 <= progress d user).
Proof.
  split; [exact ACHIEVEMENTS_ids|].
  intros d user Hd. cbn [In ACHIEVEMENTS] in Hd.
  repeat (destruct Hd as [<-|Hd];
          [cbn [condition progress target];
           repeat split; intros;
           repeat match goal with
                  | |- context [?a >? ?b] =>
                      rewrite (Z.gtb_ltb a b); destruct (Z.ltb_spec b a)
                  | H : context [?a >? ?b] |- _ =>
                      rewrite (Z.gtb_ltb a b) in H; destruct (Z.ltb_spec b a)
                  | |- context [?a >=? ?b] =>
                      rewrite (Z.geb_leb a b); destruct (Z.leb_spec b a)
                  | H : context [?a >=? ?b] |- _ =>
                      rewrite (Z.geb_leb a b) in H; destruct (Z.leb_spec b a)
                  end; try reflexivity; try discriminate; try lia|]).
  destruct Hd.
Qed.

Lemma ACHIEVEMENTS_progress_target_witness :
  (condition firstWin winner1 = true <->
   progress firstWin winner1 = target firstWin)
  /\ progress firstWin winner1 <= target firstWin
  /\ (0 <= totalWins (stats winner1) ->
      0 <= currentWinStreak (stats winner1) ->
      0 <= gamesPlayed (stats winner1) -> 0 <= expertAiWins (stats winner1) ->
      0 <= progress firstWin winner1).
Proof.
  apply (proj2 ACHIEVEMENTS_progress_target firstWin winner1).
  left. reflexivity.
Defined.

Lemma completedMap_lookup (l : UserAchievements)
    (m : gmap string IUserAchievement) (k : string) :
  fold_left (fun m a => <[achievementId a := a]> m) l m !! k
  = match find (fun a => bool_decide (achievementId a = k)) (rev l) with
    | Some a => Some a
    | None => m !! k
    end.
Proof.
  revert m. induction l as [|a l IH]; intros m; [reflexivity|].
  cbn [fold_left rev]. rewrite IH, find_append. cbn [find].
  destruct (find _ (rev l)); [reflexivity|].
  destruct (bool_decide (achievementId a = k)) eqn:E.
  - apply bool_decide_eq_true in E. subst k. apply lookup_insert_eq.
  - apply bool_decide_eq_false in E. apply lookup_insert_ne. exact E.
Qed.

Lemma findOne_Some (store : UserAchievements) (userId achId : string)
    (a : IUserAchievement) :
  findOne store userId achId = Some a ->
  In a store /\ ua_userId a = userId /\ achievementId a = achId.
Proof.
  intros H. apply find_some in H as [Hin Hm].
  apply andb_true_iff in Hm as [H1 H2].
  apply bool_decide_eq_true in H1, H2. auto.
Qed.

Lemma findOne_In (store : UserAchievements) (a : IUserAchievement) :
  In a store -> is_Some (findOne store (ua_userId a) (achievementId a)).
Proof.
  intros Hin. destruct (findOne store _ _) as [x|] eqn:F; [eauto|].
  exfalso. apply (find_none _ _ F) in Hin. unfold matches in Hin.
  rewrite !bool_decide_eq_true_2 in Hin by reflexivity. discriminate Hin.
Qed.

Lemma keyOf_inj_on (store : UserAchievements) (a a' : IUserAchievement) :
  NoDup (map keyOf store) -> In a store -> In a' store ->
  keyOf a = keyOf a' -> a = a'.
Proof.
  induction store as [|x store IH]; intros Hnd Ha Ha' Hk; [destruct Ha|].
  cbn [map] in Hnd. apply NoDup_cons in Hnd as [Hnot Hnd].
  destruct Ha as [->|Ha], Ha' as [->|Ha'].
  - reflexivity.
  - destruct Hnot. apply list_elem_of_In. rewrite Hk.
    apply in_map, Ha'.
  - destruct Hnot. apply list_elem_of_In. rewrite <- Hk.
    apply in_map, Ha.
  - apply IH; assumption.
Qed.

(** The record [getUserAchievements] finds for an achievement. *)
Lemma completedMap_findOne (store : UserAchievements) (userId achId : string) :
  let completed := completedMap (findByUser store userId) !! achId in
  (is_Some completed <-> is_Some (findOne store userId achId))
  /\ (forall a, completed = Some a ->
        In a store /\ ua_userId a = userId /\ achievementId a = achId)
  /\ (NoDup (map keyOf store) -> completed = findOne store userId achId).
Proof.
  cbn zeta. unfold completedMap. rewrite completedMap_lookup, lookup_empty.
  set (found := find _ (rev (findByUser store userId))).
  assert (Hfound : forall a, found = Some a ->
            In a store /\ ua_userId a = userId /\ achievementId a = achId).
  { intros a Ha. apply find_some in Ha as [Hin Hk].
    apply bool_decide_eq_true in Hk. apply in_rev in Hin.
    apply filter_In in Hin as [Hin Hu]. apply bool_decide_eq_true in Hu.
    auto. }
  assert (Hiff : is_Some found <-> is_Some (findOne store userId achId)).
  { split.
    - intros [a Ha]. destruct (Hfound a Ha) as (Hin & <- & <-).
      apply findOne_In, Hin.
    - intros [a Ha]. apply findOne_Some in Ha as (Hin & Hu & Hk).
      destruct found as [x|] eqn:F; [eauto|]. exfalso.
      unfold found in F.
      assert (Hin' : In a (rev (findByUser store userId))).
      { apply in_rev. rewrite rev_involutive. apply filter_In.
        split; [exact Hin|]. apply bool_decide_eq_true_2, Hu. }
      apply (find_none _ _ F) in Hin'.
      rewrite bool_decide_eq_true_2 in Hin' by exact Hk. discriminate Hin'. }
  assert (E : match found with Some a => Some a | None => None end = found)
    by (destruct found; reflexivity).
  rewrite E. split; [exact Hiff|]. split; [exact Hfound|].
  intros Hnd. destruct found as [a|] eqn:F.
  - destruct (proj1 Hiff ltac:(eauto)) as [a' Ha']. rewrite Ha'. f_equal.
    destruct (Hfound a eq_refl) as (Hin & Hu & Hk).
    destruct (findOne_Some _ _ _ _ Ha') as (Hin' & Hu' & Hk').
    apply (keyOf_inj_on store); auto. unfold keyOf. congruence.
  - destruct (findOne store userId achId) as [a'|] eqn:F'; [|reflexivity].
    destruct (proj2 Hiff ltac:(eauto)) as [x Hx]. discriminate Hx.
Qed.

Lemma viewOf_map (g : AchievementDef -> AchievementView)
    (defs : list AchievementDef) (d : AchievementDef) :
  (forall x, av_id (g x) = id x) -> NoDup (map id defs) -> In d defs ->
  viewOf (map g defs) (id d) = Some (g d).
Proof.
  intros Hg. unfold viewOf.
  induction defs as [|x defs IH]; intros Hnd Hin; [destruct Hin|].
  cbn [map] in Hnd. apply NoDup_cons in Hnd as [Hnot Hnd]. cbn [map find].
  rewrite Hg. destruct Hin as [->|Hin].
  - rewrite bool_decide_eq_true_2 by reflexivity. reflexivity.
  - rewrite bool_decide_eq_false_2; [apply IH; assumption|].
    intros E. apply Hnot. rewrite E. apply list_elem_of_In, in_map, Hin.
Qed.

Lemma getUserAchievements_view (store : UserAchievements) (userId : string)
    (user : IUser) (d : AchievementDef) :
  In d ACHIEVEMENTS ->
  exists v,
    viewOf (getUserAchievements store userId user) (id d) = Some v
    /\ av_progress v = progress d user /\ av_target v = target d
    /\ (isUnlocked v = true <-> is_Some (findOne store userId (id d)))
    /\ (isUnlocked v = false ->
        av_unlockedAt v = None /\ av_seenByUser v = false
        /\ av_seenAt v = None)
    /\ (NoDup (map keyOf store) ->
        forall a, findOne store userId (id d) = Some a ->
          av_unlockedAt v = Some (unlockedAt a)
          /\ av_seenByUser v = seenByUser a /\ av_seenAt v = seenAt a).
Proof.
  intros Hd. eexists. split.
  { unfold getUserAchievements. cbn zeta.
    apply (viewOf_map _ ACHIEVEMENTS d); [reflexivity|apply ACHIEVEMENTS_ids|].
    exact Hd. }
  cbn [av_progress av_target isUnlocked av_unlockedAt av_seenByUser av_seenAt].
  destruct (completedMap_findOne store userId (id d)) as (Hiff & _ & Huniq).
  cbn zeta in Hiff, Huniq.
  split; [reflexivity|]. split; [reflexivity|]. split; [|split].
  - rewrite bool_decide_eq_true. exact Hiff.
  - intros Hno. apply bool_decide_eq_false in Hno.
    destruct (completedMap _ !! id d); [destruct Hno; eauto|].
    repeat split.
  - intros Hnd a Ha. rewrite (Huniq Hnd), Ha. repeat split.
Qed.

(** X17. [getUserAchievements] lists the catalogue, entry for entry and in
    its order.  The entry of an achievement carries the progress the
    catalogue computes for the user, and it is unlocked exactly when the
    collection holds a record of the user for that achievement; a locked
    entry has no unlock date and is not seen; with at most one record per
    pair, the dates and the seen flag are those of that record. *)
Theorem getUserAchievements_unlocked (store : UserAchievements)
    (userId : string) (user : IUser) :
  map av_id (getUserAchievements store userId user) = map id ACHIEVEMENTS
  /\ forall d, In d ACHIEVEMENTS ->
       exists v,
         viewOf (getUserAchievements store userId user) (id d) = Some v
         /\ av_progress v = progress d user /\ av_target v = target d
         /\ (isUnlocked v = true <-> is_Some (findOne store userId (id d)))
         /\ (isUnlocked v = false ->
             av_unlockedAt v = None /\ av_seenByUser v = false
             /\ av_seenAt v = None)
         /\ (NoDup (map keyOf store) ->
             forall a, findOne store userId (id d) = Some a ->
               av_unlockedAt v = Some (unlockedAt a)
               /\ av_seenByUser v = seenByUser a /\ av_seenAt v = seenAt a).
Proof.
  split.
  - unfold getUserAchievements. cbn zeta. rewrite map_map. reflexivity.
  - intros d Hd. apply getUserAchievements_view, Hd.
Qed.

Lemma getUserAchievements_unlocked_witness :
  exists v,
    viewOf (getUserAchievements
              [mkUserAchievement "u1" "FIRST_WIN" 1000 false None] "u1"
              winner1) (id firstWin) = Some v
    /\ isUnlocked v = true /\ av_unlockedAt v = Some 1000.
Proof.
  destruct (proj2 (getUserAchievements_unlocked
                     [mkUserAchievement "u1" "FIRST_WIN" 1000 false None]
                     "u1" winner1) firstWin (or_introl eq_refl))
    as (v & Hv & _ & _ & Hu & _ & Hrec).
  exists v. split; [exact Hv|]. split.
  - apply Hu. eexists. reflexivity.
  - apply (Hrec ltac:(repeat constructor; set_solver)
             (mkUserAchievement "u1" "FIRST_WIN" 1000 false None) eq_refl).
Defined.

(** X18. After [checkAndUnlockAchievements] has run for an existing user,
    [getUserAchievements] on the resulting collection shows unlocked every
    achievement whose condition the user meets, and every achievement that
    was unlocked before. *)
Theorem getUserAchievements_after_unlock (users : Users)
    (store : UserAchievements) (userId : string) (user : IUser) (now : Z)
    (d : AchievementDef) :
  users !! userId = Some user -> In d ACHIEVEMENTS ->
  condition d user = true \/ is_Some (findOne store userId (id d)) ->
  exists v,
    viewOf (getUserAchievements
              (fst (checkAndUnlockAchievements users store userId now))
              userId user) (id d) = Some v
    /\ isUnlocked v = true /\ av_progress v = progress d user.
Proof.
  intros Hu Hd Hc.
  destruct (getUserAchievements_view
              (fst (checkAndUnlockAchievements users store userId now))
              userId user d Hd) as (v & Hv & Hp & _ & Hunl & _).
  exists v. split; [exact Hv|]. split; [|exact Hp].
  apply Hunl. unfold checkAndUnlockAchievements, checkAndUnlockIn. rewrite Hu.
  destruct Hc as [Hc|Hc].
  - destruct (unlock_settles user userId now ACHIEVEMENTS (store, []) d Hd)
      as [H|H]; [exact H|congruence].
  - apply unlock_grows. exact Hc.
Qed.

Lemma getUserAchievements_after_unlock_witness :
  exists v,
    viewOf (getUserAchievements
              (fst (checkAndUnlockAchievements {[ "u1" := winner1 ]} []
                      "u1" 1000))
              "u1" winner1) (id firstWin) = Some v
    /\ isUnlocked v = true /\ av_progress v = progress firstWin winner1.
Proof.
  apply (getUserAchievements_after_unlock {[ "u1" := winner1 ]} [] "u1"
           winner1 1000 firstWin).
  - reflexivity.
  - left. reflexivity.
  - left. reflexivity.
Defined.

Section FindOneAndUpdate.
Variable filter : IUserAchievement -> bool.
Variable update : IUserAchievement -> IUserAchievement.
Hypothesis update_key : forall a, keyOf (update a) = keyOf a.

Lemma findOneAndUpdate_found (store : UserAchievements) :
  snd (findOneAndUpdate filter update store) = update <$> find filter store.
Proof.
  induction store as [|a store IH]; [reflexivity|]. cbn [findOneAndUpdate find].
  destruct (filter a); [reflexivity|].
  destruct (findOneAndUpdate filter update store). exact IH.
Qed.

Lemma findOneAndUpdate_idle (store : UserAchievements) :
  find filter store = None -> fst (findOneAndUpdate filter update store) = store.
Proof.
  induction store as [|a store IH]; [reflexivity|]. cbn [findOneAndUpdate find].
  destruct (filter a); [discriminate|]. intros H.
  destruct (findOneAndUpdate filter update store). cbn in *.
  rewrite IH by exact H. reflexivity.
Qed.

Lemma findOneAndUpdate_keys (store : UserAchievements) :
  map keyOf (fst (findOneAndUpdate filter update store)) = map keyOf store.
Proof.
  induction store as [|a store IH]; [reflexivity|]. cbn [findOneAndUpdate].
  destruct (filter a); cbn; [rewrite update_key; reflexivity|].
  destruct (findOneAndUpdate filter update store). cbn in *.
  rewrite IH. reflexivity.
Qed.

Lemma findOneAndUpdate_first (store : UserAchievements) :
  (forall a, filter a = true -> filter (update a) = true) ->
  find filter (fst (findOneAndUpdate filter update store))
  = update <$> find filter store.
Proof.
  intros Hkeep. induction store as [|a store IH]; [reflexivity|].
  cbn [findOneAndUpdate find]. destruct (filter a) eqn:E.
  - cbn. rewrite (Hkeep a E). reflexivity.
  - destruct (findOneAndUpdate filter update store). cbn in *.
    rewrite E. exact IH.
Qed.

Lemma findOneAndUpdate_others (g : IUserAchievement -> bool)
    (store : UserAchievements) :
  (forall a, filter a = true -> g a = false /\ g (update a) = false) ->
  find g (fst (findOneAndUpdate filter update store)) = find g store.
Proof.
  intros Hoff. induction store as [|a store IH]; [reflexivity|].
  cbn [findOneAndUpdate find]. destruct (filter a) eqn:E.
  - cbn. destruct (Hoff a E) as [-> ->]. reflexivity.
  - destruct (findOneAndUpdate filter update store). cbn in *.
    rewrite IH. reflexivity.
Qed.

End FindOneAndUpdate.

Lemma matches_keyOf (userId achId : string) (a : IUserAchievement) :
  matches userId achId a = true <-> keyOf a = (userId, achId).
Proof.
  unfold matches, keyOf. rewrite andb_true_iff, !bool_decide_eq_true.
  split; [intros [-> ->]; reflexivity|intros [= -> ->]; auto].
Qed.

(** X19. [markAchievementAsSeen] returns the record of the pair with
    [seenByUser] set and [seenAt] stamped, or null when the user has no
    record of the achievement, and then the collection is as before.  It
    never adds, removes or re-keys a record, and leaves the records of every
    other pair as they were; afterwards the record found for the pair is the
    one returned, and [getUserAchievements] shows the achievement unlocked
    and seen at that time. *)
Theorem markAchievementAsSeen_marks (store : UserAchievements)
    (userId achId : string) (now : Z) :
  let out := markAchievementAsSeen store userId achId now in
  let mark a := mkUserAchievement (ua_userId a) (achievementId a)
                  (unlockedAt a) true (Some now) in
  snd out = mark <$> findOne store userId achId
  /\ findOne (fst out) userId achId = snd out
  /\ (snd out = None -> fst out = store)
  /\ map keyOf (fst out) = map keyOf store
  /\ (forall u k, (u, k) <> (userId, achId) ->
        findOne (fst out) u k = findOne store u k)
  /\ (forall user d,
        In d ACHIEVEMENTS -> id d = achId -> NoDup (map keyOf store) ->
        is_Some (findOne store userId achId) ->
        exists v,
          viewOf (getUserAchievements (fst out) userId user) achId = Some v
          /\ isUnlocked v = true /\ av_seenByUser v = true
          /\ av_seenAt v = Some now).
Proof.
  cbn zeta. unfold markAchievementAsSeen.
  set (mark := fun a => mkUserAchievement (ua_userId a) (achievementId a)
                          (unlockedAt a) true (Some now)).
  assert (Hkey : forall a, keyOf (mark a) = keyOf a) by reflexivity.
  assert (Hfound : snd (findOneAndUpdate (matches userId achId) mark store)
                   = mark <$> findOne store userId achId)
    by apply findOneAndUpdate_found.
  assert (Hfirst : findOne (fst (findOneAndUpdate (matches userId achId) mark
                                   store)) userId achId
                   = mark <$> findOne store userId achId).
  { apply findOneAndUpdate_first. intros a Ha.
    apply matches_keyOf. rewrite Hkey. apply matches_keyOf, Ha. }
  assert (Hkeys : map keyOf (fst (findOneAndUpdate (matches userId achId) mark
                                    store)) = map keyOf store)
    by (apply findOneAndUpdate_keys, Hkey).
  split; [exact Hfound|]. split; [rewrite Hfound; exact Hfirst|].
  split; [|split; [exact Hkeys|split]].
  - rewrite Hfound. intros Hnone. apply findOneAndUpdate_idle.
    unfold findOne in Hnone. destruct (find _ store); [discriminate|reflexivity].
  - intros u k Hne. apply findOneAndUpdate_others. intros a Ha.
    apply matches_keyOf in Ha.
    split; apply not_true_is_false; intros Hm; apply matches_keyOf in Hm;
      rewrite ?Hkey in Hm; congruence.
  - intros user d Hd <- Hnd [a Ha].
    destruct (getUserAchievements_view
                (fst (findOneAndUpdate (matches userId (id d)) mark store))
                userId user d Hd) as (v & Hv & _ & _ & Hunl & _ & Hrec).
    rewrite Ha in Hfirst. cbn in Hfirst.
    exists v. split; [exact Hv|]. split; [apply Hunl; eauto|].
    rewrite Hkeys in Hrec. destruct (Hrec Hnd _ Hfirst) as (_ & Hs & Hat).
    split; assumption.
Qed.

Lemma markAchievementAsSeen_marks_witness :
  exists v,
    viewOf (getUserAchievements
              (fst (markAchievementAsSeen
                      [mkUserAchievement "u1" "FIRST_WIN" 1000 false None]
                      "u1" "FIRST_WIN" 2000))
              "u1" winner1) "FIRST_WIN" = Some v
    /\ isUnlocked v = true /\ av_seenByUser v = true
    /\ av_seenAt v = Some 2000.
Proof.
  apply (proj2 (proj2 (proj2 (proj2 (proj2
           (markAchievementAsSeen_marks
              [mkUserAchievement "u1" "FIRST_WIN" 1000 false None]
              "u1" "FIRST_WIN" 2000))))) winner1 firstWin).
  - left. reflexivity.
  - reflexivity.
  - repeat constructor. set_solver.
  - eexists. reflexivity.
Defined.

End AchievementViews.

(** ** Socket service: statistics, clocks and the handlers *)
Section SocketHandlers.
Import Double GameEngine GameModel UserModel AchievementService SocketService.

(** X20. [updateUserStats] counts the game once: the games played grow by
    one, and of wins, losses and draws exactly the counter of the outcome
    grows by one while the other two keep their values, so counters that
    agree with one another still do afterwards.  A win lengthens the win
    streak by one, raises the longest win streak to it when it is longer,
    and ends the loss streak; a loss lengthens the loss streak by one and
    ends the win streak; a draw ends both; the longest win streak changes on
    a win only.  After the call the win streak is running exactly when the
    outcome was a win; wins against the hard AI grow exactly on a win at
    difficulty hard; [fastestWin], [perfectWins] and every field outside the
    stats stay as they were, as does every other user.  For a user that does
    not exist nothing is written and null is returned. *)
Theorem updateUserStats_consistent (us : Users) (userId : string)
    (o : Outcome) (d : option AIService.difficulty) :
  (us !! userId = None -> updateUserStats us userId o d = (us, None))
  /\ (forall u, us !! userId = Some u ->
      exists u',
        updateUserStats us userId o d = (<[userId := u']> us, Some u')
        /\ gamesPlayed (stats u') = gamesPlayed (stats u) + 1
        /\ totalWins (stats u') + totalLoses (stats u') + totalDraws (stats u')
           = totalWins (stats u) + totalLoses (stats u) + totalDraws (stats u)
             + 1
        /\ totalWins (stats u')
           = totalWins (stats u) + (if bool_decide (o = win) then 1 else 0)
        /\ totalLoses (stats u')
           = totalLoses (stats u) + (if bool_decide (o = lose) then 1 else 0)
        /\ totalDraws (stats u')
           = totalDraws (stats u) + (if bool_decide (o = draw) then 1 else 0)
        /\ currentWinStreak (stats u')
           = (if bool_decide (o = win) then currentWinStreak (stats u) + 1
              else 0)
        /\ currentLossStreak (stats u')
           = (if bool_decide (o = lose) then currentLossStreak (stats u) + 1
              else 0)
        /\ longestWinStreak (stats u')
           = (if bool_decide (o = win)
              then Z.max (longestWinStreak (stats u))
                     (currentWinStreak (stats u) + 1)
              else longestWinStreak (stats u))
        /\ (statsConsistent (stats u) ->
            statsConsistent (stats u')
            /\ (o = win <-> 0 < currentWinStreak (stats u')))
        /\ expertAiWins (stats u')
           = expertAiWins (stats u)
             + (if bool_decide (o = win /\ d = Some AIService.hard)
                then 1 else 0)
        /\ fastestWin (stats u') = fastestWin (stats u)
        /\ perfectWins (stats u') = perfectWins (stats u)
        /\ email u' = email u /\ skillPoints u' = skillPoints u
        /\ currentSkill u' = currentSkill u
        /\ currentSkillAchievedAt u' = currentSkillAchievedAt u
        /\ lastSeenLevelUpAt u' = lastSeenLevelUpAt u
        /\ nextSkill u' = nextSkill u
        /\ UserModel.pointsToNextLevel u' = UserModel.pointsToNextLevel u
        /\ (forall other, other <> userId ->
              fst (updateUserStats us userId o d) !! other = us !! other)).
Proof.
  unfold updateUserStats. split; [intros ->; reflexivity|].
  intros u ->. eexists. split; [reflexivity|].
  cbn [stats email skillPoints currentSkill currentSkillAchievedAt
       lastSeenLevelUpAt nextSkill UserModel.pointsToNextLevel fst].
  assert (Hothers : forall u' other, other <> userId ->
            (<[userId := u']> us) !! other = us !! other).
  { intros u' other Hne. apply lookup_insert_ne. congruence. }
  destruct o; cbn [gamesPlayed totalWins totalLoses totalDraws
                   currentWinStreak currentLossStreak longestWinStreak
                   expertAiWins fastestWin perfectWins].
  - rewrite (bool_decide_eq_true_2 (win = win)) by reflexivity.
    rewrite (bool_decide_eq_false_2 (win = lose)) by discriminate.
    rewrite (bool_decide_eq_false_2 (win = draw)) by discriminate.
    split; [reflexivity|]. split; [lia|].
    split; [reflexivity|]. split; [lia|]. split; [lia|].
    split; [reflexivity|]. split; [reflexivity|].
    split.
    { destruct (_ >? _) eqn:E;
        [rewrite Z.gtb_ltb in E; apply Z.ltb_lt in E
        |rewrite Z.gtb_ltb in E; apply Z.ltb_ge in E]; lia. }
    split.
    { intros (Hg & Hw & Hl & Hs & Hone & He & Hd').
      split; [|split; [lia|reflexivity]].
      unfold statsConsistent.
      cbn [gamesPlayed totalWins totalLoses totalDraws currentWinStreak
           currentLossStreak longestWinStreak expertAiWins].
      destruct (_ >? _) eqn:E;
        [rewrite Z.gtb_ltb in E; apply Z.ltb_lt in E
        |rewrite Z.gtb_ltb in E; apply Z.ltb_ge in E];
        destruct (bool_decide (d = Some AIService.hard)); lia. }
    split; [|repeat split; auto].
    destruct (bool_decide (d = Some AIService.hard)) eqn:E.
    + apply bool_decide_eq_true in E.
      rewrite bool_decide_eq_true_2 by auto. reflexivity.
    + apply bool_decide_eq_false in E.
      rewrite bool_decide_eq_false_2 by tauto. lia.
  - rewrite (bool_decide_eq_false_2 (lose = win)) by discriminate.
    rewrite (bool_decide_eq_true_2 (lose = lose)) by reflexivity.
    rewrite (bool_decide_eq_false_2 (lose = draw)) by discriminate.
    split; [reflexivity|]. split; [lia|].
    split; [lia|]. split; [reflexivity|]. split; [lia|].
    split; [reflexivity|]. split; [reflexivity|]. split; [reflexivity|].
    split.
    { intros (Hg & Hw & Hl & Hs & Hone & He & Hd').
      split; [|split; [discriminate|lia]].
      unfold statsConsistent.
      cbn [gamesPlayed totalWins totalLoses totalDraws currentWinStreak
           currentLossStreak longestWinStreak expertAiWins]. lia. }
    rewrite bool_decide_eq_false_2 by (intros [? _]; discriminate).
    split; [lia|repeat split; auto].
  - rewrite (bool_decide_eq_false_2 (draw = win)) by discriminate.
    rewrite (bool_decide_eq_false_2 (draw = lose)) by discriminate.
    rewrite (bool_decide_eq_true_2 (draw = draw)) by reflexivity.
    split; [reflexivity|]. split; [lia|].
    split; [lia|]. split; [lia|]. split; [reflexivity|].
    split; [reflexivity|]. split; [reflexivity|]. split; [reflexivity|].
    split.
    { intros (Hg & Hw & Hl & Hs & Hone & He & Hd').
      split; [|split; [discriminate|lia]].
      unfold statsConsistent.
      cbn [gamesPlayed totalWins totalLoses totalDraws currentWinStreak
           currentLossStreak longestWinStreak expertAiWins]. lia. }
    rewrite bool_decide_eq_false_2 by (intros [? _]; discriminate).
    split; [lia|repeat split; auto].
Qed.

Lemma updateUserStats_consistent_witness :
  exists u',
    updateUserStats {[ "u1" := winner1 ]} "u1" win (Some AIService.hard)
    = (<["u1" := u']> {[ "u1" := winner1 ]}, Some u')
    /\ statsConsistent (stats u')
    /\ gamesPlayed (stats u') = 2 /\ expertAiWins (stats u') = 1
    /\ totalWins (stats u') = 2 /\ totalLoses (stats u') = 0
    /\ totalDraws (stats u') = 0 /\ email u' = email winner1.
Proof.
  destruct (proj2 (updateUserStats_consistent {[ "u1" := winner1 ]} "u1" win
                     (Some AIService.hard)) winner1)
    as (u' & Hu & Hg & _ & Hw & Hl & Hd & _ & _ & _ & Hc & He & _ & _
        & Hmail & _); [reflexivity|].
  exists u'. split; [exact Hu|]. split; [|repeat split; assumption].
  apply Hc. unfold statsConsistent. simpl. lia.
Defined.

(** X21. The roll-up of a completed game leaves games, moves, timers and
    deferred AI turns alone.  When the owner exists, the owner's games played
    grow by one and the skill points by the reward of the outcome, which the
    [game-end] payload reports; no other user changes; the achievement
    records added are the owner's, for achievements not unlocked before, and
    are the ones the payload lists; and after a win the owner has the
    FIRST_WIN record.  When the owner does not exist, or the game has no
    outcome, nothing is written. *)
Theorem rollup_rewards (w : World) (gid : string) (game : IGame)
    (line : option (list nat)) (moveCount now : Z) :
  let out := rollup w gid game line moveCount now in
  (games (fst out) = games w /\ moves (fst out) = moves w
   /\ gameTimers (fst out) = gameTimers w /\ aiTasks (fst out) = aiTasks w
   /\ pl_result (snd out) = outcome game /\ pl_moves (snd out) = moveCount)
  /\ (outcome game = None \/ users w !! user game = None ->
      users (fst out) = users w /\ achievements (fst out) = achievements w
      /\ pl_leveledUp (snd out) = false /\ pl_newAchievements (snd out) = []
      /\ pl_skillPoints (snd out) = 0)
  /\ (forall o u, outcome game = Some o -> users w !! user game = Some u ->
      let points := default 0 (skillPoints u) + Progression.POINT_REWARDS o in
      (exists u',
          users (fst out) !! user game = Some u'
          /\ gamesPlayed (stats u') = gamesPlayed (stats u) + 1
          /\ skillPoints u' = Some points)
      /\ (forall other, other <> user game ->
            users (fst out) !! other = users w !! other)
      /\ pl_skillPoints (snd out) = points
      /\ addedBy (user game) (achievements w) (achievements (fst out))
           (pl_newAchievements (snd out))
      /\ (o = win -> 0 <= totalWins (stats u) ->
          is_Some (findOne (achievements (fst out)) (user game) "FIRST_WIN"))).
Proof.
  cbn zeta. split; [|split].
  - destruct (rollup_world w gid game line moveCount now)
      as (Hg & Hm & Ht & Ha & _ & Hr & _).
    repeat split; try assumption.
    unfold rollup. destruct (outcome game); [|reflexivity].
    destruct (updateUserStats _ _ _ _) as [us1 updatedUser].
    destruct (match updatedUser with Some _ => _ | None => _ end).
    destruct (ProgressionService.applyGameResult _ _ _ _). reflexivity.
  - unfold rollup. destruct (outcome game) as [o|] eqn:Ho;
      [|intros _; repeat split].
    intros [Hnone|Hnone]; [discriminate|].
    unfold updateUserStats, ProgressionService.applyGameResult.
    rewrite Hnone. cbn. rewrite Hnone. cbn. repeat split.
  - intros o u Ho Hu. unfold rollup. rewrite Ho.
    unfold updateUserStats. rewrite Hu. cbn zeta.
    set (u1 := mkUser _ _ _ _ _ _ _ _).
    assert (Hu1 : <[user game := u1]> (users w) !! user game = Some u1)
      by apply lookup_insert_eq.
    unfold checkAndUnlockAchievements, checkAndUnlockIn. rewrite Hu1.
    pose proof (unlock_added u1 (user game) now (achievements w)
                  Achievements.ACHIEVEMENTS (achievements w, [])) as Hadded.
    pose proof (unlock_settles u1 (user game) now Achievements.ACHIEVEMENTS
                  (achievements w, []) firstWin (or_introl eq_refl)) as Hfirst.
    destruct (fold_left _ _ _) as [store1 newAchievements].
    unfold ProgressionService.applyGameResult. rewrite Hu1. cbn zeta.
    cbn [fst snd users achievements with_users pl_skillPoints
         pl_newAchievements default ProgressionService.newSkillPoints].
    split; [|split; [|split; [|split]]].
    + eexists. split; [apply lookup_insert_eq|].
      cbn [stats skillPoints]. split; [|reflexivity].
      unfold u1. cbn [stats]. destruct o; reflexivity.
    + intros other Hne. rewrite !lookup_insert_ne by congruence. reflexivity.
    + reflexivity.
    + apply Hadded. exists []. rewrite app_nil_r.
      split; [reflexivity|]. split; [reflexivity|]. intros ? [].
    + intros -> Hwins. destruct Hfirst as [H|H]; [exact H|].
      exfalso. unfold u1 in H. cbn in H.
      rewrite Z.geb_leb in H. apply Z.leb_gt in H. lia.
Qed.

Lemma rollup_rewards_witness :
  (exists u',
      users (fst (rollup timedWorld "g1"
                    (set_outcome (Some win) timedGame) None 5 1000))
        !! "u1" = Some u'
      /\ gamesPlayed (stats u') = 1 /\ skillPoints u' = Some 25)
  /\ is_Some (findOne
                (achievements
                   (fst (rollup timedWorld "g1"
                           (set_outcome (Some win) timedGame) None 5 1000)))
                "u1" "FIRST_WIN").
Proof.
  destruct (proj2 (proj2 (rollup_rewards timedWorld "g1"
                            (set_outcome (Some win) timedGame) None 5 1000))
              win (newUser "ann@example.org"))
    as (Hu & _ & _ & _ & Hfirst); [reflexivity|reflexivity|].
  split; [exact Hu|]. apply Hfirst; [reflexivity|simpl; lia].
Defined.

Lemma Math_max0_above (x : float64) :
  fltb zero x = true -> Math_max0 x = x.
Proof. unfold Math_max0. intros H. destruct x; rewrite ?H; auto. Qed.

Lemma Math_max0_below (x : float64) :
  fleb x zero = true -> Math_max0 x = zero.
Proof.
  unfold Math_max0. destruct x as [s|s| |s m e]; try destruct s;
    cbn; auto; discriminate.
Qed.

Lemma Math_max0_not_negative (x : float64) : fltb (Math_max0 x) zero = false.
Proof.
  unfold Math_max0. destruct x as [s|s| |s m e]; try destruct s; reflexivity.
Qed.

Lemma Math_max0_sign (x : float64) :
  Math_max0 x = S754_nan \/ Math_max0 x = zero
  \/ Math_max0 x = S754_infinity false
  \/ exists m e, Math_max0 x = S754_finite false m e.
Proof.
  unfold Math_max0. destruct x as [s|s| |s m e]; try destruct s; cbn; eauto 6.
Qed.

Lemma binary_round_aux_sign (prec emax : Z) (sx : bool) (mx ex : Z)
    (lx : location) :
  let r := binary_round_aux prec emax sx mx ex lx in
  r = S754_nan \/ r = S754_zero sx \/ r = S754_infinity sx
  \/ exists m e, r = S754_finite sx m e.
Proof.
  cbn zeta. unfold binary_round_aux.
  destruct (shr_fexp prec emax mx ex lx) as [mrs' e'].
  destruct (shr_fexp prec emax _ e' loc_Exact) as [mrs'' e''].
  destruct (shr_m mrs''); eauto 6.
  destruct (e'' <=? emax - prec)%Z; eauto 6.
Qed.

Lemma fmul_not_negative (x : float64) (m : positive) (e : Z) :
  x = S754_nan \/ x = zero \/ x = S754_infinity false
  \/ (exists mx ex, x = S754_finite false mx ex) ->
  fltb (fmul x (S754_finite false m e)) zero = false.
Proof.
  intros [->|[->|[->|(mx & ex & ->)]]]; try reflexivity.
  unfold fmul, SFmul. cbn [xorb].
  destruct (binary_round_aux_sign 53 1024 false (Z.pos (mx * m)) (ex + e)
              loc_Exact) as [H|[H|[H|(m' & e' & H)]]];
    rewrite H; reflexivity.
Qed.

(** X22. [deductTimerOnMove] does nothing and returns null when the game has
    no timer.  Otherwise it charges the time since the clock was started to
    the mover only, in the double-precision arithmetic of the source: the
    elapsed time is the number of milliseconds since the start divided by
    1000 (0 when the clock is not running), the mover's remaining time is
    [Math.max(0, before - elapsed)], that is the difference when it is above
    0 and 0 when it is 0 or below, and so never below 0; a positive time is
    kept as it is when the clock is not running; the other clock, the status
    and the outcome stay as they were; the clock is restarted at the current
    time, except that it is stopped when the owner has moved against the AI;
    and the times returned are the ones assigned. *)
Theorem deductTimerOnMove_charges (game : IGame) (p : player) (now : Z) :
  let assigned := fst (deductTimerOnMove game p now) in
  let elapsed := match timerLastStartedAt game with
                 | Some started => fdiv (ofZ (now - started)) (ofZ 1000)
                 | None => zero
                 end in
  let before := match p with
                | X => playerXTimeRemaining game
                | O => playerOTimeRemaining game
                end in
  let after := match p with
               | X => playerXTimeRemaining (assigned game)
               | O => playerOTimeRemaining (assigned game)
               end in
  (timerEnabled game = false ->
   assigned game = game /\ snd (deductTimerOnMove game p now) = None)
  /\ (timerEnabled game = true ->
      snd (deductTimerOnMove game p now)
      = Some (playerXTimeRemaining (assigned game),
              playerOTimeRemaining (assigned game))
      /\ after = Math_max0 (fsub before elapsed)
      /\ (fltb zero (fsub before elapsed) = true ->
          after = fsub before elapsed)
      /\ (fleb (fsub before elapsed) zero = true -> after = zero)
      /\ fltb after zero = false
      /\ (timerLastStartedAt game = None -> fltb zero before = true ->
          after = before)
      /\ match p with
         | X => playerOTimeRemaining (assigned game)
                = playerOTimeRemaining game
         | O => playerXTimeRemaining (assigned game)
                = playerXTimeRemaining game
         end
      /\ timerLastStartedAt (assigned game)
         = (if bool_decide (vs game = AI /\ p = X) then None else Some now)
      /\ status (assigned game) = status game
      /\ outcome (assigned game) = outcome game).
Proof.
  cbn zeta. unfold deductTimerOnMove. split.
  - intros ->. split; reflexivity.
  - intros ->. cbn [negb fst snd].
    set (elapsed := match timerLastStartedAt game with
                    | Some started => fdiv (ofZ (now - started)) (ofZ 1000)
                    | None => zero
                    end).
    assert (Harm : (bool_decide (vs game = AI)
                    && bool_decide (other p = O))
                   = bool_decide (vs game = AI /\ p = X)).
    { destruct p; cbn [other].
      - rewrite (bool_decide_eq_true_2 (O = O)) by reflexivity.
        rewrite andb_true_r. apply bool_decide_ext. tauto.
      - rewrite (bool_decide_eq_false_2 (X = O)) by discriminate.
        rewrite andb_false_r. symmetry. apply bool_decide_eq_false_2.
        intros [_ ?]. discriminate. }
    rewrite Harm. clear Harm.
    split; [reflexivity|].
    assert (Hafter :
      match p with
      | X => playerXTimeRemaining
               ((if bool_decide (vs game = AI /\ p = X)
                 then set_timerLastStartedAt None
                 else set_timerLastStartedAt (Some now))
                  (match p with
                   | X => set_playerXTimeRemaining
                            (Math_max0
                               (fsub (playerXTimeRemaining game) elapsed))
                   | O => set_playerOTimeRemaining
                            (Math_max0
                               (fsub (playerOTimeRemaining game) elapsed))
                   end game))
      | O => playerOTimeRemaining
               ((if bool_decide (vs game = AI /\ p = X)
                 then set_timerLastStartedAt None
                 else set_timerLastStartedAt (Some now))
                  (match p with
                   | X => set_playerXTimeRemaining
                            (Math_max0
                               (fsub (playerXTimeRemaining game) elapsed))
                   | O => set_playerOTimeRemaining
                            (Math_max0
                               (fsub (playerOTimeRemaining game) elapsed))
                   end game))
      end
      = Math_max0 (fsub (match p with
                         | X => playerXTimeRemaining game
                         | O => playerOTimeRemaining game
                         end) elapsed)).
    { destruct p, (bool_decide _); reflexivity. }
    rewrite Hafter.
    split; [reflexivity|].
    split; [apply Math_max0_above|].
    split; [apply Math_max0_below|].
    split; [apply Math_max0_not_negative|].
    split.
    + intros Hnone Hpos. subst elapsed. rewrite Hnone.
      set (before := match p with
                     | X => playerXTimeRemaining game
                     | O => playerOTimeRemaining game
                     end) in *.
      assert (Hsub : fsub before zero = before).
      { destruct before as [s|s| |s m e]; try destruct s;
          try reflexivity; discriminate. }
      rewrite Hsub. apply Math_max0_above, Hpos.
    + destruct p, (bool_decide _); repeat split.
Qed.

Lemma deductTimerOnMove_charges_witness :
  playerXTimeRemaining (fst (deductTimerOnMove timedGame X 2026) timedGame)
  = Math_max0 (fsub (ofZ 60) (fdiv (ofZ 2026) (ofZ 1000)))
  /\ Math_max0 (fsub (ofZ 60) (fdiv (ofZ 2026) (ofZ 1000)))
     = S754_finite false 8159115149911786 (-47)
  /\ toQ (S754_finite false 8159115149911786 (-47))
     = (8159115149911786 # 140737488355328)%Q
  /\ (57974 # 1000 < 8159115149911786 # 140737488355328)%Q.
Proof.
  split; [|repeat split].
  apply (proj1 (proj2 (proj2 (deductTimerOnMove_charges timedGame X 2026)
                         eq_refl))).
Defined.

Lemma with_timers_same (w : World) : with_timers (gameTimers w) w = w.
Proof. destruct w; reflexivity. Qed.

Lemma clearGameTimer_idle (w : World) (gid : string) :
  gameTimers w !! gid = None -> clearGameTimer gid w = w.
Proof.
  intros H. unfold clearGameTimer. rewrite delete_id by exact H.
  apply with_timers_same.
Qed.

Lemma handleTimeout_world (w : World) (gid : string) (p : player) (now : Z) :
  let out := handleTimeout w gid p now in
  gameTimers (fst out) = delete gid (gameTimers w)
  /\ moves (fst out) = moves w /\ aiTasks (fst out) = aiTasks w
  /\ (forall g, games (fst out) !! gid = Some g -> status g <> in_progress)
  /\ (forall gid', gid' <> gid -> games (fst out) !! gid' = games w !! gid').
Proof.
  unfold handleTimeout. cbn zeta.
  cbn [games clearGameTimer with_timers].
  destruct (games w !! gid) as [g0|] eqn:Hg.
  - destruct (bool_decide (status g0 = in_progress)) eqn:Hs; cbn [negb].
    + open_rollup R. destruct R as (Rg & Rm & Rt & Ra & _).
      cbn [fst]. rewrite Rg, Rm, Rt, Ra. cbn.
      repeat split; try reflexivity.
      * intros g'. rewrite lookup_alter_eq, Hg. intros [= <-].
        destruct (forfeit_fields p now g0 g0) as (-> & _). discriminate.
      * intros gid' Hne. apply lookup_alter_ne. congruence.
    + apply bool_decide_eq_false in Hs. cbn.
      repeat split; try reflexivity.
      intros g. rewrite Hg. intros [= <-]. exact Hs.
  - cbn. repeat split; try reflexivity.
    intros g. rewrite Hg. discriminate.
Qed.

(** X23. After [handleTimeout] the game has no pending timer, whatever the
    outcome of the call, and the timers of the other games, the moves and
    the deferred AI turns are as before.  A game is forfeited at most once:
    a second timeout for the same game, for either player and at any later
    time, writes nothing and emits nothing. *)
Theorem handleTimeout_once (w : World) (gid : string) (p p' : player)
    (now now' : Z) :
  let out := handleTimeout w gid p now in
  gameTimers (fst out) !! gid = None
  /\ (forall gid', gid' <> gid ->
        gameTimers (fst out) !! gid' = gameTimers w !! gid')
  /\ moves (fst out) = moves w /\ aiTasks (fst out) = aiTasks w
  /\ handleTimeout (fst out) gid p' now' = (fst out, []).
Proof.
  cbn zeta.
  destruct (handleTimeout_world w gid p now) as (Ht & Hm & Ha & Hs & _).
  cbn zeta in Ht, Hs.
  assert (Hnone : gameTimers (fst (handleTimeout w gid p now)) !! gid = None)
    by (rewrite Ht; apply lookup_delete_eq).
  split; [exact Hnone|]. split.
  { intros gid' Hne. rewrite Ht. apply lookup_delete_ne. congruence. }
  split; [exact Hm|]. split; [exact Ha|].
  set (w1 := fst (handleTimeout w gid p now)) in *.
  unfold handleTimeout. cbn zeta. rewrite (clearGameTimer_idle w1 gid Hnone).
  destruct (games w1 !! gid) as [g|] eqn:Hg; [|reflexivity].
  rewrite bool_decide_eq_false_2 by (apply Hs; reflexivity). reflexivity.
Qed.

Lemma handleTimeout_once_witness :
  gameTimers (fst (handleTimeout timedWorld "g1" X 60000)) !! "g2"
  = gameTimers timedWorld !! "g2".
Proof.
  apply (proj1 (proj2 (handleTimeout_once timedWorld "g1" X O 60000 70000))).
  discriminate.
Defined.

(** X24. [join-game] writes no game, move, user or achievement and touches
    no deferred AI turn and no timer of another game.  A timer that is
    pending for the game is never replaced.  A timer is set only for a timed
    game in progress whose clock is running, for the player whose turn it is
    by the count of moves, with a delay that is not negative; and the only
    thing emitted is at most one [timer-update] naming that player. *)
Theorem joinGame_timer (w : World) (gid : string) (now : Z) :
  let out := joinGame w gid now in
  let turn := turnOf (Z.of_nat (length (findMoves (moves w) gid))) in
  (games (fst out) = games w /\ moves (fst out) = moves w
   /\ users (fst out) = users w /\ achievements (fst out) = achievements w
   /\ aiTasks (fst out) = aiTasks w)
  /\ (forall gid', gid' <> gid ->
        gameTimers (fst out) !! gid' = gameTimers w !! gid')
  /\ (forall t, gameTimers w !! gid = Some t ->
        gameTimers (fst out) !! gid = Some t)
  /\ (gameTimers w !! gid = None ->
      forall t, gameTimers (fst out) !! gid = Some t ->
        activePlayer t = turn /\ fltb (remainingMs t) zero = false
        /\ exists game,
             games w !! gid = Some game /\ timerEnabled game = true
             /\ status game = in_progress
             /\ is_Some (timerLastStartedAt game))
  /\ (snd out = []
      \/ exists x o, snd out = [TimerUpdate gid x o (Some turn)]).
Proof.
  cbn zeta. unfold joinGame.
  destruct (games w !! gid) as [game|] eqn:Hg;
    [|cbn; repeat split; auto; intros; congruence].
  destruct (timerLastStartedAt game) as [started|] eqn:Hstart;
    [|cbn; repeat split; auto; intros; congruence].
  destruct (timerEnabled game) eqn:Hen; cbn [andb];
    [|cbn; repeat split; auto; intros; congruence].
  destruct (bool_decide (status game = in_progress)) eqn:Hst;
    [|cbn; repeat split; auto; intros; congruence].
  apply bool_decide_eq_true in Hst. cbn zeta. cbn [fst snd].
  set (turn := turnOf (Z.of_nat (length (findMoves (moves w) gid)))).
  set (remaining := match turn with
                    | X => Math_max0 _
                    | O => Math_max0 _
                    end).
  assert (Hrem : fltb (fmul remaining (ofZ 1000)) zero = false).
  { assert (H1000 : exists m e, ofZ 1000 = S754_finite false m e)
      by (vm_compute; eauto).
    destruct H1000 as (m & e & ->). apply fmul_not_negative.
    unfold remaining. destruct turn; apply Math_max0_sign. }
  destruct (gameTimers w !! gid) as [t0|] eqn:Ht0.
  - split; [repeat split|]. split; [reflexivity|].
    split; [intros t [= <-]; exact Ht0|].
    split; [discriminate|]. right. eauto.
  - cbn. split; [repeat split|]. split.
    { intros gid' Hne. rewrite lookup_insert_ne by congruence.
      apply lookup_delete_ne. congruence. }
    split; [discriminate|]. split; [|eauto].
    intros _ t. rewrite lookup_insert_eq. intros [= <-]. cbn.
    split; [reflexivity|]. split; [exact Hrem|].
    exists game. rewrite Hstart. eauto.
Qed.

Lemma joinGame_timer_witness :
  gameTimers (fst (joinGame timedWorld "g1" 5000)) !! "g1"
  = Some (mkTimer (ofZ 60000) X).
Proof.
  apply (proj1 (proj2 (proj2 (joinGame_timer timedWorld "g1" 5000)))).
  reflexivity.
Defined.

Lemma insertByNumber_length (m : IMove) (sorted : list IMove) :
  length (insertByNumber m sorted) = S (length sorted).
Proof.
  induction sorted as [|m' rest IH]; [reflexivity|]. cbn [insertByNumber].
  destruct (_ <? _); cbn [length]; [reflexivity|]. rewrite IH. reflexivity.
Qed.

Lemma findMoves_length (collection : list IMove) (gid : string) :
  length (findMoves collection gid)
  = length (List.filter (fun m => bool_decide (gameId m = gid)) collection).
Proof.
  unfold findMoves.
  assert (H : forall l sorted,
             length (fold_left (fun sorted m => insertByNumber m sorted) l
                       sorted)
             = (length sorted + length l)%nat).
  { induction l as [|m l IH]; intros sorted; cbn [fold_left length]; [lia|].
    rewrite IH, insertByNumber_length. lia. }
  rewrite H. reflexivity.
Qed.

Lemma updateMany_filter (collection : list IMove) (ids : list nat)
    (moveNumber' now : Z) (gid : string) :
  length (List.filter (fun m => bool_decide (gameId m = gid))
            (updateMany collection ids moveNumber' now))
  = length (List.filter (fun m => bool_decide (gameId m = gid)) collection).
Proof.
  unfold updateMany. induction collection as [|m l IH]; [reflexivity|].
  cbn [map List.filter].
  replace (gameId (if bool_decide (_id m ∈ ids)
                   then expire moveNumber' now m else m))
    with (gameId m) by (destruct (bool_decide _); reflexivity).
  destruct (bool_decide (gameId m = gid)); cbn [length]; rewrite IH;
    reflexivity.
Qed.

Lemma findMoves_appended (collection : list IMove) (ids : list nat)
    (moveNumber' now : Z) (m : IMove) (gid : string) :
  length (findMoves (updateMany collection ids moveNumber' now ++ [m]) gid)
  = (length (findMoves collection gid)
     + if bool_decide (gameId m = gid) then 1 else 0)%nat.
Proof.
  rewrite !findMoves_length, List.filter_app, length_app, updateMany_filter.
  cbn [List.filter]. destruct (bool_decide _); reflexivity.
Qed.

Lemma getActiveBoardFromMoves_last (moves : list MoveView) (n pos : Z)
    (p : player) :
  0 <= pos <= 8 ->
  getActiveBoardFromMoves (moves ++ [mkMoveView n pos p None]) n
    !! Z.to_nat pos = Some (Some p).
Proof.
  intros Hpos. unfold getActiveBoardFromMoves.
  rewrite List.filter_app. cbn [List.filter isActive expiredOnMove].
  rewrite getBoardFromMoves_snoc. cbn [position player_of].
  replace ((0 <=? pos) && (pos <? 9)) with true
    by (symmetry; apply andb_true_iff; split;
        [apply Z.leb_le|apply Z.ltb_lt]; lia).
  apply list_lookup_insert_eq. rewrite getBoardFromMoves_length. lia.
Qed.

Lemma gameEndEvents_quiet (gid : string) (game : IGame)
    (payload : GameEndPayload) :
  forallb (fun e => negb (isError e)) (gameEndEvents gid game payload) = true.
Proof. reflexivity. Qed.

Lemma expiredEvents_quiet (gid : string) (simple : list (Z * player)) :
  forallb (fun e => negb (isError e)) (expiredEvents gid simple) = true.
Proof. destruct simple; reflexivity. Qed.

(** X25. [make-move] either turns the request down, with one [error] event
    to the caller and nothing written, or stores exactly one new move for
    the game and emits no error.  The move stored is the caller's: it is
    numbered one above the moves the game had, is played by the player whose
    turn it is by that count, at a position from 0 to 8 that was free on the
    board replayed from the game's unexpired moves, which is the board
    stored as the one before the move, and the board stored as the one
    after it shows that player at the position.  A position outside 0 to 8,
    or one that is taken on the replayed board, is always turned down.  Only
    a game that was neither completed nor abandoned accepts a move, and only
    from its owner or its opponent; except in a local game of two humans on
    the owner's device, the owner plays [X] and the opponent [O]. *)
Theorem makeMove_accepts_or_rejects (w : World) (gid : string) (position : Z)
    (userId : string) (now : Z) :
  let out := makeMove w gid position userId now in
  let found := findMoves (moves w) gid in
  let count := Z.of_nat (length found) in
  let replayed :=
    getActiveBoardFromMoves
      (map (fun m => view m (m_expiredOnMove m)) found) count in
  (rejected w out
  \/ exists game m rest,
       games w !! gid = Some game
       /\ status game <> completed /\ status game <> abandoned
       /\ (user game = userId \/ opponentId game = Some userId)
       /\ moves (fst out) = rest ++ [m]
       /\ length rest = length (moves w)
       /\ (forall gid',
             length (findMoves (moves (fst out)) gid')
             = (length (findMoves (moves w) gid')
                + if bool_decide (gid = gid') then 1 else 0)%nat)
       /\ gameId m = gid /\ _id m = length (moves w)
       /\ m_moveNumber m = count + 1 /\ m_position m = position
       /\ m_player m = turnOf count /\ isAiMove m = false
       /\ (~ (vs game = Human /\ opponentId game = None) ->
           m_player m = if bool_decide (user game = userId) then X else O)
       /\ 0 <= position <= 8
       /\ boardStateBeforeMove m = replayed
       /\ replayed !! Z.to_nat position = Some None
       /\ boardStateBeforeMove m !! Z.to_nat position = Some None
       /\ boardStateAfterMove m !! Z.to_nat position
          = Some (Some (turnOf count))
       /\ forallb (fun e => negb (isError e)) (snd out) = true)
  /\ (~ (0 <= position <= 8
         /\ replayed !! Z.to_nat position = Some None) ->
      rejected w out).
Proof.
  cbn zeta.
  match goal with
  | |- ?A /\ _ => assert (P : A)
  end;
    [|split; [exact P|];
      intros Hn; destruct P as [P|P]; [exact P|]; exfalso; apply Hn;
      destruct P as (game & m & rest & P);
      repeat match type of P with
             | _ /\ _ => let H := fresh "P" in destruct P as [H P]
             end; split; assumption].
  unfold makeMove.
  destruct (games w !! gid) as [game0|] eqn:Hgame;
    [|left; split; [reflexivity|eauto]].
  cbv zeta.
  destruct (rollDuration_fields now game0 game0)
    as (Hstatus & _ & _ & _ & _ & _ & _ & Huser).
  set (game := rollDuration now game0 game0) in *.
  assert (Hopp : opponentId game = opponentId game0).
  { unfold game, rollDuration. destruct (_ >? _); reflexivity. }
  assert (Hvs : vs game = vs game0).
  { unfold game, rollDuration. destruct (_ >? _); reflexivity. }
  destruct (negb (bool_decide (user game = userId)) && _ && _) eqn:Hauth;
    [left; split; [reflexivity|eauto]|].
  destruct (bool_decide (status game = completed)
            || bool_decide (status game = abandoned)) eqn:Hactive;
    [left; split; [reflexivity|eauto]|].
  destruct (bool_decide (vs game = AI) && _) eqn:Hdiff;
    [left; split; [reflexivity|eauto]|].
  set (found := findMoves (moves w) gid).
  set (count := Z.of_nat (length found)).
  set (board0 := if count >? 0 then _ else emptyBoard).
  set (isLocalHuman := bool_decide (vs game = Human) && _ && _) in *.
  set (playerSymbol := if isLocalHuman then turnOf count else _).
  destruct (bool_decide (turnOf count = playerSymbol)) eqn:Hturn;
    cbn [negb]; [|left; split; [reflexivity|eauto]].
  apply bool_decide_eq_true in Hturn.
  assert (Hsym : ~ (vs game0 = Human /\ opponentId game0 = None) ->
                 turnOf count
                 = if bool_decide (user game0 = userId) then X else O).
  { intros Hlocal. rewrite Hturn. unfold playerSymbol, isLocalHuman.
    rewrite <- Huser.
    destruct (bool_decide (vs game = Human)) eqn:E1; [|reflexivity].
    destruct (bool_decide (is_Some (opponentId game))) eqn:E2;
      [reflexivity|].
    exfalso. apply Hlocal. apply bool_decide_eq_true in E1.
    apply bool_decide_eq_false in E2. rewrite Hopp in E2. split.
    - rewrite <- Hvs. exact E1.
    - destruct (opponentId game0); [destruct E2; eauto|reflexivity]. }
  rewrite <- Hturn. clear Hturn.
  clearbody playerSymbol. clear playerSymbol.
  destruct (applyMove board0 position (turnOf count)) as [b1|] eqn:Happly;
    [|left; split; [reflexivity|eauto]].
  apply applyMove_Some in Happly as (Hpos & Hfree & _).
  assert (Hboard : board0
                   = getActiveBoardFromMoves
                       (map (fun m => view m (m_expiredOnMove m)) found)
                       count).
  { unfold board0. destruct (count >? 0) eqn:E; [reflexivity|].
    rewrite Z.gtb_ltb in E. apply Z.ltb_ge in E.
    unfold count in *. destruct found; [reflexivity|]. cbn [length] in E.
    lia. }
  assert (Hfree' : getActiveBoardFromMoves
                     (map (fun m => view m (m_expiredOnMove m)) found) count
                     !! Z.to_nat position = Some None)
    by (rewrite <- Hboard; exact Hfree).
  right.
  apply orb_false_iff in Hactive as [Hc Ha].
  apply bool_decide_eq_false in Hc, Ha. rewrite Hstatus in Hc, Ha.
  assert (Hwho : user game0 = userId \/ opponentId game0 = Some userId).
  { rewrite <- Huser, <- Hopp. unfold isLocalHuman in Hauth.
    destruct (bool_decide (user game = userId)) eqn:E1;
      [left; apply bool_decide_eq_true in E1; exact E1|]. right.
    rewrite andb_false_r in Hauth. cbn [negb andb] in Hauth.
    rewrite andb_true_r in Hauth.
    destruct (opponentId game) as [o|]; [|discriminate Hauth].
    apply negb_false_iff, bool_decide_eq_true in Hauth. congruence. }
  set (toExpireIds := map _id _).
  set (moves1 := updateMany (moves w) toExpireIds (count + 1) now).
  set (movesForBoard := map _ found).
  set (playerBoard := getActiveBoardFromMoves _ (count + 1)).
  set (newMove := mkMove (length moves1) gid (count + 1) position false
                    (turnOf count) board0 playerBoard _ None None None).
  assert (Hlen1 : length moves1 = length (moves w))
    by (unfold moves1, updateMany; apply length_map).
  assert (Hafter : playerBoard !! Z.to_nat position
                   = Some (Some (turnOf count)))
    by (apply getActiveBoardFromMoves_last; exact Hpos).
  assert (Hcount : forall gid',
             length (findMoves (moves1 ++ [newMove]) gid')
             = (length (findMoves (moves w) gid')
                + if bool_decide (gid = gid') then 1 else 0)%nat)
    by (intros gid'; apply findMoves_appended).
  destruct (deductTimerOnMove game (turnOf count) now)
    as [clocked timerState].
  set (finish := conclude playerBoard).
  set (game' := default (fun g => g) finish (clocked game)).
  match goal with
  | |- context [moves (fst ?out)] =>
      assert (Hmoves : moves (fst out) = moves1 ++ [newMove]);
      [|assert (Hquiet : forallb (fun e => negb (isError e)) (snd out) = true);
        [|rewrite Hmoves, Hquiet]]
  end.
  - destruct (bool_decide (status game' = completed)).
    + open_rollup R. destruct R as (_ & Rm & _). cbn [fst]. rewrite Rm.
      destruct (bool_decide (is_Some finish)); reflexivity.
    + cbn [fst].
      repeat (match goal with
              | |- context [if ?c then _ else _] => destruct c
              end;
              cbn [moves save with_games with_moves with_tasks scheduleTimer
                   with_timers clearGameTimer]);
        reflexivity.
  - destruct (bool_decide (status game' = completed)).
    + open_rollup R. cbn [snd].
      rewrite !forallb_app, expiredEvents_quiet.
      destruct timerState as [[x o]|]; reflexivity.
    + cbn [snd]. rewrite !forallb_app, expiredEvents_quiet.
      destruct timerState as [[x o]|]; reflexivity.
  - exists game0, newMove, moves1.
    split; [reflexivity|]. split; [exact Hc|]. split; [exact Ha|].
    split; [exact Hwho|].
    split; [reflexivity|]. split; [exact Hlen1|]. split; [exact Hcount|].
    cbn [gameId _id m_moveNumber m_position m_player isAiMove
         boardStateBeforeMove boardStateAfterMove newMove].
    repeat (split; [first [reflexivity|assumption|lia]|]). reflexivity.
Qed.

Lemma makeMove_accepts_or_rejects_witness :
  (exists m rest,
     moves (fst (makeMove timedWorld "g1" 4 "u1" 1000)) = rest ++ [m]
     /\ m_position m = 4 /\ m_player m = X
     /\ boardStateBeforeMove m = emptyBoard)
  /\ rejected timedWorldMoved (makeMove timedWorldMoved "g1" 4 "u1" 2000).
Proof.
  split.
  - destruct (proj1 (makeMove_accepts_or_rejects timedWorld "g1" 4 "u1" 1000))
      as [[Hw _]|(game & m & rest & P)].
    + apply (f_equal (fun w => length (moves w))) in Hw. vm_compute in Hw.
      discriminate Hw.
    + destruct P as (_ & _ & _ & _ & Hm & _ & _ & _ & _ & _ & Hp & Hx & _
                     & _ & _ & Hb & _).
      exists m, rest. repeat split; assumption.
  - apply (proj2 (makeMove_accepts_or_rejects timedWorldMoved "g1" 4 "u1"
                    2000)).
    intros [_ Hfree]. vm_compute in Hfree. discriminate Hfree.
Defined.

End SocketHandlers.

(** ** Socket service: a completed game stays completed *)

Create HintDb final.

Section CompletedIsFinal.
Import Double GameEngine GameModel UserModel AchievementService SocketService.

Lemma final_id : keepsCompleted (fun g => g).
Proof. intros g H. exact H. Qed.

Lemma final_compose (f f' : IGame -> IGame) :
  keepsCompleted f -> keepsCompleted f' -> keepsCompleted (fun g => f' (f g)).
Proof. intros H H' g Hg. apply H', H, Hg. Qed.

Lemma final_set_playerOTimeRemaining (v : float64) :
  keepsCompleted (set_playerOTimeRemaining v).
Proof. intros g H. exact H. Qed.

Lemma final_set_timerLastStartedAt (v : option Z) :
  keepsCompleted (set_timerLastStartedAt v).
Proof. intros g H. exact H. Qed.

Lemma final_rollDuration (now : Z) (game : IGame) :
  keepsCompleted (rollDuration now game).
Proof.
  intros g H. destruct (rollDuration_fields now game g) as (-> & _). exact H.
Qed.

Lemma final_forfeit (p : player) (now : Z) (game : IGame) :
  keepsCompleted (forfeit p now game).
Proof.
  intros g _. destruct (forfeit_fields p now game g) as (-> & _). reflexivity.
Qed.

Lemma final_conclude (b : board) (f : IGame -> IGame) :
  conclude b = Some f -> keepsCompleted f.
Proof.
  unfold conclude. destruct (checkWinner b) as [winner|].
  - intros [= <-] g _. destruct (getWinningLine b); reflexivity.
  - destruct (isDraw b); [|discriminate]. intros [= <-] g _. reflexivity.
Qed.

Lemma final_deductTimerOnMove (game : IGame) (p : player) (now : Z) :
  keepsCompleted (fst (deductTimerOnMove game p now)).
Proof.
  unfold deductTimerOnMove. destruct (negb (timerEnabled game)); cbn [fst];
    [apply final_id|].
  intros g H. destruct (_ && _), p; exact H.
Qed.

Lemma final_armed (enabled : bool) (now : Z) :
  keepsCompleted (if enabled then set_timerLastStartedAt (Some now)
                  else fun g => g).
Proof.
  destruct enabled; [apply final_set_timerLastStartedAt|apply final_id].
Qed.

#[local] Hint Resolve final_id final_set_playerOTimeRemaining
  final_set_timerLastStartedAt final_rollDuration final_forfeit
  final_deductTimerOnMove final_armed : final.

Ltac final_chain :=
  lazymatch goal with
  | |- keepsCompleted (fun g => ?f (@?h g)) =>
      apply (final_compose h f); final_chain
  | _ => first [assumption | solve [auto with final] | idtac]
  end.

Lemma staysCompleted_saved (w w' : World) (f : IGame -> IGame)
    (gid : string) :
  keepsCompleted f -> games w' = alter f gid (games w) ->
  staysCompleted w w'.
Proof.
  intros Hf Eg gid' g Hg. rewrite Eg.
  destruct (decide (gid = gid')) as [<-|Hne].
  - rewrite lookup_alter_eq, Hg. eexists. split; [reflexivity|apply Hf].
  - rewrite lookup_alter_ne by exact Hne. eauto.
Qed.

Lemma staysCompleted_same (w w' : World) :
  games w' = games w -> staysCompleted w w'.
Proof. intros Eg gid g Hg. rewrite Eg. eauto. Qed.

Lemma staysCompleted_trans (w w' w'' : World) :
  staysCompleted w w' -> staysCompleted w' w'' -> staysCompleted w w''.
Proof.
  intros H H' gid g Hg. destruct (H gid g Hg) as (g' & Hg' & Hs).
  destruct (H' gid g' Hg') as (g'' & Hg'' & Hs'). eauto.
Qed.

Lemma final_snoc (tasks : list AiTask) (task : AiTask) :
  Forall (fun task => keepsCompleted (ai_unsaved task)) tasks ->
  keepsCompleted (ai_unsaved task) ->
  Forall (fun task => keepsCompleted (ai_unsaved task)) (tasks ++ [task]).
Proof.
  intros Ht Htask. apply Forall_app. split; [exact Ht|].
  constructor; [exact Htask|constructor].
Qed.

Lemma handleTimeout_final (w : World) (gid : string) (p : player) (now : Z) :
  staysCompleted w (fst (handleTimeout w gid p now))
  /\ (tasksKeepCompleted w ->
      tasksKeepCompleted (fst (handleTimeout w gid p now))).
Proof.
  unfold handleTimeout, tasksKeepCompleted. cbn zeta.
  cbn [games clearGameTimer with_timers].
  destruct (games w !! gid) as [g0|] eqn:Hg;
    [|split; [apply staysCompleted_same; reflexivity|intros H; exact H]].
  destruct (negb _);
    [split; [apply staysCompleted_same; reflexivity|intros H; exact H]|].
  open_rollup R. destruct R as (Rg & _ & _ & Rt & _). cbn [fst].
  split.
  - apply (staysCompleted_saved w _ (forfeit p now g0) gid);
      [apply final_forfeit|exact Rg].
  - rewrite Rt. intros H. exact H.
Qed.

Lemma makeMove_final (w : World) (gid : string) (position : Z)
    (userId : string) (now : Z) :
  staysCompleted w (fst (makeMove w gid position userId now))
  /\ (tasksKeepCompleted w ->
      tasksKeepCompleted (fst (makeMove w gid position userId now))).
Proof.
  assert (Hidle : staysCompleted w w /\
                  (tasksKeepCompleted w -> tasksKeepCompleted w))
    by (split; [apply staysCompleted_same; reflexivity|tauto]).
  unfold makeMove.
  destruct (games w !! gid) as [game0|]; [|exact Hidle].
  cbv zeta.
  repeat match goal with
         | |- staysCompleted w (fst (if ?c then (w, _) else _)) /\ _ =>
             destruct c; [exact Hidle|]
         end.
  destruct (applyMove _ _ _) as [?|]; [|exact Hidle].
  destruct (deductTimerOnMove _ _ _) as [clocked timerState] eqn:Hclock.
  assert (Hkeep : keepsCompleted clocked).
  { pose proof (final_deductTimerOnMove
                  (rollDuration now game0 game0)
                  (turnOf (Z.of_nat (length (findMoves (moves w) gid)))) now)
      as K.
    rewrite Hclock in K. exact K. }
  match goal with
  | |- context [conclude ?b] =>
      pose proof (final_conclude b) as Kc;
      set (finish := conclude b) in *; clearbody finish
  end.
  set (ended := default (fun g => g) finish).
  assert (Hended : keepsCompleted ended).
  { unfold ended. destruct finish as [f|];
      [apply Kc; reflexivity|apply final_id]. }
  clearbody ended.
  assert (Hassigned : keepsCompleted
            (fun g => ended (clocked (rollDuration now game0 g))))
    by final_chain.
  unfold tasksKeepCompleted.
  destruct (bool_decide (status _ = completed)).
  - open_rollup R. destruct R as (Rg & _ & _ & Rt & _). cbn [fst]. split.
    + eapply (staysCompleted_saved w _ _ gid); [exact Hassigned|].
      rewrite Rg. world_fields; reflexivity.
    + rewrite Rt. intros H. world_fields; exact H.
  - cbn [fst]. split.
    + eapply (staysCompleted_saved w _ _ gid); [exact Hassigned|].
      world_fields; reflexivity.
    + intros H. world_fields;
        first [exact H|apply final_snoc; [exact H|apply final_id]].
Qed.

Lemma aiStart_final (w : World) (i : nat) (delay now : Z) :
  tasksKeepCompleted w ->
  staysCompleted w (fst (aiStart w i delay now))
  /\ tasksKeepCompleted (fst (aiStart w i delay now)).
Proof.
  intros Hw.
  assert (Hidle : staysCompleted w w /\ tasksKeepCompleted w)
    by (split; [apply staysCompleted_same; reflexivity|exact Hw]).
  unfold aiStart.
  destruct (aiTasks w !! i) as [task|] eqn:Htask; [|exact Hidle].
  destruct (ai_thinking task); [exact Hidle|].
  pose proof (Forall_lookup_1 _ _ _ _ Hw Htask) as Hunsaved.
  pose proof (Forall_delete _ _ i Hw) as Hrest.
  cbn beta in Hunsaved.
  set (charge := set_playerOTimeRemaining _).
  assert (Hcharged : keepsCompleted (fun g => charge (ai_unsaved task g)))
    by (unfold charge; final_chain).
  cbv zeta. destruct (timerEnabled (ai_game task)).
  - destruct (fleb _ zero).
    + match goal with
      | |- staysCompleted w (fst (handleTimeout ?w1 ?gid ?p ?t)) /\ _ =>
          destruct (handleTimeout_final w1 gid p t) as [Hs Ht];
          split; [apply (staysCompleted_trans w w1)|apply Ht]
      end.
      * eapply (staysCompleted_saved w _ _ (ai_gameId task));
          [exact Hcharged|reflexivity].
      * exact Hs.
      * exact Hrest.
    + split; [apply staysCompleted_same; reflexivity|].
      apply final_snoc; [exact Hrest|exact Hcharged].
  - split; [apply staysCompleted_same; reflexivity|].
    apply final_snoc; [exact Hrest|exact Hunsaved].
Qed.

Lemma aiFinish_final (w : World) (i : nat) (now : Z) :
  tasksKeepCompleted w ->
  staysCompleted w (fst (aiFinish w i now))
  /\ tasksKeepCompleted (fst (aiFinish w i now)).
Proof.
  intros Hw.
  assert (Hidle : staysCompleted w w /\ tasksKeepCompleted w)
    by (split; [apply staysCompleted_same; reflexivity|exact Hw]).
  unfold aiFinish.
  destruct (aiTasks w !! i) as [task|] eqn:Htask; [|exact Hidle].
  destruct (negb (ai_thinking task)); [exact Hidle|].
  pose proof (Forall_lookup_1 _ _ _ _ Hw Htask) as Hunsaved.
  pose proof (Forall_delete _ _ i Hw) as Hrest.
  cbn beta in Hunsaved. cbv zeta.
  destruct (applyMove _ _ _) as [?|];
    [|split; [apply staysCompleted_same; reflexivity|exact Hrest]].
  match goal with
  | |- context [conclude ?b] =>
      pose proof (final_conclude b) as Kc;
      set (finish := conclude b) in *; clearbody finish
  end.
  set (ended := match finish with
                | Some f => f
                | None => if timerEnabled (ai_game task)
                          then set_timerLastStartedAt (Some now)
                          else fun g => g
                end).
  assert (Hended : keepsCompleted ended).
  { unfold ended. destruct finish as [f|];
      [apply Kc; reflexivity|apply final_armed]. }
  clearbody ended.
  assert (Hassigned : keepsCompleted
            (fun g => rollDuration now (ai_game task)
                        (ended (ai_unsaved task g))))
    by final_chain.
  unfold tasksKeepCompleted.
  destruct (bool_decide (status _ = completed)).
  - open_rollup R. destruct R as (Rg & _ & _ & Rt & _). cbn [fst]. split.
    + eapply (staysCompleted_saved w _ _ (ai_gameId task));
        [exact Hassigned|].
      rewrite Rg. world_fields; reflexivity.
    + rewrite Rt. world_fields; exact Hrest.
  - cbn [fst]. split.
    + eapply (staysCompleted_saved w _ _ (ai_gameId task));
        [exact Hassigned|].
      world_fields; reflexivity.
    + world_fields; exact Hrest.
Qed.

Lemma joinGame_final (w : World) (gid : string) (now : Z) :
  staysCompleted w (fst (joinGame w gid now))
  /\ (tasksKeepCompleted w -> tasksKeepCompleted (fst (joinGame w gid now))).
Proof.
  assert (Hidle : staysCompleted w w /\
                  (tasksKeepCompleted w -> tasksKeepCompleted w))
    by (split; [apply staysCompleted_same; reflexivity|tauto]).
  unfold joinGame.
  destruct (games w !! gid) as [game|]; [|exact Hidle].
  destruct (timerLastStartedAt game); [|exact Hidle].
  destruct (_ && _); [|exact Hidle].
  cbv zeta. cbn [fst]. destruct (gameTimers w !! gid); [exact Hidle|].
  split; [apply staysCompleted_same; reflexivity|intros H; exact H].
Qed.

Lemma step_final (w w' : World) :
  step w w' -> tasksKeepCompleted w ->
  staysCompleted w w' /\ tasksKeepCompleted w'.
Proof.
  intros Hstep Hw.
  destruct Hstep as [w gid g Hfree Hcreated| | | | | |].
  - split; [|exact Hw]. intros gid' g' Hg'. cbn [games with_games].
    rewrite lookup_insert_ne by congruence. eauto.
  - split; [apply staysCompleted_same; reflexivity|exact Hw].
  - split; [apply joinGame_final|apply joinGame_final, Hw].
  - split; [apply makeMove_final|apply makeMove_final, Hw].
  - apply aiStart_final, Hw.
  - apply aiFinish_final, Hw.
  - split; [apply handleTimeout_final|apply handleTimeout_final, Hw].
Qed.

Lemma reachable_tasksKeepCompleted (w : World) :
  reachable w -> tasksKeepCompleted w.
Proof.
  induction 1 as [|w w' _ IH Hstep]; [constructor|].
  exact (proj2 (step_final w w' Hstep IH)).
Qed.

(** X26. In every state the service reaches, one more step (a game or a
    user created, or a handler run: join, make-move, the deferred AI turn,
    timeout) removes no game and reopens none: a game that was completed is
    still stored and still completed afterwards, also when a deferred AI
    turn saves a document it loaded before the game ended. *)
Theorem completed_is_final (w w' : World) (gid : string) (g : IGame) :
  reachable w -> step w w' -> games w !! gid = Some g ->
  exists g', games w' !! gid = Some g'
             /\ (status g = completed -> status g' = completed).
Proof.
  intros Hreach Hstep Hg.
  exact (proj1 (step_final w w' Hstep (reachable_tasksKeepCompleted w Hreach))
           gid g Hg).
Qed.

Lemma completed_is_final_witness :
  exists g',
    games (fst (makeMove forfeitedWorld "g1" 4 "u1" 62000)) !! "g1" = Some g'
    /\ (status forfeitedGame = completed -> status g' = completed).
Proof.
  apply (completed_is_final forfeitedWorld _ "g1" forfeitedGame).
  - exact forfeitedWorld_reachable.
  - apply step_makeMove.
  - vm_compute. reflexivity.
Defined.

End CompletedIsFinal.


(** ** Recommendation service: every request ends and settles the row *)
Section RecommendationTraces.
Import RecommendationService.

Lemma slept_app (l l' : list Effect) : slept (l ++ l') = slept l + slept l'.
Proof.
  induction l as [|e l IH]; [reflexivity|].
  destruct e; cbn [app slept]; rewrite ?IH; lia.
Qed.

Lemma polls_quiet (k : nat) : ~ In CallGemini (polls k).
Proof.
  induction k as [|k IH]; cbn [polls In]; [tauto|].
  intros [H|[H|H]]; [discriminate H|discriminate H|exact (IH H)].
Qed.

Lemma generate_trace (w : Surroundings) :
  slept (snd (generate w)) = 0
  /\ (In CallGemini (snd (generate w)) -> games w <> 0%nat)
  /\ (last (snd (generate w))
      = Some (UpdateCache (fst (generate w)) completed (later w + day))
      \/ exists msg,
           last (snd (generate w)) = Some (MarkFailed msg)
           /\ gemini w = inl msg
           /\ fst (generate w) = getDefaultRecommendations (later w)).
Proof.
  unfold generate. destruct (games w) as [|n].
  - cbn. split; [reflexivity|]. split; [|left; reflexivity].
    intros [H|[H|[H|[]]]]; discriminate H.
  - destruct (gemini w) as [msg|recs]; cbn.
    + split; [reflexivity|]. split; [discriminate|]. right. eauto.
    + split; [reflexivity|]. split; [discriminate|]. left. reflexivity.
Qed.

Lemma generate_nonempty (w : Surroundings) : snd (generate w) <> [].
Proof.
  unfold generate. destruct (games w); [discriminate|].
  destruct (gemini w); discriminate.
Qed.

Lemma before_quiet (k : nat) :
  ~ regenerates (FindCache :: polls k)
  /\ ~ In CallGemini (FindCache :: polls k)
  /\ slept (FindCache :: polls k) = 1000 * Z.of_nat k.
Proof.
  split; [|split].
  - intros [expires [H|H]]; [discriminate H|].
    exact (polls_no_upsert k expires H).
  - intros [H|H]; [discriminate H|exact (polls_quiet k H)].
  - cbn [slept]. apply polls_slept.
Qed.

(** X27. [generateRecommendations] always returns, after sleeping at most 30
    seconds in all, and not at all unless the row it found was being
    processed.  A row that is completed and unexpired is returned after the
    one lookup.  A request that starts a generation returns what the
    generation yields and ends by settling the row: its last effect writes
    the recommendations returned as completed, or, when the call to Gemini
    threw, marks the row failed, and the defaults are returned.  Gemini is
    not called for a user without completed games. *)
Theorem generateRecommendations_settles (w : Surroundings) :
  exists recs effects,
    generateRecommendations w = (Done recs, effects)
    /\ 0 <= slept effects <= 30000
    /\ (forall cache, existingCache w = Some cache ->
          fresh cache (now w) = true ->
          recs = recommendations cache /\ effects = [FindCache])
    /\ ((forall cache, existingCache w = Some cache ->
           status cache <> processing) -> slept effects = 0)
    /\ (regenerates effects ->
        recs = fst (generate w)
        /\ (exists before,
              effects = before ++ snd (generate w) /\ ~ regenerates before)
        /\ (last effects
            = Some (UpdateCache recs completed (later w + day))
            \/ exists msg,
                 last effects = Some (MarkFailed msg)
                 /\ gemini w = inl msg
                 /\ recs = getDefaultRecommendations (later w)))
    /\ (In CallGemini effects -> games w <> 0%nat).
Proof.
  destruct (generate_trace w) as (Hslept & Hgem & Hlast).
  pose proof (generate_nonempty w) as Hne.
  assert (Hregen : forall k,
    (k <= 30)%nat ->
    let effects := (FindCache :: polls k) ++ snd (generate w) in
    0 <= slept effects <= 30000
    /\ (k = 0%nat -> slept effects = 0)
    /\ (fst (generate w) = fst (generate w)
        /\ (exists before,
              effects = before ++ snd (generate w) /\ ~ regenerates before)
        /\ (last effects
            = Some (UpdateCache (fst (generate w)) completed (later w + day))
            \/ exists msg,
                 last effects = Some (MarkFailed msg)
                 /\ gemini w = inl msg
                 /\ fst (generate w) = getDefaultRecommendations (later w)))
    /\ (In CallGemini effects -> games w <> 0%nat)).
  { intros k Hk effects. unfold effects.
    destruct (before_quiet k) as (Hq1 & Hq2 & Hq3).
    rewrite slept_app, Hq3, Hslept.
    split; [lia|]. split; [intros ->; reflexivity|]. split.
    - split; [reflexivity|]. split; [eauto|].
      rewrite last_app.
      destruct (last (snd (generate w))) as [e|] eqn:E; [exact Hlast|].
      apply last_None in E. contradiction.
    - intros Hin. apply in_app_or in Hin as [Hin|Hin];
        [destruct (Hq2 Hin)|exact (Hgem Hin)]. }
  unfold generateRecommendations.
  destruct (existingCache w) as [cache|] eqn:Hrow.
  - destruct (fresh cache (now w)) eqn:Hfresh.
    + exists (recommendations cache), [FindCache].
      split; [reflexivity|]. split; [cbn; lia|].
      split; [intros c [= <-] _; split; reflexivity|].
      split; [reflexivity|]. split.
      * intros [expires [H|[]]]. discriminate H.
      * intros [H|[]]. discriminate H.
    + destruct (bool_decide (status cache = processing)) eqn:Hproc.
      * apply bool_decide_eq_true in Hproc.
        destruct (waitLoop_total w 30 0 31 eq_refl ltac:(lia))
          as (r & m & E & Hm).
        unfold waitForProcessing.
        change (waitLoop w 31 0 0)
          with (waitLoop w 31 (1000 * Z.of_nat 0) 0). rewrite E.
        destruct r as [result|].
        -- exists result, (FindCache :: polls m).
           destruct (before_quiet m) as (Hq1 & Hq2 & Hq3).
           split; [reflexivity|]. split; [rewrite Hq3; lia|].
           split; [intros c [= <-] Hf; congruence|].
           split; [intros Hno; destruct (Hno cache eq_refl Hproc)|].
           split; [intros H; destruct (Hq1 H)|intros H; destruct (Hq2 H)].
        -- destruct (generate w) as [recs effects] eqn:G. cbn [fst snd] in *.
           exists recs, ((FindCache :: polls m) ++ effects).
           destruct (Hregen m Hm) as (H1 & _ & H3 & H4).
           split; [reflexivity|]. split; [exact H1|].
           split; [intros c [= <-] Hf; congruence|].
           split; [intros Hno; destruct (Hno cache eq_refl Hproc)|].
           split; [intros _; exact H3|exact H4].
      * apply bool_decide_eq_false in Hproc.
        destruct (generate w) as [recs effects] eqn:G. cbn [fst snd] in *.
        exists recs, ([FindCache] ++ effects).
        destruct (Hregen 0%nat ltac:(lia)) as (H1 & H2 & H3 & H4).
        split; [reflexivity|]. split; [exact H1|].
        split; [intros c [= <-] Hf; congruence|].
        split; [intros _; apply H2; reflexivity|].
        split; [intros _; exact H3|exact H4].
  - destruct (generate w) as [recs effects] eqn:G. cbn [fst snd] in *.
    exists recs, ([FindCache] ++ effects).
    destruct (Hregen 0%nat ltac:(lia)) as (H1 & H2 & H3 & H4).
    split; [reflexivity|]. split; [exact H1|].
    split; [intros c Hc; discriminate Hc|].
    split; [intros _; apply H2; reflexivity|].
    split; [intros _; exact H3|exact H4].
Qed.

Lemma generateRecommendations_settles_witness :
  exists recs effects,
    generateRecommendations finishing = (Done recs, effects)
    /\ 0 <= slept effects <= 30000
    /\ ((forall cache, existingCache finishing = Some cache ->
           status cache <> processing) -> slept effects = 0).
Proof.
  destruct (generateRecommendations_settles finishing)
    as (recs & effects & Hrun & Hslept & _ & Hidle & _).
  exists recs, effects. split; [exact Hrun|]. split; [exact Hslept|exact Hidle].
Defined.

(** X28. A request that finds no row, a failed row, or a completed row that
    has expired starts its generation at once, after the one lookup.  A
    request that finds the row being processed and at its first poll, one
    second later, finds the row gone or failed gives up waiting and starts
    its generation then. *)
Theorem generateRecommendations_regenerates_at_once (w : Surroundings) :
  ((existingCache w = None
    \/ exists cache, existingCache w = Some cache
                     /\ (status cache = failed
                         \/ (status cache = completed
                             /\ expiresAt cache <= now w))) ->
   generateRecommendations w
   = (Done (fst (generate w)), FindCache :: snd (generate w)))
  /\ (forall cache,
        existingCache w = Some cache -> status cache = processing ->
        (polled w 0%nat = None
         \/ exists row, polled w 0%nat = Some row /\ status row = failed) ->
        generateRecommendations w
        = (Done (fst (generate w)),
           FindCache :: Sleep 1000 :: FindCache :: snd (generate w))).
Proof.
  unfold generateRecommendations. split.
  - intros [->|(cache & -> & Hst)];
      [destruct (generate w); reflexivity|].
    assert (Hfresh : fresh cache (now w) = false).
    { unfold fresh. destruct Hst as [->|[-> Hexp]]; [reflexivity|].
      rewrite bool_decide_eq_true_2 by reflexivity. cbn [andb].
      rewrite Z.gtb_ltb. apply Z.ltb_ge. exact Hexp. }
    rewrite Hfresh.
    rewrite bool_decide_eq_false_2
      by (destruct Hst as [->|[-> _]]; discriminate).
    destruct (generate w); reflexivity.
  - intros cache -> Hproc Hpoll.
    unfold fresh at 1. rewrite Hproc.
    rewrite (bool_decide_eq_false_2 (processing = completed)) by discriminate.
    cbn [andb]. rewrite bool_decide_eq_true_2 by reflexivity.
    unfold waitForProcessing. cbn [waitLoop].
    change (0 <? maxWaitTime) with true. cbn match.
    destruct Hpoll as [->|(row & -> & Hfailed)].
    + destruct (generate w); reflexivity.
    + unfold fresh. rewrite Hfailed.
      rewrite (bool_decide_eq_false_2 (failed = completed)) by discriminate.
      cbn [andb]. rewrite bool_decide_eq_true_2 by reflexivity.
      destruct (generate w); reflexivity.
Qed.

Lemma generateRecommendations_regenerates_at_once_witness :
  generateRecommendations
    (mkSurroundings None 0 (fun _ => None) (fun _ => 0) 30000 0 (inr []))
  = (Done (fst (generate
                  (mkSurroundings None 0 (fun _ => None) (fun _ => 0) 30000 0
                     (inr [])))),
     FindCache
       :: snd (generate
                 (mkSurroundings None 0 (fun _ => None) (fun _ => 0) 30000 0
                    (inr [])))).
Proof.
  apply (proj1 (generateRecommendations_regenerates_at_once
                  (mkSurroundings None 0 (fun _ => None) (fun _ => 0) 30000 0
                     (inr [])))).
  left. reflexivity.
Defined.

End RecommendationTraces.

(** ** Socket service: the deferred AI turn *)
Section AiTurn.
Import Double GameEngine GameModel UserModel AchievementService SocketService.

Lemma conclude_completes (b : board) (f : IGame -> IGame) (g : IGame) :
  conclude b = Some f -> status (f g) = completed.
Proof.
  unfold conclude. destruct (checkWinner b) as [winner|].
  - intros [= <-]. destruct (getWinningLine b); reflexivity.
  - destruct (isDraw b); [|discriminate]. intros [= <-]. reflexivity.
Qed.

Lemma conclude_None (b : board) :
  conclude b = None -> checkWinner b = None /\ isDraw b = false.
Proof.
  unfold conclude. destruct (checkWinner b); [discriminate|].
  destruct (isDraw b); [discriminate|]. auto.
Qed.

Lemma getActiveBoardFromMoves_length (moves : list MoveView) (n : Z) :
  length (getActiveBoardFromMoves moves n) = 9%nat.
Proof. apply getBoardFromMoves_length. Qed.

Lemma tasksOpen_snoc (tasks : list AiTask) (task : AiTask) :
  Forall taskBoardOpen tasks -> taskBoardOpen task ->
  Forall taskBoardOpen (tasks ++ [task]).
Proof.
  intros Ht Htask. apply Forall_app. split; [exact Ht|].
  constructor; [exact Htask|constructor].
Qed.

Lemma makeMove_tasksOpen (w : World) (gid : string) (position : Z)
    (userId : string) (now : Z) :
  tasksOpen w -> tasksOpen (fst (makeMove w gid position userId now)).
Proof.
  intros Hw. unfold makeMove, tasksOpen in *.
  destruct (games w !! gid) as [game0|]; [|exact Hw].
  cbv zeta.
  repeat match goal with
         | |- Forall _ (aiTasks (fst (if ?c then (w, _) else _))) =>
             destruct c; [exact Hw|]
         end.
  destruct (applyMove _ _ _) as [?|]; [|exact Hw].
  destruct (deductTimerOnMove _ _ _) as [clocked timerState].
  match goal with
  | |- context [conclude ?b] => set (playerBoard := b) in *
  end.
  assert (Hlen : length playerBoard = 9%nat)
    by apply getActiveBoardFromMoves_length.
  destruct (conclude playerBoard) as [f|] eqn:Hfin; cbn [default].
  - rewrite bool_decide_eq_true_2 by (apply (conclude_completes _ _ _ Hfin)).
    open_rollup R. destruct R as (_ & _ & _ & Rt & _). cbn [fst].
    rewrite Rt. world_fields; exact Hw.
  - apply conclude_None in Hfin as [Hwin Hdraw].
    destruct (bool_decide (status _ = completed)).
    + open_rollup R. destruct R as (_ & _ & _ & Rt & _). cbn [fst].
      rewrite Rt. world_fields; exact Hw.
    + cbn [fst]. world_fields;
        first [exact Hw
              |apply tasksOpen_snoc; [exact Hw|repeat split; assumption]].
Qed.

Lemma aiStart_tasksOpen (w : World) (i : nat) (delay now : Z) :
  tasksOpen w -> tasksOpen (fst (aiStart w i delay now)).
Proof.
  intros Hw. unfold aiStart, tasksOpen in *.
  destruct (aiTasks w !! i) as [task|] eqn:Htask; [|exact Hw].
  destruct (ai_thinking task); [exact Hw|].
  pose proof (Forall_lookup_1 _ _ _ _ Hw Htask) as Hopen.
  pose proof (Forall_delete _ _ i Hw) as Hrest.
  cbv zeta. destruct (timerEnabled (ai_game task)).
  - destruct (fleb _ zero).
    + match goal with
      | |- Forall _ (aiTasks (fst (handleTimeout ?w1 ?gid ?p ?t))) =>
          destruct (handleTimeout_world w1 gid p t) as (_ & _ & -> & _)
      end.
      exact Hrest.
    + apply tasksOpen_snoc; [exact Hrest|exact Hopen].
  - apply tasksOpen_snoc; [exact Hrest|exact Hopen].
Qed.

Lemma aiFinish_tasks (w : World) (i : nat) (now : Z) (task : AiTask) :
  aiTasks w !! i = Some task -> ai_thinking task = true ->
  aiTasks (fst (aiFinish w i now)) = delete i (aiTasks w).
Proof.
  intros Htask Hthinking. unfold aiFinish. rewrite Htask, Hthinking.
  cbn [negb]. cbv zeta.
  destruct (applyMove _ _ _) as [?|]; [|reflexivity].
  destruct (bool_decide (status _ = completed)).
  - open_rollup R. destruct R as (_ & _ & _ & Rt & _). cbn [fst].
    rewrite Rt. world_fields; reflexivity.
  - cbn [fst]. world_fields; reflexivity.
Qed.

Lemma aiFinish_tasksOpen (w : World) (i : nat) (now : Z) :
  tasksOpen w -> tasksOpen (fst (aiFinish w i now)).
Proof.
  intros Hw. unfold tasksOpen in *.
  destruct (aiTasks w !! i) as [task|] eqn:Htask.
  - destruct (ai_thinking task) eqn:Hthinking.
    + rewrite (aiFinish_tasks w i now task Htask Hthinking).
      apply Forall_delete, Hw.
    + unfold aiFinish. rewrite Htask, Hthinking. exact Hw.
  - unfold aiFinish. rewrite Htask. exact Hw.
Qed.

Lemma joinGame_tasks (w : World) (gid : string) (now : Z) :
  aiTasks (fst (joinGame w gid now)) = aiTasks w.
Proof.
  unfold joinGame. destruct (games w !! gid) as [game|]; [|reflexivity].
  destruct (timerLastStartedAt game); [|reflexivity].
  destruct (_ && _); [|reflexivity].
  cbv zeta. cbn [fst]. destruct (gameTimers w !! gid); reflexivity.
Qed.

Lemma reachable_tasksOpen (w : World) : reachable w -> tasksOpen w.
Proof.
  induction 1 as [|w w' _ IH Hstep]; [constructor|].
  destruct Hstep.
  - exact IH.
  - exact IH.
  - unfold tasksOpen. rewrite joinGame_tasks. exact IH.
  - apply makeMove_tasksOpen, IH.
  - apply aiStart_tasksOpen, IH.
  - apply aiFinish_tasksOpen, IH.
  - unfold tasksOpen.
    match goal with
    | |- Forall _ (aiTasks (fst (handleTimeout ?w1 ?gid ?p ?t))) =>
        destruct (handleTimeout_world w1 gid p t) as (_ & _ & -> & _)
    end.
    exact IH.
Qed.

(** X29. In every state the service reaches, the board a deferred AI turn
    holds is still open, so the turn never fails: once its delay is over it
    is consumed and stores exactly one move, flagged as the AI's, played by
    [O], numbered one above the player's move, at the free cell
    [getBestMove] chooses on that board at the game's difficulty (easy when
    none is set); the board stored with the move shows [O] there, the first
    event emitted is [ai-move] with that cell, and no error is emitted. *)
Theorem aiFinish_plays (w : World) (i : nat) (task : AiTask) (now : Z) :
  reachable w -> aiTasks w !! i = Some task -> ai_thinking task = true ->
  let out := aiFinish w i now in
  let cell := AIService.getBestMove (ai_playerBoard task)
                (default AIService.easy (difficulty (ai_game task))) in
  In cell (getAvailableMoves (ai_playerBoard task))
  /\ aiTasks (fst out) = delete i (aiTasks w)
  /\ (exists m rest,
        moves (fst out) = rest ++ [m] /\ length rest = length (moves w)
        /\ gameId m = ai_gameId task
        /\ m_moveNumber m = ai_moveNumber task + 1
        /\ m_position m = cell /\ m_player m = O /\ isAiMove m = true
        /\ boardStateBeforeMove m = ai_playerBoard task
        /\ boardStateAfterMove m !! Z.to_nat cell = Some (Some O))
  /\ hd_error (snd out) = Some (AiMove (ai_gameId task) cell)
  /\ forallb (fun e => negb (isError e)) (snd out) = true.
Proof.
  intros Hreach Htask Hthinking. cbn zeta.
  pose proof (Forall_lookup_1 _ _ _ _ (reachable_tasksOpen w Hreach) Htask)
    as (Hlen & Hwin & Hdraw).
  set (cell := AIService.getBestMove (ai_playerBoard task)
                 (default AIService.easy (difficulty (ai_game task)))).
  assert (Hcell : In cell (getAvailableMoves (ai_playerBoard task)))
    by (apply getBestMove_open; assumption).
  split; [exact Hcell|].
  split; [exact (aiFinish_tasks w i now task Htask Hthinking)|].
  unfold aiFinish. rewrite Htask, Hthinking. cbn [negb]. cbv zeta.
  fold cell.
  destruct (applyMove (ai_playerBoard task) cell O) as [b1|] eqn:Happly.
  2:{ exfalso.
      apply (applyMove_is_Some (ai_playerBoard task) cell O Hlen) in Hcell.
      rewrite Happly in Hcell. destruct Hcell as [? Hx]. discriminate Hx. }
  apply applyMove_Some in Happly as (Hpos & _ & _).
  set (n := ai_moveNumber task + 1).
  set (moves1 := updateMany (moves (with_tasks (delete i (aiTasks w)) w)) _ n
                   now).
  set (aiBoardFinal := getActiveBoardFromMoves _ n).
  set (newMove := mkMove (length moves1) (ai_gameId task) n cell true O
                    (ai_playerBoard task) aiBoardFinal _ None None None).
  set (game' := rollDuration now (ai_game task) _).
  match goal with
  | |- context [moves (fst ?out)] =>
      assert (Hmoves : moves (fst out) = moves1 ++ [newMove]);
      [|assert (Hevents : hd_error (snd out)
                          = Some (AiMove (ai_gameId task) cell)
                          /\ forallb (fun e => negb (isError e)) (snd out)
                             = true);
        [|rewrite Hmoves; split; [|exact Hevents]]]
  end.
  - destruct (bool_decide (status game' = completed)).
    + open_rollup R. destruct R as (_ & Rm & _). cbn [fst]. rewrite Rm.
      repeat (match goal with
              | |- context [if ?c then _ else _] => destruct c
              end;
              cbn [moves save with_games with_moves with_tasks
                   scheduleTimer with_timers clearGameTimer]);
        reflexivity.
    + cbn [fst].
      repeat (match goal with
              | |- context [if ?c then _ else _] => destruct c
              end;
              cbn [moves save with_games with_moves with_tasks
                   scheduleTimer with_timers clearGameTimer]);
        reflexivity.
  - destruct (bool_decide (status game' = completed)).
    + open_rollup R. cbn [snd hd_error app]. split; [reflexivity|].
      cbn [forallb isError negb andb].
      rewrite !forallb_app, expiredEvents_quiet.
      destruct (timerEnabled game'); reflexivity.
    + cbn [snd hd_error app]. split; [reflexivity|].
      cbn [forallb isError negb andb].
      rewrite !forallb_app, expiredEvents_quiet.
      destruct (timerEnabled game'); reflexivity.
  - exists newMove, moves1. split; [reflexivity|].
    split; [unfold moves1, updateMany; apply length_map|].
    cbn [gameId m_moveNumber m_position m_player isAiMove
         boardStateBeforeMove boardStateAfterMove newMove].
    repeat (split; [reflexivity|]).
    apply getActiveBoardFromMoves_last. exact Hpos.
Qed.

Lemma aiWorldThinking_reachable : reachable aiWorldThinking.
Proof.
  destruct (aiTasks aiWorldMoved !! 0%nat) as [task|] eqn:Ht;
    [|vm_compute in Ht; discriminate Ht].
  assert (Hd : difficulty (ai_game task) = Some AIService.hard)
    by (vm_compute in Ht; injection Ht as <-; reflexivity).
  unfold aiWorldThinking.
  apply (reachable_step aiWorldMoved);
    [|apply (step_aiStart aiWorldMoved 0 task 1 1000 Ht);
      rewrite Hd; cbn; lia].
  unfold aiWorldMoved.
  eapply reachable_step; [|apply step_makeMove].
  unfold aiWorld.
  eapply reachable_step; [apply reachable_empty|].
  apply step_createGame; [reflexivity|].
  repeat split.
Defined.

Lemma aiFinish_plays_witness :
  exists m rest,
    moves (fst (aiFinish aiWorldThinking 0 2000)) = rest ++ [m]
    /\ m_player m = O /\ isAiMove m = true /\ m_moveNumber m = 2.
Proof.
  destruct (aiTasks aiWorldThinking !! 0%nat) as [task|] eqn:Ht;
    [|vm_compute in Ht; discriminate Ht].
  assert (Hthinking : ai_thinking task = true)
    by (vm_compute in Ht; injection Ht as <-; reflexivity).
  assert (Hn : ai_moveNumber task = 1)
    by (vm_compute in Ht; injection Ht as <-; reflexivity).
  destruct (aiFinish_plays aiWorldThinking 0 task 2000
              aiWorldThinking_reachable Ht Hthinking)
    as (_ & _ & (m & rest & Hm & _ & _ & Hnum & _ & Hp & Hai & _) & _).
  exists m, rest. rewrite Hn in Hnum. auto.
Defined.

End AiTurn.

(** ** Game controller: naming the winning line *)
Section PatternNames.
Import GameEngine GameController.

(** X30. [getWinningPatternName] names each of the eight lines of the engine
    by a name of its own, so the fallback name is never given to a line
    [getWinningLine] returns, and two different lines never share a name;
    the name depends only on the cells of the line, not on their order.
    Without a line the name is Draw for a drawn game and Undecided
    otherwise. *)
Theorem getWinningPatternName_lines :
  map (fun line => getWinningPatternName (Some line) None) winningLines
  = patternNames
  /\ NoDup patternNames
  /\ (forall (b : board) line o,
        getWinningLine b = Some line ->
        In (getWinningPatternName (Some line) o) patternNames)
  /\ (forall line line' o,
        line <> [] -> line' <> [] ->
        (forall k, k ∈ line <-> k ∈ line') ->
        getWinningPatternName (Some line) o
        = getWinningPatternName (Some line') o)
  /\ (forall o,
        getWinningPatternName None o
        = if bool_decide (o = Some Progression.draw)
          then "Draw" else "Undecided").
Proof.
  split; [reflexivity|]. split.
  { apply (bool_decide_unpack (NoDup patternNames)). vm_compute. exact I. }
  split; [|split; [|reflexivity]].
  - intros b line o Hline. apply getWinningLineIn_In in Hline.
    cbn [In winningLines] in Hline.
    repeat (destruct Hline as [<-|Hline]; [vm_compute; tauto|]).
    destruct Hline.
  - intros line line' o Hne Hne' Hsame.
    destruct line as [|x line]; [destruct Hne; reflexivity|].
    destruct line' as [|x' line']; [destruct Hne'; reflexivity|].
    unfold getWinningPatternName.
    assert (Hhas : forall k, bool_decide (k ∈ x :: line)
                             = bool_decide (k ∈ x' :: line'))
      by (intros k; apply bool_decide_ext, Hsame).
    rewrite !Hhas. reflexivity.
Qed.

Lemma getWinningPatternName_lines_witness :
  In (getWinningPatternName (Some [0; 3; 6]%nat) (Some Progression.win))
    patternNames
  /\ getWinningPatternName (Some [6; 3; 0]%nat) None
     = getWinningPatternName (Some [0; 3; 6]%nat) None.
Proof.
  destruct getWinningPatternName_lines as (_ & _ & Hline & Hperm & _).
  split.
  - apply (Hline boardColumn). reflexivity.
  - apply Hperm; [discriminate|discriminate|]. intros k.
    rewrite !list_elem_of_In. cbn [In]. tauto.
Defined.

End PatternNames.
